(** * Catalog synchronisation pipeline of iab-mapper: [scripts/update_catalogs.py]

    A shallow embedding of the script and the properties of its version
    extractor, catalog locator, format-detecting parser, the two schema
    normalizers and the pipeline driver.  The reader of tab-separated text
    of [scripts/fetch_official_taxonomies.py] is embedded after them.

    Conventions of the embedding.
    - A Python [str] is the [string] of its code points, which are below
      256: the character of code point [n] is [ascii_of_nat n].  On such
      strings [str.lower], [str.strip], [str.splitlines], [\s] and [\d] are
      the Python operations; texts with other code points are outside the
      embedding.
    - [int] and [str] convert between integers and decimal text within the
      interpreter's limit of 4300 digits, which the script leaves at its
      default.
    - A Python exception is a value of [exn]; a call that may raise returns
      a [result].
    - What the script obtains from libraries that are not part of it
      ([json.loads], [pandas.read_csv], the [repr] of floats and containers,
      the HTTP transport) is a field of [Runtime] or [World].
    - A cell of a data frame holds the Python value [iterrows] yields for it.
    - Printing and writing files do not fail; what a run prints and writes
      is recorded in its trace. *)

From Stdlib Require Import String Ascii List ZArith Lia Bool Arith DecimalString.
From Stdlib Require DecimalPos.
Import ListNotations.
Open Scope string_scope.
Open Scope list_scope.
Open Scope nat_scope.

Set Implicit Arguments.
Set Warnings "-register-all".

(* ================================================================= *)
(** ** Python strings *)

Module PyStr.

(** [str.isspace] on one character, which is also the class [\s] of a
    pattern on [str]: TAB..CR, FS..US, space, NEL (133) and the no-break
    space (160). *)
Definition is_space (c : ascii) : bool :=
  let n := nat_of_ascii c in
  ((9 <=? n) && (n <=? 13)) || ((28 <=? n) && (n <=? 32)) ||
  (n =? 133) || (n =? 160).

(** [\d] on one character: below 256 the decimal digits are 0..9. *)
Definition is_digit (c : ascii) : bool :=
  let n := nat_of_ascii c in (48 <=? n) && (n <=? 57).

(** [c.lower()] for one character: A..Z and the capital letters 192..222
    of Latin-1 (215, the multiplication sign, is none) move up by 32. *)
Definition lower_char (c : ascii) : ascii :=
  let n := nat_of_ascii c in
  if ((65 <=? n) && (n <=? 90)) ||
     ((192 <=? n) && (n <=? 222) && negb (n =? 215))
  then ascii_of_nat (n + 32) else c.

(** [s.lower()] *)
Fixpoint lower (s : string) : string :=
  match s with
  | EmptyString => EmptyString
  | String c s' => String (lower_char c) (lower s')
  end.

Fixpoint all_chars (p : ascii -> bool) (s : string) : bool :=
  match s with
  | EmptyString => true
  | String c s' => p c && all_chars p s'
  end.

Fixpoint lstrip (s : string) : string :=
  match s with
  | EmptyString => EmptyString
  | String c s' => if is_space c then lstrip s' else s
  end.

(** Drops the trailing white space; a string of white space only becomes
    empty. *)
Fixpoint rstrip (s : string) : string :=
  match s with
  | EmptyString => EmptyString
  | String c s' =>
      match rstrip s' with
      | EmptyString => if is_space c then EmptyString else String c EmptyString
      | r => String c r
      end
  end.

(** [s.strip()] *)
Definition strip (s : string) : string := rstrip (lstrip s).

(** [s.startswith(p)] *)
Definition startswith (s p : string) : bool := String.prefix p s.

(** [p in s] for strings. *)
Fixpoint contains (p s : string) : bool :=
  String.prefix p s ||
  match s with
  | EmptyString => false
  | String _ s' => contains p s'
  end.

(** [s.endswith(p)] *)
Fixpoint endswith (s p : string) : bool :=
  String.eqb s p ||
  match s with
  | EmptyString => false
  | String _ s' => endswith s' p
  end.

(** The truth value of a string. *)
Definition nonempty (s : string) : bool :=
  match s with EmptyString => false | _ => true end.

(** The line boundaries of [str.splitlines] below 256: LF, VT, FF, CR,
    FS, GS, RS and NEL (CR LF counts as one). *)
Definition is_linebreak (c : ascii) : bool :=
  let n := nat_of_ascii c in
  ((10 <=? n) && (n <=? 13)) || ((28 <=? n) && (n <=? 30)) || (n =? 133).

Definition is_cr (c : ascii) : bool := nat_of_ascii c =? 13.
Definition is_lf (c : ascii) : bool := nat_of_ascii c =? 10.

(** [splitlines_from cur s]: the lines of [s], the first of them prefixed
    by the characters [cur] already read .  No line is
    produced for the empty remainder after a final line break. *)
Fixpoint splitlines_from (cur : string) (s : string) : list string :=
  match s with
  | EmptyString =>
      match cur with EmptyString => [] | _ => [cur] end
  | String c s' =>
      if is_linebreak c then
        match s' with
        | String d s'' =>
            if is_cr c && is_lf d then cur :: splitlines_from EmptyString s''
            else cur :: splitlines_from EmptyString s'
        | EmptyString => [cur]
        end
      else splitlines_from (cur ++ String c EmptyString)%string s'
  end.

(** [s.splitlines()] *)
Definition splitlines (s : string) : list string :=
  splitlines_from EmptyString s.

(** [re.split] on a pattern that is an alternation of single characters:
    the pieces between the delimiters, empty pieces included. *)
Fixpoint split_on (delim : ascii -> bool) (cur : string) (s : string)
  : list string :=
  match s with
  | EmptyString => [cur]
  | String c s' =>
      if delim c then cur :: split_on delim EmptyString s'
      else split_on delim (cur ++ String c EmptyString)%string s'
  end.

(** The value [int(s)] returns for a string of decimal digits. *)
Definition digit_value (c : ascii) : Z := Z.of_nat (nat_of_ascii c - 48).

Fixpoint int_from (acc : Z) (s : string) : Z :=
  match s with
  | EmptyString => acc
  | String c s' => int_from (10 * acc + digit_value c) s'
  end.

Definition int_of_digits (s : string) : Z := int_from 0 s.

(** [str(n)] for an integer. *)
Definition str_of_int (z : Z) : string := NilZero.string_of_int (Z.to_int z).

End PyStr.

Import PyStr.

(* ================================================================= *)
(** ** Version extractor *)

(** The pattern is [Content\s*Taxonomy\s*(?P<major>\d+)\.(?P<minor>\d+)]
    compiled with [re.I].  Each of its pieces is followed by a character
    class disjoint from its own, so the greedy match at a position is the
    only one: the matcher consumes the pieces from left to right. *)

(** Consumes the lower-case literal [lit], ignoring case. *)
Fixpoint lit_ci (lit s : string) : option string :=
  match lit with
  | EmptyString => Some s
  | String a lit' =>
      match s with
      | EmptyString => None
      | String c s' =>
          if Ascii.eqb (lower_char c) a then lit_ci lit' s' else None
      end
  end.

(** [\s*] *)
Fixpoint skip_space (s : string) : string :=
  match s with
  | EmptyString => EmptyString
  | String c s' => if is_space c then skip_space s' else s
  end.

(** The longest prefix of digits and the rest. *)
Fixpoint span_digits (s : string) : string * string :=
  match s with
  | EmptyString => (EmptyString, EmptyString)
  | String c s' =>
      if is_digit c then
        let (d, r) := span_digits s' in (String c d, r)
      else (EmptyString, s)
  end.

(** The first character of [s] exists and satisfies [p]. *)
Definition starts_with (p : ascii -> bool) (s : string) : bool :=
  match s with
  | EmptyString => false
  | String c _ => p c
  end.

Definition is_lower_letter (a : ascii) : bool :=
  let n := nat_of_ascii a in (97 <=? n) && (n <=? 122).

(** [\d+] *)
Definition digits1 (s : string) : option (string * string) :=
  match span_digits s with
  | (EmptyString, _) => None
  | (d, r) => Some (d, r)
  end.

(** The match of [_VER_RE] that starts at the first character of [s]:
    the two groups. *)
Definition ver_match_here (s : string) : option (string * string) :=
  match lit_ci "content" s with
  | None => None
  | Some s1 =>
      match lit_ci "taxonomy" (skip_space s1) with
      | None => None
      | Some s2 =>
          match digits1 (skip_space s2) with
          | None => None
          | Some (major, s3) =>
              match s3 with
              | String "."%char s4 =>
                  match digits1 s4 with
                  | Some (minor, _) => Some (major, minor)
                  | None => None
                  end
              | _ => None
              end
          end
      end
  end.

(** [_VER_RE.search(s)]: the match at the leftmost position that has one. *)
Fixpoint ver_search (s : string) : option (string * string) :=
  match ver_match_here s with
  | Some g => Some g
  | None =>
      match s with
      | EmptyString => None
      | String _ s' => ver_search s'
      end
  end.

(** What [parse_version_from_name(name)] returns.  The two conversions
    [int(...)] are within the interpreter's limit when each group has at
    most 4300 digits; [parse_version_from_name_run] below is the call with
    the failure of a conversion beyond the limit. *)
Definition parse_version_from_name (name : string) : option (Z * Z) :=
  match ver_search name with
  | None => None
  | Some (major, minor) => Some (int_of_digits major, int_of_digits minor)
  end.


(* ================================================================= *)
(** ** Catalog locator *)

Record FileMeta := { name : string; download_url : string }.

Section StableSort.
Variable A : Type.
Variable key : A -> Z.

(** [l.sort(key=key, reverse=True)] is a stable sort: the list ends in
    decreasing key order and elements of equal key keep their order.
    Insertion from the right, in front of the first element whose key is
    not larger, produces that list. *)
Fixpoint insert_desc (x : A) (l : list A) : list A :=
  match l with
  | [] => [x]
  | y :: l' =>
      if (key x <? key y)%Z then y :: insert_desc x l' else x :: l
  end.

Definition sort_desc (l : list A) : list A := fold_right insert_desc [] l.
End StableSort.

Definition candidate : Type := (Z * Z) * FileMeta.

(** The loop of [pick_latest] that collects the candidates. *)
Fixpoint collect_candidates (major : Z) (files : list FileMeta)
  (candidates : list candidate) : list candidate :=
  match files with
  | [] => candidates
  | f :: files' =>
      match parse_version_from_name (name f) with
      | None => collect_candidates major files' candidates
      | Some (maj, minr) =>
          if (maj =? major)%Z
          then collect_candidates major files' (candidates ++ [((maj, minr), f)])
          else collect_candidates major files' candidates
      end
  end.

Definition pick_latest (files : list FileMeta) (major : Z) : option FileMeta :=
  let candidates := collect_candidates major files [] in
  match candidates with
  | [] => None
  | _ =>
      match sort_desc (fun x : candidate => snd (fst x)) candidates with
      | c :: _ => Some (snd c)
      | [] => None
      end
  end.

(* ================================================================= *)
(** ** Python values, exceptions *)

(** A float: not-a-number, an infinity, or [mantissa * 2 ^ exponent]. *)
Inductive pyfloat : Type :=
| FNaN
| FInf (negative : bool)
| FFin (mantissa exponent : Z).

(** The values [json.loads] builds and the cells of a data frame. *)
Inductive pyval : Type :=
| PNone
| PBool (b : bool)
| PInt (z : Z)
| PFloat (f : pyfloat)
| PStr (s : string)
| PList (l : list pyval)
| PDict (kv : list (string * pyval)).

(** The truth value of an object, as [or], [and], [not] and [if] test it. *)
Definition truthy (v : pyval) : bool :=
  match v with
  | PNone => false
  | PBool b => b
  | PInt z => negb (z =? 0)%Z
  | PFloat (FFin m _) => negb (m =? 0)%Z
  | PFloat _ => true
  | PStr s => nonempty s
  | PList l => match l with [] => false | _ => true end
  | PDict kv => match kv with [] => false | _ => true end
  end.

(** [a or b] *)
Definition py_or (a b : pyval) : pyval := if truthy a then a else b.

Definition is_dict (v : pyval) : bool :=
  match v with PDict _ => true | _ => false end.

Inductive exn : Type :=
| ValueError (msg : string)
| TypeError
| AttributeError
| RecursionError
| TransportError (msg : string)
| LibraryError (msg : string).

Inductive result (A : Type) : Type :=
| OK (a : A)
| Raise (e : exn).
Arguments OK {A} a.
Arguments Raise {A} e.

(** The two failures the script raises itself, both as [ValueError]. *)
Definition FormatError (fname : string) : exn :=
  ValueError ("Unsupported file format for " ++ fname)%string.

Definition SchemaInferenceError (line : string) : exn :=
  ValueError ("Could not infer " ++ line ++ " id/label columns")%string.

(* ================================================================= *)
(** ** Conversions between integers and text *)

(** [sys.int_max_str_digits]: the largest number of decimal digits that
    [int(s)] and [str(n)] convert.  The script does not change the
    interpreter's default. *)
Definition int_max_str_digits : nat := 4300.

Definition str_of_nat (n : nat) : string := str_of_int (Z.of_nat n).

(** The text of the [ValueError] of [int(s)] for [digits] digits. *)
Definition int_limit_message (digits : nat) : string :=
  ("Exceeds the limit (" ++ str_of_nat int_max_str_digits ++
   " digits) for integer string conversion: value has " ++
   str_of_nat digits ++
   " digits; use sys.set_int_max_str_digits() to increase the limit")%string.

(** [int(s)] on a string of decimal digits: every digit counts towards the
    limit, leading zeros included. *)
Definition py_int (s : string) : result Z :=
  if String.length s <=? int_max_str_digits then OK (int_of_digits s)
  else Raise (ValueError (int_limit_message (String.length s))).

(** The call [parse_version_from_name(name)]: the major group is converted
    before the minor one, and a [ValueError] of [int] leaves the function. *)
Definition parse_version_from_name_run (name : string)
  : result (option (Z * Z)) :=
  match ver_search name with
  | None => OK None
  | Some (major, minor) =>
      match py_int major with
      | Raise e => Raise e
      | OK maj =>
          match py_int minor with
          | Raise e => Raise e
          | OK minr => OK (Some (maj, minr))
          end
      end
  end.

(** [str(n)] of an integer is within the limit: [n] has at most 4300
    digits.  A list or dict is printed when the integers in it are. *)
Definition int_has_text (z : Z) : bool :=
  String.length (str_of_int (Z.abs z)) <=? int_max_str_digits.

Fixpoint has_text (v : pyval) : bool :=
  match v with
  | PInt z => int_has_text z
  | PList l =>
      (fix all (l : list pyval) : bool :=
         match l with
         | [] => true
         | x :: l' => has_text x && all l'
         end) l
  | PDict kv =>
      (fix all (kv : list (string * pyval)) : bool :=
         match kv with
         | [] => true
         | p :: kv' => has_text (snd p) && all kv'
         end) kv
  | _ => true
  end.

(* ================================================================= *)
(** ** Dictionaries and data frames *)

Section Dict.
Variable V : Type.

(** A [dict] with string keys, in insertion order. *)
Definition dict : Type := list (string * V).

(** [d.get(k)] *)
Fixpoint dict_get (d : dict) (k : string) : option V :=
  match d with
  | [] => None
  | (k', v) :: d' => if String.eqb k' k then Some v else dict_get d' k
  end.

(** [d[k] = v]: an existing key keeps its place and takes the new value,
    a new key goes to the end. *)
Fixpoint dict_set (d : dict) (k : string) (v : V) : dict :=
  match d with
  | [] => [(k, v)]
  | (k', v') :: d' =>
      if String.eqb k' k then (k', v) :: d' else (k', v') :: dict_set d' k v
  end.
End Dict.

(** [k in {...}] for a set of strings. *)
Definition mem (k : string) (set : list string) : bool :=
  existsb (String.eqb k) set.

(** A row as [iterrows] yields it: column label and cell value. *)
Definition Row : Type := dict pyval.

Record DataFrame := { columns : list string; rows : list Row }.

(** [row.get(col)], [node.get(key)]: [None] when the key is missing. *)
Definition row_get (r : Row) (col : string) : pyval :=
  match dict_get r col with
  | Some v => v
  | None => PNone
  end.

(** [pd.DataFrame(records)] for a list of dicts: the columns are the keys in
    the order of their first appearance, a key missing from a record is
    filled with NaN.  The cells hold the values of the records as they are;
    pandas goes on to give every column one type, which changes the values
    of a column of numbers that also holds a gap, [None] or a float (its
    integers become floats, its [None] NaN) and leaves those of the other
    columns, the columns of strings among them. *)
Definition add_keys (cols : list string) (r : Row) : list string :=
  fold_left (fun acc kv => if mem (fst kv) acc then acc else acc ++ [fst kv])
            r cols.

Definition fill_row (cols : list string) (r : Row) : Row :=
  map (fun c => (c, match dict_get r c with
                    | Some v => v
                    | None => PFloat FNaN
                    end)) cols.

Definition frame_of_records (records : list Row) : DataFrame :=
  let cols := fold_left add_keys records [] in
  {| columns := cols; rows := map (fill_row cols) records |}.

(** What the script takes from libraries. *)
Record Runtime := {
  (** [str(v)] for a float, a list or a dict *)
  py_repr : pyval -> string;
  (** [json.loads(text)]; no value when it raises *)
  json_loads : string -> option pyval;
  (** [pd.read_csv(io.StringIO(text), sep=sep, header=header)]; on the
      right the message of the exception it raises *)
  read_csv : string -> ascii -> nat -> DataFrame + string;
  (** [pd.DataFrame(data)] for a list that starts with a dict and holds
      something else as well *)
  frame_of_mixed : list pyval -> DataFrame + string
}.

Definition of_library (A : Type) (r : A + string) : result A :=
  match r with
  | inl a => OK a
  | inr msg => Raise (LibraryError msg)
  end.

(* ================================================================= *)
(** ** Schema normalizers *)

Record FlatCategory := { code : string; flat_label : string }.

Record HierarchicalCategory := {
  cat_id : string;
  label : string;
  path : list string;
  scd : bool
}.

Section Normalizers.
Variable rt : Runtime.

(** [str(v)], for a value with [has_text v]. *)
Definition py_str (v : pyval) : string :=
  match v with
  | PNone => "None"
  | PBool true => "True"
  | PBool false => "False"
  | PInt z => str_of_int z
  | PStr s => s
  | _ => py_repr rt v
  end.

Definition to_bool (val : pyval) : bool :=
  match val with
  | PBool b => b
  | PNone => false
  | _ => mem (lower (strip (py_str val))) ["true"; "1"; "yes"; "y"]
  end.

(** [{c.lower(): c for c in df.columns}] *)
Definition lower_cols (df : DataFrame) : dict string :=
  fold_left (fun d c => dict_set d (lower c) c) (columns df) [].

(** [next((cols[k] for k in cols if k in aliases), None)] *)
Definition first_alias (cols : dict string) (aliases : list string)
  : option string :=
  match find (fun kv : string * string => mem (fst kv) aliases) cols with
  | Some (_, c) => Some c
  | None => None
  end.

(** The truth value of an optional column name. *)
Definition found (col : option string) : bool :=
  match col with
  | Some c => nonempty c
  | None => false
  end.

(** [str(row.get(col) or "").strip()] *)
Definition cell_text (r : Row) (col : string) : string :=
  strip (py_str (py_or (row_get r col) (PStr ""))).

Definition normalize_2x (df : DataFrame) : result (list FlatCategory) :=
  let cols := lower_cols df in
  let id_col :=
    first_alias cols ["code"; "id"; "node id"; "taxonomy id"; "unique id"] in
  let label_col := first_alias cols ["label"; "name"; "node"; "node name"] in
  match id_col, label_col with
  | Some id_c, Some label_c =>
      if found id_col && found label_col then
        OK (fold_left
              (fun out row =>
                 let code := cell_text row id_c in
                 let label := cell_text row label_c in
                 if nonempty code && nonempty label
                 then out ++ [{| code := code; flat_label := label |}]
                 else out)
              (rows df) [])
      else Raise (SchemaInferenceError "2.x")
  | _, _ => Raise (SchemaInferenceError "2.x")
  end.

(** [[cols[c] for c in df.columns.str.lower()
      if c.startswith("tier ") or c.startswith("tier")]].  Every [c] is a
    key of [cols], so the subscript cannot fail. *)
Definition tier_columns (df : DataFrame) (cols : dict string) : list string :=
  flat_map
    (fun c =>
       if startswith c "tier " || startswith c "tier" then
         match dict_get cols c with
         | Some col => [col]
         | None => []
         end
       else [])
    (map lower (columns df)).

(** The characters of the pattern [>|/|\\|,]. *)
Definition is_path_delim (c : ascii) : bool :=
  let n := nat_of_ascii c in
  (n =? 62) || (n =? 47) || (n =? 92) || (n =? 44).

(** [[p.strip() for p in re.split(r">|/|\\|,", raw) if p.strip()]] *)
Definition split_path (raw : string) : list string :=
  map strip
      (filter (fun p => nonempty (strip p))
              (split_on is_path_delim EmptyString raw)).

(** The loop of [row_path] over the tier columns. *)
Definition tier_parts (tier_cols : list string) (r : Row) : list string :=
  fold_left
    (fun parts t =>
       let val := cell_text r t in
       if nonempty val then parts ++ [val] else parts)
    tier_cols [].

Definition row_path (path_col : option string) (tier_cols : list string)
  (r : Row) : list string :=
  let from_tiers := tier_parts tier_cols r in
  match path_col with
  | Some path_c =>
      if found path_col then
        match row_get r path_c with
        | PStr raw =>
            if nonempty (strip raw) then
              match split_path raw with
              | [] => from_tiers
              | parts => parts
              end
            else from_tiers
        | _ => from_tiers
        end
      else from_tiers
  | None => from_tiers
  end.

(** The frame [pd.DataFrame([])], which has neither columns nor rows: its
    column index is a range of numbers, not an index of strings. *)
Definition numbered_columns (df : DataFrame) : bool :=
  match columns df, rows df with
  | [], [] => true
  | _, _ => false
  end.

(** [df.columns.str] in line 130 raises [AttributeError] on the frame
    [pd.DataFrame([])], before the test of the id and label columns. *)
Definition normalize_3x (df : DataFrame) : result (list HierarchicalCategory) :=
  let cols := lower_cols df in
  let id_col := first_alias cols ["id"; "node id"; "taxonomy id"; "unique id"] in
  let label_col := first_alias cols ["label"; "name"; "node"; "node name"] in
  let path_col := first_alias cols ["path"; "full path"; "taxonomy path"] in
  let scd_col := first_alias cols ["scd"; "sensitive"; "is scd"] in
  if numbered_columns df then Raise AttributeError else
  let tier_cols := tier_columns df cols in
  match id_col, label_col with
  | Some id_c, Some label_c =>
      if found id_col && found label_col then
        OK (fold_left
              (fun out row =>
                 let id_ := cell_text row id_c in
                 let label := cell_text row label_c in
                 if nonempty id_ && nonempty label then
                   let path :=
                     match row_path path_col tier_cols row with
                     | [] => [label]
                     | p => p
                     end in
                   let scd :=
                     match scd_col with
                     | Some scd_c =>
                         if found scd_col then to_bool (row_get row scd_c)
                         else false
                     | None => false
                     end in
                   out ++ [{| cat_id := id_; label := label;
                              path := path; scd := scd |}]
                 else out)
              (rows df) [])
      else Raise (SchemaInferenceError "3.x")
  | _, _ => Raise (SchemaInferenceError "3.x")
  end.

End Normalizers.

(* ================================================================= *)
(** ** Format-detecting parser *)

(** The test of the header scan on one line. *)
Definition is_header_line (line : string) : bool :=
  contains "unique id" (lower line) && contains "name" (lower line).

(** [for i, line in enumerate(lines): if ...: header_idx = i; break],
    counting from [i]. *)
Fixpoint scan_header (i : nat) (lines : list string) : option nat :=
  match lines with
  | [] => None
  | line :: lines' =>
      if is_header_line line then Some i else scan_header (S i) lines'
  end.

Definition header_index (text : string) : nat :=
  match scan_header 0 (firstn 10 (splitlines text)) with
  | Some i => i
  | None => 0
  end.

(** [for c in v]: a list gives its elements, a string its characters, a
    dict its keys; the other values are not iterable. *)
Fixpoint chars_of (s : string) : list pyval :=
  match s with
  | EmptyString => []
  | String c s' => PStr (String c EmptyString) :: chars_of s'
  end.

Definition iter_values (v : pyval) : result (list pyval) :=
  match v with
  | PList l => OK l
  | PStr s => OK (chars_of s)
  | PDict kv => OK (map (fun p => PStr (fst p)) kv)
  | _ => Raise TypeError
  end.

(** The body of [for c in children: if isinstance(c, dict): visit(c)],
    with the list [rows] that the visits extend. *)
Fixpoint for_each_dict (visit : Row -> list Row -> result (list Row))
  (children : list pyval) (rows : list Row) : result (list Row) :=
  match children with
  | [] => OK rows
  | PDict node :: children' =>
      match visit node rows with
      | OK rows' => for_each_dict visit children' rows'
      | Raise e => Raise e
      end
  | _ :: children' => for_each_dict visit children' rows
  end.

(** The nested function [walk] of [parse_table].  It appends to the list
    [rows] of the enclosing call; [fuel] bounds the depth of the recursion. *)
Fixpoint walk (fuel : nat) (node : Row) (ancestors : list pyval)
  (rows : list Row) : result (list Row) :=
  match fuel with
  | 0 => Raise RecursionError
  | S fuel' =>
      let nid := py_or (row_get node "id") (row_get node "code") in
      let label := py_or (row_get node "label") (row_get node "name") in
      let scd := py_or (py_or (row_get node "scd") (row_get node "is_scd"))
                       (row_get node "sensitive") in
      let children := py_or (py_or (row_get node "children")
                                   (row_get node "nodes")) (PList []) in
      let rows1 :=
        if truthy nid && truthy label then
          rows ++ [[("id", nid); ("label", label);
                    ("path", PList (ancestors ++ [label])); ("scd", scd)]]
        else rows in
      match iter_values children with
      | Raise e => Raise e
      | OK cs =>
          for_each_dict
            (fun c rs =>
               walk fuel' c
                    (if truthy label then ancestors ++ [label] else ancestors)
                    rs)
            cs rows1
      end
  end.

(** The nesting depth of a value: enough fuel for any walk through it. *)
Fixpoint depth (v : pyval) : nat :=
  match v with
  | PList l => S (fold_right (fun x acc => Nat.max (depth x) acc) 0 l)
  | PDict kv => S (fold_right (fun p acc => Nat.max (depth (snd p)) acc) 0 kv)
  | _ => 0
  end.

(** [isinstance(data, list) and data and isinstance(data[0], dict)] *)
Definition is_flat_list (data : pyval) : bool :=
  match data with
  | PList (PDict _ :: _) => true
  | _ => false
  end.

(** The rows of the hierarchical branch of [parse_table]. *)
Definition walk_data (data : pyval) : result (list Row) :=
  match data with
  | PDict node => walk (depth data) node [] []
  | PList l => for_each_dict (fun n rs => walk (depth data) n [] rs) l []
  | _ => OK []
  end.

Fixpoint all_dicts (l : list pyval) : option (list Row) :=
  match l with
  | [] => Some []
  | PDict r :: l' =>
      match all_dicts l' with
      | Some rs => Some (r :: rs)
      | None => None
      end
  | _ :: _ => None
  end.

Section Parser.
Variable rt : Runtime.

Definition tab : ascii := ascii_of_nat 9.
Definition comma : ascii := ascii_of_nat 44.

(** [pd.DataFrame(data)] on the flat branch. *)
Definition frame_of_list (l : list pyval) : result DataFrame :=
  match all_dicts l with
  | Some records => OK (frame_of_records records)
  | None => of_library (frame_of_mixed rt l)
  end.

Definition parse_table (text fname : string) : result DataFrame :=
  let lower := lower fname in
  let header_idx := header_index text in
  if endswith lower ".tsv" then of_library (read_csv rt text tab header_idx)
  else if endswith lower ".csv" then
    of_library (read_csv rt text comma header_idx)
  else
    match json_loads rt text with
    | None => Raise (FormatError fname)
    | Some data =>
        match data with
        | PList ((PDict _ :: _) as l) => frame_of_list l
        | _ =>
            match walk_data data with
            | OK rows => OK (frame_of_records rows)
            | Raise e => Raise e
            end
        end
    end.
End Parser.

(* ================================================================= *)
(** ** Pipeline driver *)

(** The transport: the directory listing and the download of one file. *)
Record World := {
  list_content_files : result (list FileMeta);
  download_text : string -> result string
}.

Inductive message : Type :=
| Listing
| Missing3x
| Missing2x
| Downloading (line : string) (fname : string)
| Wrote (line : string) (count : nat)
| NormalizeFailed (line : string) (e : exn)
| Done.

(** What a run leaves behind, in order: printed lines and written files. *)
Inductive event : Type :=
| Print (m : message)
| MakeRawDir
| WriteRaw (fname : string) (text : string)
| SaveJson3 (cats : list HierarchicalCategory)
| SaveJson2 (cats : list FlatCategory).

(** Computations that append to the trace and may raise. *)
Definition M (A : Type) : Type := list event -> result A * list event.

Definition ret (A : Type) (a : A) : M A := fun tr => (OK a, tr).

Definition bind (A B : Type) (m : M A) (k : A -> M B) : M B :=
  fun tr =>
    match m tr with
    | (OK a, tr') => k a tr'
    | (Raise e, tr') => (Raise e, tr')
    end.

Definition emit (ev : event) : M unit := fun tr => (OK tt, tr ++ [ev]).

Definition call (A : Type) (r : result A) : M A := fun tr => (r, tr).

(** [try: body except Exception as e: handler(e)] *)
Definition try_except (body : M unit) (handler : exn -> M unit) : M unit :=
  fun tr =>
    match body tr with
    | (OK a, tr') => (OK a, tr')
    | (Raise e, tr') => handler e tr'
    end.

Declare Scope driver_scope.
Delimit Scope driver_scope with driver.
Notation "x <- m ;; k" := (bind m (fun x => k))
  (at level 61, m at next level, right associativity) : driver_scope.
Notation "m ;; k" := (bind m (fun _ => k))
  (at level 61, right associativity) : driver_scope.

Section Driver.
Variable rt : Runtime.
Variable w : World.

Local Open Scope driver_scope.

Definition branch_3x (f3 : FileMeta) : M unit :=
  emit (Print (Downloading "3.x" (name f3))) ;;
  txt3 <- call (download_text w (download_url f3)) ;;
  emit (WriteRaw (name f3) txt3) ;;
  df3 <- call (parse_table rt txt3 (name f3)) ;;
  try_except
    (norm3 <- call (normalize_3x rt df3) ;;
     emit (SaveJson3 norm3) ;;
     emit (Print (Wrote "3.x" (length norm3))))
    (fun e => emit (Print (NormalizeFailed "3.x" e))).

Definition branch_2x (f2 : FileMeta) : M unit :=
  emit (Print (Downloading "2.x" (name f2))) ;;
  txt2 <- call (download_text w (download_url f2)) ;;
  emit (WriteRaw (name f2) txt2) ;;
  df2 <- call (parse_table rt txt2 (name f2)) ;;
  try_except
    (norm2 <- call (normalize_2x rt df2) ;;
     emit (SaveJson2 norm2) ;;
     emit (Print (Wrote "2.x" (length norm2))))
    (fun e => emit (Print (NormalizeFailed "2.x" e))).

Definition main : M Z :=
  emit (Print Listing) ;;
  files <- call (list_content_files w) ;;
  let f3 := pick_latest files 3 in
  let f2 := pick_latest files 2 in
  match f3 with
  | None => emit (Print Missing3x) ;; ret 1%Z
  | Some f3 =>
      match f2 with
      | None => emit (Print Missing2x)
      | Some _ => ret tt
      end ;;
      emit MakeRawDir ;;
      branch_3x f3 ;;
      match f2 with
      | Some f2 => branch_2x f2
      | None => ret tt
      end ;;
      emit (Print Done) ;;
      ret 0%Z
  end.

(** [sys.exit(main())]: the status is what [main] returns, and 1 when an
    exception leaves it. *)
Definition run : Z * list event :=
  match main [] with
  | (OK status, tr) => (status, tr)
  | (Raise _, tr) => (1%Z, tr)
  end.

Definition completion_code : Z := fst run.
Definition trace : list event := snd run.
End Driver.

Definition wrote_3x (tr : list event) : bool :=
  existsb (fun ev => match ev with SaveJson3 _ => true | _ => false end) tr.

Definition wrote_2x (tr : list event) : bool :=
  existsb (fun ev => match ev with SaveJson2 _ => true | _ => false end) tr.

(* ================================================================= *)
(** ** Definitions used to state the properties *)

(** What one file adds to the candidates. *)
Definition candidate_of (major : Z) (f : FileMeta) : list candidate :=
  match parse_version_from_name (name f) with
  | None => []
  | Some (maj, minr) => if (maj =? major)%Z then [((maj, minr), f)] else []
  end.

Definition taxonomy_files : list FileMeta :=
  [ {| name := "Content Taxonomy 3.0.tsv"; download_url := "u30" |};
    {| name := "Content Taxonomy 3.1.tsv"; download_url := "u31" |};
    {| name := "Content Taxonomy 2.2.tsv"; download_url := "u22" |} ].



(** A name whose major number has 4301 digits: 1 followed by 4300 zeros. *)
Fixpoint zeros (n : nat) : string :=
  match n with
  | 0 => EmptyString
  | S n' => String "0" (zeros n')
  end.

Definition long_major : string := String "1" (zeros 4300).

Definition long_version_name : string :=
  ("Content Taxonomy " ++ long_major ++ ".1")%string.

(** A runtime for closed examples: no JSON, no CSV reader. *)
Definition bare_runtime : Runtime :=
  {| py_repr := fun _ => "<object>";
     json_loads := fun _ => None;
     read_csv := fun _ _ _ => inr "no reader";
     frame_of_mixed := fun _ => inr "no frame" |}.

Definition id_aliases_2x : list string :=
  ["code"; "id"; "node id"; "taxonomy id"; "unique id"].
Definition id_aliases_3x : list string :=
  ["id"; "node id"; "taxonomy id"; "unique id"].
Definition label_aliases : list string := ["label"; "name"; "node"; "node name"].
Definition path_aliases : list string := ["path"; "full path"; "taxonomy path"].
Definition scd_aliases : list string := ["scd"; "sensitive"; "is scd"].
Definition truths : list string := ["true"; "1"; "yes"; "y"].

(** The first header whose lower-cased form is an alias. *)
Definition first_header (aliases : list string) (cols : list string)
  : option string :=
  find (fun c => mem (lower c) aliases) cols.

(** The header the alias lookup settles on: the last header that has the
    lower-cased form of the first header whose lower-cased form is an
    alias. *)
Definition select_column (aliases : list string) (cols : list string)
  : option string :=
  match first_header aliases cols with
  | None => None
  | Some c0 => find (fun c => String.eqb (lower c) (lower c0)) (rev cols)
  end.

(** The first key of a dictionary that satisfies [p]. *)
Definition first_key (V : Type) (p : string -> bool) (d : dict V)
  : option string :=
  match find (fun kv => p (fst kv)) d with
  | Some (k, _) => Some k
  | None => None
  end.

(** One step of the dict comprehension of the normalizers. *)
Definition cols_step (d : dict string) (c : string) : dict string :=
  dict_set d (lower c) c.

Section NormalizerSpec.
Variable rt : Runtime.

(** What one row contributes to the flat catalog. *)
Definition emit_2x (id_c label_c : string) (r : Row) : list FlatCategory :=
  let code := cell_text rt r id_c in
  let label := cell_text rt r label_c in
  if nonempty code && nonempty label
  then [{| code := code; flat_label := label |}]
  else [].

(** The flat normalizer with the id and label columns chosen as the first
    header whose lower-cased form is an alias. *)
Definition normalize_2x_first_header (df : DataFrame)
  : result (list FlatCategory) :=
  match first_header id_aliases_2x (columns df),
        first_header label_aliases (columns df) with
  | Some id_c, Some label_c => OK (flat_map (emit_2x id_c label_c) (rows df))
  | _, _ => Raise (SchemaInferenceError "2.x")
  end.

(** The flat normalizer as the claim words it: the columns are the first
    headers whose lower-cased form is an alias, and a row is emitted when
    the trimmed texts of its two values are not empty. *)
Definition normalize_2x_stated (df : DataFrame) : result (list FlatCategory) :=
  match first_header id_aliases_2x (columns df),
        first_header label_aliases (columns df) with
  | Some id_c, Some label_c =>
      OK (flat_map
            (fun r =>
               let code := strip (py_str rt (row_get r id_c)) in
               let label := strip (py_str rt (row_get r label_c)) in
               if nonempty code && nonempty label
               then [{| code := code; flat_label := label |}]
               else [])
            (rows df))
  | _, _ => Raise (SchemaInferenceError "2.x")
  end.

(** The rows the hierarchical normalizer keeps. *)
Definition kept_3x (id_c label_c : string) (r : Row) : bool :=
  nonempty (cell_text rt r id_c) && nonempty (cell_text rt r label_c).

(** The segments of a path-column value: those of a string, none of any
    other value. *)
Definition path_segments (v : pyval) : list string :=
  match v with
  | PStr raw => split_path raw
  | _ => []
  end.

(** The non-empty trimmed values of the tier columns, in their order. *)
Definition tier_values (tier_cols : list string) (r : Row) : list string :=
  filter nonempty (map (cell_text rt r) tier_cols).

(** The tier values as the claim words them: the trimmed texts of the
    values of the tier columns, the empty ones dropped. *)
Definition tier_values_stated (tier_cols : list string) (r : Row)
  : list string :=
  filter nonempty (map (fun t => strip (py_str rt (row_get r t))) tier_cols).

(** The derivation of a path in the order path column, tier columns,
    label. *)
Definition derive_path (path_col : option string) (tier_cols : list string)
  (label : string) (r : Row) : list string :=
  let from_path :=
    match path_col with
    | Some path_c => path_segments (row_get r path_c)
    | None => []
    end in
  match from_path with
  | _ :: _ => from_path
  | [] =>
      match tier_values tier_cols r with
      | [] => [label]
      | tiers => tiers
      end
  end.

(** The coercion of a raw scd value: its text, trimmed and lower-cased,
    is one of the accepted spellings of true. *)
Definition scd_of_raw (v : pyval) : bool :=
  mem (lower (strip (py_str rt v))) truths.

Definition derive_scd (scd_col : option string) (r : Row) : bool :=
  match scd_col with
  | Some scd_c => scd_of_raw (row_get r scd_c)
  | None => false
  end.

Definition emit_3x (id_c label_c : string) (path_col : option string)
  (tier_cols : list string) (scd_col : option string) (r : Row)
  : list HierarchicalCategory :=
  if kept_3x id_c label_c r then
    let label := cell_text rt r label_c in
    [{| cat_id := cell_text rt r id_c;
        label := label;
        path := derive_path path_col tier_cols label r;
        scd := derive_scd scd_col r |}]
  else [].
End NormalizerSpec.

(** Every cell of the table has a text: [str] prints it. *)
Definition printable (df : DataFrame) : bool :=
  forallb (fun r : Row => forallb (fun kv => has_text (snd kv)) r) (rows df).

(** The headers whose lower-cased form starts with "tier", in column
    order. *)
Definition tier_headers (cols : list string) : list string :=
  filter (fun c => startswith (lower c) "tier") cols.

(** The header a header is read as through the dictionary of lower-cased
    headers: the last header that has its lower-cased form. *)
Definition resolve_header (cols : list string) (c : string) : string :=
  match find (fun c' => String.eqb (lower c') (lower c)) (rev cols) with
  | Some c' => c'
  | None => c
  end.

Definition frame (cols : list string) (cells : list (list pyval)) : DataFrame :=
  {| columns := cols; rows := map (combine cols) cells |}.

(** The table of the flat example. *)
Definition arts_frame : DataFrame :=
  frame ["Code"; "Label"]
        [[PStr "1-1"; PStr "Arts"]; [PStr ""; PStr "X"]].

(** A table with two headers that differ in case only. *)
Definition twin_frame : DataFrame :=
  frame ["code"; "CODE"; "label"] [[PStr "A"; PStr ""; PStr "L"]].

(** The tables of the path examples. *)
Definition paths_frame : DataFrame :=
  frame ["ID"; "Name"; "Path"; "Tier 1"; "Tier 2"; "SCD"]
        [[PStr "1"; PStr "AI"; PStr "Tech > Computing > AI";
          PStr "x"; PStr "y"; PStr "TRUE"];
         [PStr "2"; PStr "Computing"; PStr "";
          PStr "Tech"; PStr "Computing"; PStr "no"];
         [PStr "3"; PStr "Misc"; PStr ""; PStr ""; PStr " "; PNone];
         [PStr ""; PStr "Dropped"; PStr "a/b"; PStr ""; PStr ""; PStr "1"]].


(** What the hierarchical normalizer makes of [paths_frame]. *)
Definition paths_catalog : list HierarchicalCategory :=
  [ {| cat_id := "1"; label := "AI";
       path := ["Tech"; "Computing"; "AI"]; scd := true |};
    {| cat_id := "2"; label := "Computing";
       path := ["Tech"; "Computing"]; scd := false |};
    {| cat_id := "3"; label := "Misc"; path := ["Misc"]; scd := false |} ].

(** A table with two tier headers that differ in case only. *)
Definition twin_tiers_frame : DataFrame :=
  frame ["ID"; "Name"; "Tier 1"; "TIER 1"]
        [[PStr "1"; PStr "N"; PStr "A"; PStr "B"]].

(** A table whose row has the integer 0 in its first tier column. *)
Definition zero_tier_frame : DataFrame :=
  frame ["ID"; "Name"; "Tier 1"; "Tier 2"]
        [[PStr "7"; PStr "N"; PInt 0; PStr "B"]].

(** The table of the flag examples; the last row has no flag. *)
Definition scd_frame : DataFrame :=
  frame ["ID"; "Name"; "SCD"]
        [[PStr "1"; PStr "a"; PStr "TRUE"];
         [PStr "2"; PStr "b"; PStr "1"];
         [PStr "3"; PStr "c"; PStr "Yes"];
         [PStr "4"; PStr "d"; PStr "y"];
         [PStr "5"; PStr "e"; PStr ""];
         [PStr "6"; PStr "f"; PStr "no"];
         [PStr "7"; PStr "g"; PStr "0"];
         [PStr "8"; PStr "h"; PNone]].

Definition flagged (id_ lbl : string) (flag : bool) : HierarchicalCategory :=
  {| cat_id := id_; label := lbl; path := [lbl]; scd := flag |}.

(** What the hierarchical normalizer makes of [scd_frame]. *)
Definition scd_catalog : list HierarchicalCategory :=
  [flagged "1" "a" true; flagged "2" "b" true; flagged "3" "c" true;
   flagged "4" "d" true; flagged "5" "e" false; flagged "6" "f" false;
   flagged "7" "g" false; flagged "8" "h" false].

(* ----------------------------------------------------------------- *)
(** *** Tree flattening *)

(** The value under the first alias whose value is true in Python's sense
    ([truthy]): neither missing nor [None], [False], a zero or empty. *)
Fixpoint first_present (node : Row) (aliases : list string) : option pyval :=
  match aliases with
  | [] => None
  | a :: rest =>
      if truthy (row_get node a) then Some (row_get node a)
      else first_present node rest
  end.

(** The sensitivity flag of a node: the first true value under its
    aliases, and the value under the last alias when none is true. *)
Definition node_flag (node : Row) : pyval :=
  match first_present node ["scd"; "is_scd"; "sensitive"] with
  | Some v => v
  | None => row_get node "sensitive"
  end.

(** The children of a node: the elements of the first true value under
    its aliases, none when no value is true. *)
Definition node_children (node : Row) : result (list pyval) :=
  match first_present node ["children"; "nodes"] with
  | Some v => iter_values v
  | None => OK []
  end.

Definition mk_row (nid lbl : pyval) (ancestors : list pyval) (flag : pyval)
  : Row :=
  [("id", nid); ("label", lbl); ("path", PList (ancestors ++ [lbl]));
   ("scd", flag)].

(** The row a node contributes itself: one when both its id and its label
    are true values, none otherwise. *)
Definition own_rows (ancestors : list pyval) (node : Row) : list Row :=
  match first_present node ["id"; "code"],
        first_present node ["label"; "name"] with
  | Some nid, Some lbl => [mk_row nid lbl ancestors (node_flag node)]
  | _, _ => []
  end.

(** The ancestors handed to the children: extended by the label exactly
    when the label is a true value. *)
Definition child_ancestors (ancestors : list pyval) (node : Row) : list pyval :=
  match first_present node ["label"; "name"] with
  | Some lbl => ancestors ++ [lbl]
  | None => ancestors
  end.

(** [Flattens ancestors nodes rows]: visiting [nodes] in order below
    [ancestors], depth first, yields [rows].  A node gives its own row, then
    the rows of its children, then come the rows of its later siblings;
    values that are no dicts are passed over. *)
Inductive Flattens : list pyval -> list pyval -> list Row -> Prop :=
| Flattens_nil (anc : list pyval) : Flattens anc [] []
| Flattens_other (anc : list pyval) (c : pyval) (cs : list pyval)
    (out : list Row) :
    is_dict c = false -> Flattens anc cs out -> Flattens anc (c :: cs) out
| Flattens_node (anc : list pyval) (node : Row) (cs kids : list pyval)
    (sub out : list Row) :
    node_children node = OK kids ->
    Flattens (child_ancestors anc node) kids sub ->
    Flattens anc cs out ->
    Flattens anc (PDict node :: cs) (own_rows anc node ++ sub ++ out).

(** The root nodes of a parsed document. *)
Definition roots (data : pyval) : list pyval :=
  match data with
  | PDict _ => [data]
  | PList l => l
  | _ => []
  end.

(** The largest depth of the values of a dict. *)
Definition values_depth (kv : Row) : nat :=
  fold_right (fun p acc => Nat.max (depth (snd p)) acc) 0 kv.

(** The tree of the flattening example, and variants of it whose root has
    no id, no label, and a number for children. *)
Definition child_node : pyval :=
  PDict [("id", PStr "1.1"); ("label", PStr "Child")].

Definition root_node : pyval :=
  PDict [("id", PStr "1"); ("label", PStr "Root");
         ("children", PList [child_node])].



Definition root_with_number : pyval :=
  PDict [("id", PStr "1"); ("label", PStr "Root"); ("children", PInt 5)].





(** A runtime whose [json.loads] returns [data] for every text. *)
Definition runtime_loading (data : pyval) : Runtime :=
  {| py_repr := fun _ => "<object>";
     json_loads := fun _ => Some data;
     read_csv := fun _ _ _ => inr "no reader";
     frame_of_mixed := fun _ => inr "no frame" |}.

(** The name ends in one of the two tabular extensions, in any letter
    case. *)
Definition is_tabular (fname : string) : bool :=
  endswith (lower fname) ".tsv" || endswith (lower fname) ".csv".

(** A row of the shape the walk emits. *)
Definition walk_shaped (r : Row) : Prop :=
  exists nid lbl anc flag, r = mk_row nid lbl anc flag.

Definition walk_columns : list string := ["id"; "label"; "path"; "scd"].

(** The composition of the parser and the hierarchical normalizer, as the
    driver runs them on the 3.x file. *)
Definition parse_and_normalize_3x (rt : Runtime) (text fname : string)
  : result (list HierarchicalCategory) :=
  match parse_table rt text fname with
  | OK df => normalize_3x rt df
  | Raise e => Raise e
  end.

(* ----------------------------------------------------------------- *)
(** *** Delimited text *)

(** The delimiter the extension of a name selects. *)
Definition tabular_sep (fname : string) : option ascii :=
  if endswith (lower fname) ".tsv" then Some tab
  else if endswith (lower fname) ".csv" then Some comma
  else None.

Definition line_feed : string := String (ascii_of_nat 10) EmptyString.
Definition tab_char : string := String tab EmptyString.

(** A tab-separated text with two lines of preamble before the header. *)
Definition preamble_text : string :=
  ("IAB Tech Lab" ++ line_feed ++
   "Content Taxonomy 3.1" ++ tab_char ++ "released" ++ line_feed ++
   "Unique ID" ++ tab_char ++ " Name " ++ line_feed ++
   "1" ++ tab_char ++ "Automotive" ++ line_feed)%string.

(** The header tokens as the claim words them: the fields of the line at
    the header index, trimmed. *)
Definition header_tokens_stated (sep : ascii) (text : string) : list string :=
  match nth_error (splitlines text) (header_index text) with
  | Some line => map strip (split_on (Ascii.eqb sep) EmptyString line)
  | None => []
  end.

(** The table [pandas.read_csv] returns for [preamble_text] with the tab
    as delimiter and 2 as header row: the header tokens are the column
    labels as they stand in the line, white space included, and the cell 1
    is a number. *)
Definition preamble_table : DataFrame :=
  {| columns := ["Unique ID"; " Name "];
     rows := [[("Unique ID", PInt 1); (" Name ", PStr "Automotive")]] |}.

(** A runtime that reads [preamble_text] as [pandas.read_csv] does. *)
Definition preamble_runtime : Runtime :=
  {| py_repr := fun _ => "<object>";
     json_loads := fun _ => None;
     read_csv := fun text sep header =>
                   if String.eqb text preamble_text && Ascii.eqb sep tab &&
                      (header =? 2)
                   then inl preamble_table
                   else inr "another text";
     frame_of_mixed := fun _ => inr "no frame" |}.

(* ----------------------------------------------------------------- *)
(** *** Runs of the driver *)

Definition started_2x (tr : list event) : bool :=
  existsb (fun ev => match ev with
                     | Print (Downloading "2.x" _) => true
                     | _ => false
                     end) tr.

Definition file_3x : FileMeta :=
  {| name := "Content Taxonomy 3.1.json"; download_url := "url-3.1" |}.
Definition file_2x : FileMeta :=
  {| name := "Content Taxonomy 2.2.json"; download_url := "url-2.2" |}.

(** A flat JSON document of one record. *)
Definition flat_doc : pyval :=
  PList [PDict [("id", PStr "1"); ("code", PStr "1"); ("label", PStr "Arts")]].

(** A runtime whose [json.loads] accepts the text "[...]" only. *)
Definition json_runtime : Runtime :=
  {| py_repr := fun _ => "<object>";
     json_loads := fun text =>
                     if String.eqb text "[...]" then Some flat_doc else None;
     read_csv := fun _ _ _ => inr "no reader";
     frame_of_mixed := fun _ => inr "no frame" |}.


(** Both files are listed and download; the text of the 3.x file is
    neither tabular nor JSON. *)
Definition world_3x_garbled : World :=
  {| list_content_files := OK [file_3x; file_2x];
     download_text := fun url =>
                        if String.eqb url "url-3.1" then OK "<html>"
                        else OK "[...]" |}.



(** The trace before the 3.x branch starts. *)
Definition preamble (f2 : option FileMeta) : list event :=
  match f2 with
  | None => [Print Listing; Print Missing2x; MakeRawDir]
  | Some _ => [Print Listing; MakeRawDir]
  end.


(* ----------------------------------------------------------------- *)
(** *** Texts of integers *)

(** The characters of the text of an integer. *)
Definition is_int_char (c : ascii) : bool := is_digit c || Ascii.eqb c "-".

(* ----------------------------------------------------------------- *)
(** *** Cells of tables *)

(** A runtime in which the text of the float not-a-number is "nan", as
    [str] gives it. *)
Definition nan_runtime : Runtime :=
  {| py_repr := fun v => match v with
                         | PFloat FNaN => "nan"
                         | _ => "<object>"
                         end;
     json_loads := fun _ => None;
     read_csv := fun _ _ _ => inr "no reader";
     frame_of_mixed := fun _ => inr "no frame" |}.

(** A table whose second row has the integer 0 as code. *)
Definition zero_code_frame : DataFrame :=
  frame ["Code"; "Label"]
        [[PStr "1-1"; PStr "Arts"]; [PInt 0; PStr "Zero"];
         [PStr "1-2"; PStr "Cars"]].

(** A table read from delimited text with empty cells: the reader leaves
    not-a-number in them. *)
Definition gaps_frame : DataFrame :=
  frame ["Unique ID"; "Name"; "Tier 1"; "Tier 2"]
        [[PStr "1"; PStr "Automotive"; PStr "Automotive"; PFloat FNaN];
         [PFloat FNaN; PStr "Auto Body Styles"; PStr "Automotive";
          PStr "Auto Body Styles"]].

(** A text is trimmed, not empty and free of path delimiters. *)
Definition is_segment (seg : string) : Prop :=
  seg <> EmptyString /\ strip seg = seg /\
  all_chars (fun c => negb (is_path_delim c)) seg = true.

(* ----------------------------------------------------------------- *)
(** *** Further runs of the driver *)


(* ================================================================= *)
(** ** Sample data fetcher: [scripts/fetch_official_taxonomies.py] *)

Definition newline : ascii := ascii_of_nat 10.

(** [s.split(sep)] for a separator of one character: the pieces between
    the separators, empty pieces included; never an empty list. *)
Definition split_char (sep : ascii) (s : string) : list string :=
  split_on (Ascii.eqb sep) EmptyString s.

(** [dict(pairs)]: a key that comes again keeps its place and takes the
    later value. *)
Definition set_pair (V : Type) (d : dict V) (kv : string * V) : dict V :=
  dict_set d (fst kv) (snd kv).

Definition dict_of_pairs (V : Type) (pairs : list (string * V)) : dict V :=
  fold_left (@set_pair V) pairs [].

Section Fetcher.
(** [requests.get(url, timeout=30)] followed by [raise_for_status()] and
    [.text]: the text of the response, or the exception raised. *)
Variable get_text : string -> result string.

(** [fetch_tsv_data(url)].  Every exception is caught and logged, and the
    empty list is returned for it. *)
Definition fetch_tsv_data (url : string) : list (dict string) :=
  match get_text url with
  | Raise _ => []
  | OK text =>
      let lines := split_char newline (strip text) in
      match lines with
      | [] => []
      | first :: rest =>
          let headers := map strip (split_char tab first) in
          fold_left
            (fun data line =>
               if nonempty (strip line) then
                 let values := map strip (split_char tab line) in
                 if length headers <=? length values
                 then data ++ [dict_of_pairs (combine headers values)]
                 else data
               else data)
            rest []
      end
  end.
End Fetcher.

(** A cell of tab-separated text: trimmed, without tab and line feed. *)
Definition is_cell (c : string) : Prop :=
  strip c = c /\
  all_chars (fun x => negb (Ascii.eqb tab x)) c = true /\
  all_chars (fun x => negb (Ascii.eqb newline x)) c = true.

(** The cells of a line of which the first and the last are not empty. *)
Definition is_line (cells : list string) : Prop :=
  Forall is_cell cells /\
  hd EmptyString cells <> EmptyString /\
  last cells EmptyString <> EmptyString.

(** The tab-separated text of a header line and data lines. *)
Definition render_tsv (headers : list string) (records : list (list string))
  : string :=
  String.concat (String newline EmptyString)
    (map (String.concat (String tab EmptyString)) (headers :: records)).

(** The text with a carriage return put before every line feed. *)
Definition carriage_return : ascii := ascii_of_nat 13.

Fixpoint crlf (s : string) : string :=
  match s with
  | EmptyString => EmptyString
  | String c s' =>
      if Ascii.eqb newline c
      then String carriage_return (String c (crlf s'))
      else String c (crlf s')
  end.

(** The lines with a carriage return at the end of each but the last. *)
Fixpoint add_cr (lines : list string) : list string :=
  match lines with
  | [] => []
  | l :: rest =>
      match rest with
      | [] => [l]
      | _ => (l ++ String carriage_return EmptyString)%string :: add_cr rest
      end
  end.

(** A transport that answers every request with [text]. *)
Definition serving (text : string) : string -> result string :=
  fun _ => OK text.

(* ----------------------------------------------------------------- *)
(** *** Saved catalogs *)

(** The objects the normalizers hand to [save_json]: the list of dicts
    [{"code": ..., "label": ...}] of the flat catalog and the list of dicts
    [{"id": ..., "label": ..., "path": [...], "scd": ...}] of the
    hierarchical one. *)
Definition flat_record (c : FlatCategory) : Row :=
  [("code", PStr (code c)); ("label", PStr (flat_label c))].

Definition flat_catalog_value (cats : list FlatCategory) : pyval :=
  PList (map (fun c => PDict (flat_record c)) cats).

Definition category_record (h : HierarchicalCategory) : Row :=
  [("id", PStr (cat_id h)); ("label", PStr (label h));
   ("path", PList (map PStr (path h))); ("scd", PBool (scd h))].

Definition catalog_value (cats : list HierarchicalCategory) : pyval :=
  PList (map (fun h => PDict (category_record h)) cats).

(** The composition of the parser and the flat normalizer, as the driver
    runs them on the 2.x file. *)
Definition parse_and_normalize_2x (rt : Runtime) (text fname : string)
  : result (list FlatCategory) :=
  match parse_table rt text fname with
  | OK df => normalize_2x rt df
  | Raise e => Raise e
  end.

(** A category with its path replaced by its label. *)
Definition collapse (h : HierarchicalCategory) : HierarchicalCategory :=
  {| cat_id := cat_id h; label := label h; path := [label h]; scd := scd h |}.

(* ----------------------------------------------------------------- *)
(** *** Documents the walk gets through *)

(** [Walkable nodes]: the children value of every dict among [nodes], of
    every dict among their children, and so on, can be iterated. *)
Inductive Walkable : list pyval -> Prop :=
| Walkable_nil : Walkable []
| Walkable_other (c : pyval) (cs : list pyval) :
    is_dict c = false -> Walkable cs -> Walkable (c :: cs)
| Walkable_node (node : Row) (cs kids : list pyval) :
    node_children node = OK kids -> Walkable kids -> Walkable cs ->
    Walkable (PDict node :: cs).

(** A value that [for] cannot iterate: a number or a boolean. *)
Definition is_scalar (v : pyval) : bool :=
  match v with
  | PBool _ | PInt _ | PFloat _ => true
  | _ => false
  end.

(* ================================================================= *)
(** * Properties *)

(** ** Strings *)

Lemma append_nil_r (s : string) : (s ++ "")%string = s.
Proof. induction s as [|c s IH]; simpl; congruence. Qed.

Lemma append_assoc (a b c : string) :
  ((a ++ b) ++ c)%string = (a ++ b ++ c)%string.
Proof. induction a as [|x a IH]; simpl; congruence. Qed.

Ltac each_ascii x :=
  destruct x as [[] [] [] [] [] [] [] []]; vm_compute; try discriminate;
  intros; repeat split; try discriminate; auto.

Lemma space_not_digit (x : ascii) : is_space x = true -> is_digit x = false.
Proof. each_ascii x. Qed.

(** A character that lower-cases to a letter is no space, no digit and no
    dot. *)
Lemma letter_class (x : ascii) :
  is_lower_letter (lower_char x) = true ->
  is_space x = false /\ is_digit x = false /\ x <> "."%char.
Proof. each_ascii x. Qed.

Lemma lit_ci_app (lit c r : string) :
  lower c = lit -> lit_ci lit (c ++ r) = Some r.
Proof.
  revert lit; induction c as [|x c IH]; intros lit H; subst lit; simpl.
  - reflexivity.
  - rewrite Ascii.eqb_refl. now apply IH.
Qed.

Lemma lit_ci_inv (lit s s1 : string) :
  lit_ci lit s = Some s1 ->
  exists c, s = (c ++ s1)%string /\ lower c = lit.
Proof.
  revert s; induction lit as [|a lit IH]; intros s H; simpl in H.
  - exists EmptyString. simpl. split; [congruence | reflexivity].
  - destruct s as [|x s]; [discriminate|].
    destruct (Ascii.eqb (lower_char x) a) eqn:E; [|discriminate].
    apply Ascii.eqb_eq in E. destruct (IH _ H) as (c & -> & Hc).
    exists (String x c). simpl. now rewrite E, Hc.
Qed.

Lemma skip_space_app (ws r : string) :
  all_chars is_space ws = true -> skip_space (ws ++ r) = skip_space r.
Proof.
  induction ws as [|x ws IH]; simpl; intros H; [reflexivity|].
  apply andb_prop in H as [Hx Hws]. rewrite Hx. auto.
Qed.

Lemma skip_space_inv (s : string) :
  exists ws, s = (ws ++ skip_space s)%string /\ all_chars is_space ws = true.
Proof.
  induction s as [|x s (ws & E & Hws)]; simpl.
  - exists EmptyString; auto.
  - destruct (is_space x) eqn:Hx.
    + exists (String x ws). simpl. rewrite Hx, Hws, <- E. split; reflexivity.
    + exists EmptyString; auto.
Qed.

Lemma skip_space_stop (s : string) :
  starts_with is_space s = false -> skip_space s = s.
Proof. destruct s as [|x s]; simpl; [reflexivity|]. now intros ->. Qed.

Lemma span_digits_app (d r : string) :
  all_chars is_digit d = true -> starts_with is_digit r = false ->
  span_digits (d ++ r) = (d, r).
Proof.
  intros Hd Hr. induction d as [|x d IH]; simpl in *.
  - destruct r as [|y r]; simpl in *; [reflexivity|]. now rewrite Hr.
  - apply andb_prop in Hd as [Hx Hd]. rewrite Hx, (IH Hd). reflexivity.
Qed.

Lemma span_digits_inv (s d r : string) :
  span_digits s = (d, r) ->
  s = (d ++ r)%string /\ all_chars is_digit d = true /\
  starts_with is_digit r = false.
Proof.
  revert d r; induction s as [|x s IH]; simpl; intros d r H.
  - inversion H; subst; auto.
  - destruct (is_digit x) eqn:Hx.
    + destruct (span_digits s) as [d' r'] eqn:E. inversion H; subst.
      destruct (IH _ _ eq_refl) as (-> & Hd & Hr). simpl. rewrite Hx. auto.
    + inversion H; subst. simpl. auto.
Qed.

Lemma digits1_app (d r : string) :
  all_chars is_digit d = true -> d <> EmptyString ->
  starts_with is_digit r = false ->
  digits1 (d ++ r) = Some (d, r).
Proof.
  intros Hd Hne Hr. unfold digits1. rewrite (span_digits_app _ _ Hd Hr).
  destruct d; [congruence | reflexivity].
Qed.

Lemma digits1_inv (s d r : string) :
  digits1 s = Some (d, r) ->
  s = (d ++ r)%string /\ all_chars is_digit d = true /\ d <> EmptyString /\
  starts_with is_digit r = false.
Proof.
  unfold digits1. destruct (span_digits s) as [d' r'] eqn:E.
  destruct d' as [|x d']; [discriminate|]. intros H; inversion H; subst.
  destruct (span_digits_inv _ E) as (? & ? & ?). repeat split; auto. discriminate.
Qed.

(** ** Version extractor *)

Lemma ver_search_eq (s : string) :
  ver_search s =
  match ver_match_here s with
  | Some g => Some g
  | None =>
      match s with
      | EmptyString => None
      | String _ s' => ver_search s'
      end
  end.
Proof. destruct s; reflexivity. Qed.

Lemma lower_starts (lit t r : string) (a : ascii) :
  lower t = String a lit -> is_lower_letter a = true ->
  starts_with is_space (t ++ r) = false.
Proof.
  destruct t as [|x t]; simpl; [discriminate|]. intros H Ha.
  inversion H; subst. now destruct (letter_class x Ha).
Qed.

Lemma digits_start (d r : string) :
  all_chars is_digit d = true -> d <> EmptyString ->
  starts_with is_space (d ++ r) = false.
Proof.
  destruct d as [|x d]; simpl; [congruence|]. intros H _.
  apply andb_prop in H as [Hx _]. destruct (is_space x) eqn:E; [|reflexivity].
  apply space_not_digit in E. congruence.
Qed.

(** The match at the start of a name that begins with the phrase and a
    version. *)
Lemma ver_match_here_app (c ws1 t ws2 major minor post : string) :
  lower c = "content" -> all_chars is_space ws1 = true ->
  lower t = "taxonomy" -> all_chars is_space ws2 = true ->
  all_chars is_digit major = true -> major <> EmptyString ->
  all_chars is_digit minor = true -> minor <> EmptyString ->
  starts_with is_digit post = false ->
  ver_match_here (c ++ ws1 ++ t ++ ws2 ++ major ++ "." ++ minor ++ post)
  = Some (major, minor).
Proof.
  intros Hc Hw1 Ht Hw2 HM HMne HN HNne Hpost. unfold ver_match_here.
  rewrite (lit_ci_app _ _ Hc), (skip_space_app _ _ Hw1).
  rewrite skip_space_stop by (eapply lower_starts; [exact Ht | reflexivity]).
  rewrite (lit_ci_app _ _ Ht), (skip_space_app _ _ Hw2).
  rewrite skip_space_stop by (now apply digits_start).
  rewrite digits1_app by (auto; reflexivity). simpl.
  rewrite digits1_app by auto. reflexivity.
Qed.

Section Crossing.
(** A match that starts in [p] cannot run into a following text that
    begins with a letter [x] the rest of the pattern does not accept. *)
Variables (x : ascii) (b : string).

Lemma lit_ci_cross (lit p s1 : string) :
  all_chars (fun a => negb (Ascii.eqb (lower_char x) a)) lit = true ->
  lit_ci lit (p ++ String x b) = Some s1 ->
  exists p1, lit_ci lit p = Some p1 /\ s1 = (p1 ++ String x b)%string.
Proof.
  revert p; induction lit as [|a lit IH]; intros p Hlit H; simpl in *.
  - exists p. split; congruence.
  - apply andb_prop in Hlit as [Ha Hlit].
    destruct p as [|y p]; simpl in *.
    + destruct (Ascii.eqb (lower_char x) a); discriminate.
    + destruct (Ascii.eqb (lower_char y) a); [auto | discriminate].
Qed.

Lemma skip_space_cross (p : string) :
  is_space x = false ->
  skip_space (p ++ String x b) = (skip_space p ++ String x b)%string.
Proof.
  intros Hx. induction p as [|y p IH]; simpl.
  - now rewrite Hx.
  - destruct (is_space y); auto.
Qed.

Lemma span_digits_cross (p : string) :
  is_digit x = false ->
  span_digits (p ++ String x b) =
  (fst (span_digits p), (snd (span_digits p) ++ String x b)%string).
Proof.
  intros Hx. induction p as [|y p IH]; simpl.
  - now rewrite Hx.
  - destruct (is_digit y); [|reflexivity].
    rewrite IH. destruct (span_digits p); reflexivity.
Qed.

Lemma digits1_cross (p d r' : string) :
  is_digit x = false ->
  digits1 (p ++ String x b) = Some (d, r') ->
  exists r, digits1 p = Some (d, r) /\ r' = (r ++ String x b)%string.
Proof.
  intros Hx. unfold digits1. rewrite (span_digits_cross _ Hx).
  destruct (span_digits p) as [d0 r0]; simpl.
  destruct d0; [discriminate|]. intros H; inversion H; subst. eauto.
Qed.

Lemma lit_ci_cross1 (a : ascii) (lit p s1 : string) :
  p <> EmptyString ->
  all_chars (fun a => negb (Ascii.eqb (lower_char x) a)) lit = true ->
  lit_ci (String a lit) (p ++ String x b) = Some s1 ->
  exists p1, lit_ci (String a lit) p = Some p1 /\
             s1 = (p1 ++ String x b)%string.
Proof.
  destruct p as [|y p]; [congruence|]. intros _ Hlit. simpl.
  destruct (Ascii.eqb (lower_char y) a); [|discriminate].
  now apply lit_ci_cross.
Qed.

Lemma dot_cross (r s4 : string) :
  x <> "."%char ->
  (r ++ String x b)%string = String "."%char s4 ->
  exists r4, r = String "."%char r4 /\ s4 = (r4 ++ String x b)%string.
Proof.
  intros Hx. destruct r as [|z r]; simpl; intros H; inversion H; subst.
  - congruence.
  - eauto.
Qed.

Lemma ver_match_here_cross (p : string) (g : string * string) :
  lower_char x = "c"%char -> p <> EmptyString ->
  ver_match_here (p ++ String x b) = Some g -> ver_match_here p = Some g.
Proof.
  intros Hx Hp H. assert (Hl : is_lower_letter (lower_char x) = true)
    by (rewrite Hx; reflexivity).
  destruct (letter_class x Hl) as (Hsp & Hdg & Hdot).
  unfold ver_match_here in *.
  destruct (lit_ci "content" (p ++ String x b)) as [s1|] eqn:E1;
    [|discriminate].
  apply lit_ci_cross1 in E1 as (p1 & E1 & ->);
    [|assumption|rewrite Hx; reflexivity].
  rewrite E1. rewrite (skip_space_cross _ Hsp) in H.
  destruct (lit_ci "taxonomy" (skip_space p1 ++ String x b)) as [s2|] eqn:E2;
    [|discriminate].
  apply lit_ci_cross in E2 as (p2 & E2 & ->); [|rewrite Hx; reflexivity].
  rewrite E2. rewrite (skip_space_cross _ Hsp) in H.
  destruct (digits1 (skip_space p2 ++ String x b)) as [[major s3]|] eqn:E3;
    [|discriminate].
  apply (digits1_cross _ Hdg) in E3 as (r3 & E3 & ->). rewrite E3.
  destruct (r3 ++ String x b)%string as [|z s4] eqn:E; [discriminate|].
  destruct (Ascii.eqb z ".") eqn:Ez.
  - apply Ascii.eqb_eq in Ez; subst z.
    apply (dot_cross _ Hdot) in E as (r4 & -> & ->).
    destruct (digits1 (r4 ++ String x b)) as [[minor s5]|] eqn:E4;
      [|discriminate].
    apply (digits1_cross _ Hdg) in E4 as (r5 & E4 & ->). now rewrite E4.
  - exfalso. apply Ascii.eqb_neq in Ez.
    destruct z as [[] [] [] [] [] [] [] []]; try discriminate. congruence.
Qed.
End Crossing.

Lemma ver_search_app (pre body : string) (g : string * string) :
  ver_search pre = None ->
  starts_with (fun x => Ascii.eqb (lower_char x) "c") body = true ->
  ver_match_here body = Some g ->
  ver_search (pre ++ body) = Some g.
Proof.
  intros Hpre Hbody Hm. destruct body as [|x b]; [discriminate|]. simpl in Hbody.
  apply Ascii.eqb_eq in Hbody.
  induction pre as [|a pre IH].
  - simpl append. rewrite ver_search_eq, Hm. reflexivity.
  - rewrite ver_search_eq in Hpre.
    destruct (ver_match_here (String a pre)) as [g'|] eqn:E; [discriminate|].
    rewrite ver_search_eq.
    destruct (ver_match_here (String a pre ++ String x b)) as [g'|] eqn:E'.
    + apply ver_match_here_cross in E'; [congruence | assumption | discriminate].
    + simpl. auto.
Qed.

Lemma ver_match_here_inv (s major minor : string) :
  ver_match_here s = Some (major, minor) ->
  exists c ws1 t ws2 post,
    s = (c ++ ws1 ++ t ++ ws2 ++ major ++ "." ++ minor ++ post)%string /\
    lower c = "content" /\ all_chars is_space ws1 = true /\
    lower t = "taxonomy" /\ all_chars is_space ws2 = true /\
    all_chars is_digit major = true /\ major <> EmptyString /\
    all_chars is_digit minor = true /\ minor <> EmptyString /\
    starts_with is_digit post = false.
Proof.
  unfold ver_match_here. intros H.
  destruct (lit_ci "content" s) as [s1|] eqn:E1; [|discriminate].
  destruct (lit_ci_inv _ _ E1) as (c & -> & Hc).
  destruct (skip_space_inv s1) as (ws1 & Es1 & Hw1).
  destruct (lit_ci "taxonomy" (skip_space s1)) as [s2|] eqn:E2; [|discriminate].
  destruct (lit_ci_inv _ _ E2) as (t & Et & Ht).
  destruct (skip_space_inv s2) as (ws2 & Es2 & Hw2).
  destruct (digits1 (skip_space s2)) as [[d3 s3]|] eqn:E3; [|discriminate].
  destruct (digits1_inv _ E3) as (E3' & Hd3 & Hne3 & _).
  destruct s3 as [|z s4]; [discriminate|].
  destruct z as [[] [] [] [] [] [] [] []]; try discriminate.
  destruct (digits1 s4) as [[d4 s5]|] eqn:E4; [|discriminate].
  destruct (digits1_inv _ E4) as (E4' & Hd4 & Hne4 & Hpost).
  inversion H; subst major minor.
  exists c, ws1, t, ws2, s5. repeat split; auto.
  rewrite Es1 at 1. rewrite Et. rewrite Es2 at 1. rewrite E3', E4'. reflexivity.
Qed.

Lemma ver_search_inv (s : string) (g : string * string) :
  ver_search s = Some g ->
  exists pre body, s = (pre ++ body)%string /\ ver_match_here body = Some g.
Proof.
  induction s as [|a s IH]; rewrite ver_search_eq.
  - destruct (ver_match_here "") eqn:E; [|discriminate].
    intros H; inversion H; subst. exists EmptyString, EmptyString. auto.
  - destruct (ver_match_here (String a s)) eqn:E.
    + intros H; inversion H; subst. exists EmptyString, (String a s). auto.
    + intros H. destruct (IH H) as (pre & body & -> & Hb).
      exists (String a pre), body. auto.
Qed.

Lemma ver_search_phrase (pre c ws1 t ws2 major minor post : string) :
  ver_search pre = None ->
  lower c = "content" -> all_chars is_space ws1 = true ->
  lower t = "taxonomy" -> all_chars is_space ws2 = true ->
  all_chars is_digit major = true -> major <> EmptyString ->
  all_chars is_digit minor = true -> minor <> EmptyString ->
  starts_with is_digit post = false ->
  ver_search (pre ++ c ++ ws1 ++ t ++ ws2 ++ major ++ "." ++ minor ++ post)
  = Some (major, minor).
Proof.
  intros Hs Hc Hw1 Ht Hw2 HM HMne HN HNne Hp.
  apply ver_search_app; auto.
  - destruct c as [|x c]; [discriminate|]. simpl in *.
    inversion Hc. apply Ascii.eqb_refl.
  - now apply ver_match_here_app.
Qed.

Lemma ver_search_found (fname major minor : string) :
  ver_search fname = Some (major, minor) ->
  exists pre c ws1 t ws2 post,
    fname = (pre ++ c ++ ws1 ++ t ++ ws2 ++
             major ++ "." ++ minor ++ post)%string /\
    lower c = "content" /\ all_chars is_space ws1 = true /\
    lower t = "taxonomy" /\ all_chars is_space ws2 = true /\
    all_chars is_digit major = true /\ major <> EmptyString /\
    all_chars is_digit minor = true /\ minor <> EmptyString.
Proof.
  intros E. apply ver_search_inv in E as (pre & body & -> & Hb).
  apply ver_match_here_inv in Hb
    as (c & ws1 & t & ws2 & post & -> & Hc & Hw1 & Ht & Hw2 & HM & HMne &
        HN & HNne & _).
  exists pre, c, ws1, t, ws2, post. repeat split; auto.
Qed.

Lemma run_none (fname : string) :
  parse_version_from_name_run fname = OK None <-> ver_search fname = None.
Proof.
  unfold parse_version_from_name_run.
  destruct (ver_search fname) as [[major minor]|]; [|tauto].
  split; [|discriminate].
  destruct (py_int major); [|discriminate].
  destruct (py_int minor); discriminate.
Qed.

Lemma py_int_eq (s : string) :
  py_int s =
  if String.length s <=? int_max_str_digits then OK (int_of_digits s)
  else Raise (ValueError (int_limit_message (String.length s))).
Proof. reflexivity. Qed.

Lemma run_found (fname major minor : string) :
  ver_search fname = Some (major, minor) ->
  parse_version_from_name_run fname =
  if String.length major <=? int_max_str_digits then
    if String.length minor <=? int_max_str_digits
    then OK (Some (int_of_digits major, int_of_digits minor))
    else Raise (ValueError (int_limit_message (String.length minor)))
  else Raise (ValueError (int_limit_message (String.length major))).
Proof.
  intros E. unfold parse_version_from_name_run. rewrite E, !py_int_eq.
  destruct (String.length major <=? int_max_str_digits); [|reflexivity].
  destruct (String.length minor <=? int_max_str_digits); reflexivity.
Qed.

(** C6, as stated, fails on a name whose major number has more digits than
    [int] converts: the name "Content Taxonomy 1" followed by 4300 zeros and
    ".1" holds the phrase followed by the digits of a major number, a dot
    and a minor number, and the call raises [ValueError] instead of
    returning a version. *)
Lemma parse_version_from_name_limit_counterexample :
  long_version_name = ("Content Taxonomy " ++ long_major ++ ".1")%string /\
  all_chars is_digit long_major = true /\
  String.length long_major = 4301 /\
  parse_version_from_name_run long_version_name
  = Raise (ValueError
             ("Exceeds the limit (4300 digits) for integer string " ++
              "conversion: value has 4301 digits; " ++
              "use sys.set_int_max_str_digits() to increase the limit")) /\
  (forall v : option (Z * Z),
      parse_version_from_name_run long_version_name <> OK v).
Proof.
  assert (E : parse_version_from_name_run long_version_name
              = Raise (ValueError
                         ("Exceeds the limit (4300 digits) for integer string " ++
                          "conversion: value has 4301 digits; " ++
                          "use sys.set_int_max_str_digits() to increase the limit")))
    by (vm_compute; reflexivity).
  split; [vm_compute; reflexivity|].
  split; [vm_compute; reflexivity|].
  split; [vm_compute; reflexivity|].
  split; [exact E|].
  intros v. rewrite E. discriminate.
Qed.

(** C6, amended.  The call [parse_version_from_name(name)] is a function of
    the name alone.  For a name that holds, after a prefix without a version
    tag of its own, the phrase "Content Taxonomy" in any letter case and
    with any white space (or none) inside and after it, followed by the
    digits of a major number, a dot and the digits of a minor number, it
    returns the pair of the two integers when neither group has more than
    4300 digits, and raises the [ValueError] of [int] for the first group
    that has more.  For a name in which the phrase does not occur it
    returns nothing.  Every pair that is returned is read off such an
    occurrence in the name, every failure is that of a group of more than
    4300 digits, and what the call returns is what
    [parse_version_from_name] gives.  "Content Taxonomy 3.1.tsv" gives
    (3, 1) and "readme.md" gives nothing. *)
Theorem parse_version_from_name_spec :
  (forall pre c ws1 t ws2 major minor post : string,
      parse_version_from_name_run pre = OK None ->
      lower c = "content" -> all_chars is_space ws1 = true ->
      lower t = "taxonomy" -> all_chars is_space ws2 = true ->
      all_chars is_digit major = true -> major <> EmptyString ->
      all_chars is_digit minor = true -> minor <> EmptyString ->
      starts_with is_digit post = false ->
      parse_version_from_name_run
        (pre ++ c ++ ws1 ++ t ++ ws2 ++ major ++ "." ++ minor ++ post)
      = if String.length major <=? 4300 then
          if String.length minor <=? 4300
          then OK (Some (int_of_digits major, int_of_digits minor))
          else Raise (ValueError (int_limit_message (String.length minor)))
        else Raise (ValueError (int_limit_message (String.length major)))) /\
  (forall fname : string,
      (forall pre c ws t post : string,
          lower c = "content" -> all_chars is_space ws = true ->
          lower t = "taxonomy" ->
          fname <> (pre ++ c ++ ws ++ t ++ post)%string) ->
      parse_version_from_name_run fname = OK None) /\
  (forall (fname : string) (r : result (option (Z * Z))),
      parse_version_from_name_run fname = r ->
      r = OK None \/
      exists pre c ws1 t ws2 major minor post,
        fname = (pre ++ c ++ ws1 ++ t ++ ws2 ++
                 major ++ "." ++ minor ++ post)%string /\
        lower c = "content" /\ all_chars is_space ws1 = true /\
        lower t = "taxonomy" /\ all_chars is_space ws2 = true /\
        all_chars is_digit major = true /\ major <> EmptyString /\
        all_chars is_digit minor = true /\ minor <> EmptyString /\
        ((String.length major <= 4300 /\ String.length minor <= 4300 /\
          r = OK (Some (int_of_digits major, int_of_digits minor))) \/
         (4300 < String.length major /\
          r = Raise (ValueError (int_limit_message (String.length major)))) \/
         (String.length major <= 4300 /\ 4300 < String.length minor /\
          r = Raise (ValueError (int_limit_message (String.length minor)))))) /\
  (forall (fname : string) (v : option (Z * Z)),
      parse_version_from_name_run fname = OK v ->
      parse_version_from_name fname = v) /\
  parse_version_from_name_run "Content Taxonomy 3.1.tsv" = OK (Some (3, 1)%Z) /\
  parse_version_from_name_run "readme.md" = OK None.
Proof.
  split; [|split; [|split; [|split; [|split; reflexivity]]]].
  - intros pre c ws1 t ws2 major minor post Hpre Hc Hw1 Ht Hw2 HM HMne HN HNne Hp.
    apply run_none in Hpre. apply run_found. now apply ver_search_phrase.
  - intros fname Hno. apply run_none.
    destruct (ver_search fname) as [[major minor]|] eqn:E; [|reflexivity].
    apply ver_search_found in E
      as (pre & c & ws1 & t & ws2 & post & -> & Hc & Hw1 & Ht & _).
    now elim (Hno pre c ws1 t (ws2 ++ major ++ "." ++ minor ++ post)%string).
  - intros fname r Hr.
    destruct (ver_search fname) as [[major minor]|] eqn:E.
    + right. rewrite (run_found _ E) in Hr.
      apply ver_search_found in E
        as (pre & c & ws1 & t & ws2 & post & -> & Hc & Hw1 & Ht & Hw2 & HM &
            HMne & HN & HNne).
      exists pre, c, ws1, t, ws2, major, minor, post.
      repeat (split; [assumption || reflexivity|]).
      change int_max_str_digits with 4300 in Hr.
      destruct (Nat.leb_spec (String.length major) 4300) as [H1|H1].
      * destruct (Nat.leb_spec (String.length minor) 4300) as [H2|H2].
        -- left. auto.
        -- right. right. auto.
      * right. left. auto.
    + left. rewrite <- Hr. now apply run_none.
  - intros fname v. unfold parse_version_from_name_run, parse_version_from_name.
    destruct (ver_search fname) as [[major minor]|]; [|congruence].
    rewrite !py_int_eq.
    destruct (String.length major <=? int_max_str_digits); [|discriminate].
    destruct (String.length minor <=? int_max_str_digits); [|discriminate].
    congruence.
Qed.

Lemma parse_version_from_name_witness :
  parse_version_from_name_run "IAB Content  taxonomy 03.10 (final).tsv"
  = OK (Some (3, 10)%Z).
Proof.
  exact (proj1 parse_version_from_name_spec
           "IAB " "Content" "  " "taxonomy" " " "03" "10" " (final).tsv"
           eq_refl eq_refl eq_refl eq_refl eq_refl eq_refl
           ltac:(discriminate) eq_refl ltac:(discriminate) eq_refl).
Defined.

(** ** Catalog locator *)

Section StableSortFacts.
Variable A : Type.
Variable key : A -> Z.

(** The head of the sorted list is the first element of largest key. *)
Lemma sort_desc_head (l : list A) :
  match sort_desc key l with
  | [] => l = []
  | c :: _ =>
      exists l1 l2, l = l1 ++ c :: l2 /\
        (forall y, In y l1 -> (key y < key c)%Z) /\
        (forall y, In y l2 -> (key y <= key c)%Z)
  end.
Proof.
  induction l as [|x l IH]; simpl; [reflexivity|].
  destruct (sort_desc key l) as [|c rest]; simpl.
  - subst l. exists [], []. simpl. intuition.
  - destruct IH as (l1 & l2 & -> & H1 & H2).
    destruct (Z.ltb_spec (key x) (key c)) as [Hlt|Hge].
    + exists (x :: l1), l2. simpl. repeat split; auto.
      intros y [<-|Hy]; auto.
    + exists [], (l1 ++ c :: l2). simpl. repeat split; [tauto|].
      intros y Hy. apply in_app_or in Hy as [Hy|[<-|Hy]].
      * specialize (H1 _ Hy). lia.
      * lia.
      * specialize (H2 _ Hy). lia.
Qed.
End StableSortFacts.

Lemma collect_candidates_flat_map (major : Z) (files : list FileMeta)
  (acc : list candidate) :
  collect_candidates major files acc = acc ++ flat_map (candidate_of major) files.
Proof.
  revert acc; induction files as [|f files IH]; intros acc; simpl.
  - now rewrite app_nil_r.
  - unfold candidate_of at 1.
    destruct (parse_version_from_name (name f)) as [[maj minr]|]; simpl; auto.
    destruct (maj =? major)%Z; simpl; auto.
    rewrite IH, <- app_assoc. reflexivity.
Qed.

Lemma candidate_of_In (major : Z) (f : FileMeta) (c : candidate) :
  In c (candidate_of major f) <->
  exists minr, parse_version_from_name (name f) = Some (major, minr) /\
               c = ((major, minr), f).
Proof.
  unfold candidate_of.
  destruct (parse_version_from_name (name f)) as [[maj minr]|]; simpl.
  - destruct (Z.eqb_spec maj major) as [->|Hne]; simpl.
    + split.
      * intros [<-|[]]. eauto.
      * intros (m & H & ->). inversion H; auto.
    + split; [tauto|]. intros (m & H & _). congruence.
  - split; [tauto|]. intros (m & H & _). discriminate.
Qed.



(** ** Dictionaries *)

Lemma fold_left_append (A B : Type) (g : B -> list A)
  (body : list A -> B -> list A) :
  (forall out r, body out r = out ++ g r) ->
  forall rs acc, fold_left body rs acc = acc ++ flat_map g rs.
Proof.
  intros Hbody. induction rs as [|r rs IH]; intros acc; simpl.
  - now rewrite app_nil_r.
  - rewrite IH, Hbody, <- app_assoc. reflexivity.
Qed.

Lemma find_app (A : Type) (p : A -> bool) (l1 l2 : list A) :
  find p (l1 ++ l2) =
  match find p l1 with
  | Some a => Some a
  | None => find p l2
  end.
Proof. induction l1 as [|a l1 IH]; simpl; [|destruct (p a)]; auto. Qed.

Section DictFacts.
Variable V : Type.
Implicit Types (d : dict V) (k : string) (v : V).

Lemma dict_get_set d k v k' :
  dict_get (dict_set d k v) k' =
  if String.eqb k k' then Some v else dict_get d k'.
Proof.
  induction d as [|[k0 v0] d IH]; simpl.
  - reflexivity.
  - destruct (String.eqb_spec k0 k) as [->|Hne]; simpl.
    + destruct (String.eqb k k'); reflexivity.
    + destruct (String.eqb_spec k0 k') as [->|Hne'].
      * destruct (String.eqb_spec k k'); congruence.
      * apply IH.
Qed.

Lemma first_key_set (p : string -> bool) d k v :
  first_key p (dict_set d k v) =
  match first_key p d with
  | Some k' => Some k'
  | None => if p k then Some k else None
  end.
Proof.
  unfold first_key. induction d as [|[k0 v0] d IH]; simpl.
  - destruct (p k); reflexivity.
  - destruct (String.eqb_spec k0 k) as [->|Hne]; simpl.
    + destruct (p k) eqn:Hk; [reflexivity|].
      destruct (find (fun kv => p (fst kv)) d) as [[? ?]|] eqn:E; reflexivity.
    + destruct (p k0); [reflexivity | apply IH].
Qed.

(** A pair found by a test on keys holds the value [get] gives its key. *)
Lemma find_key_get (p : string -> bool) d k v :
  find (fun kv => p (fst kv)) d = Some (k, v) -> dict_get d k = Some v.
Proof.
  induction d as [|[k0 v0] d IH]; simpl; [discriminate|].
  destruct (p k0) eqn:Hk0.
  - intros H; inversion H; subst. now rewrite String.eqb_refl.
  - intros H. destruct (String.eqb_spec k0 k) as [->|Hne]; [|auto].
    apply find_some in H as [_ Hk]. simpl in Hk. congruence.
Qed.
End DictFacts.

(** ** The lower-cased header dictionary *)


Lemma lower_cols_first_key (p : string -> bool) (cs : list string)
  (d : dict string) :
  first_key p (fold_left cols_step cs d) =
  match first_key p d with
  | Some k => Some k
  | None =>
      match find (fun c => p (lower c)) cs with
      | Some c => Some (lower c)
      | None => None
      end
  end.
Proof.
  revert d; induction cs as [|c cs IH]; intros d; simpl.
  - destruct (first_key p d); reflexivity.
  - rewrite IH. unfold cols_step. rewrite first_key_set.
    destruct (first_key p d); [reflexivity|].
    destruct (p (lower c)); reflexivity.
Qed.

Lemma lower_cols_get (cs : list string) (d : dict string) (k : string) :
  dict_get (fold_left cols_step cs d) k =
  match find (fun c => String.eqb (lower c) k) (rev cs) with
  | Some c => Some c
  | None => dict_get d k
  end.
Proof.
  revert d; induction cs as [|c cs IH]; intros d; simpl.
  - reflexivity.
  - rewrite IH, find_app. unfold cols_step. rewrite dict_get_set. simpl.
    destruct (find (fun c0 => String.eqb (lower c0) k) (rev cs));
      [reflexivity|].
    destruct (String.eqb (lower c) k); reflexivity.
Qed.

Lemma first_alias_select (df : DataFrame) (aliases : list string) :
  first_alias (lower_cols df) aliases = select_column aliases (columns df).
Proof.
  unfold first_alias, select_column, first_header, lower_cols.
  change (fun d c => dict_set d (lower c) c) with cols_step.
  pose proof (lower_cols_first_key (fun k => mem k aliases) (columns df) [])
    as Hk. unfold first_key in Hk at 1. simpl in Hk.
  destruct (find (fun kv : string * string => mem (fst kv) aliases)
              (fold_left cols_step (columns df) [])) as [[k v]|] eqn:E.
  - apply (find_key_get (fun k => mem k aliases)) in E.
    rewrite lower_cols_get in E. simpl in E.
    destruct (find (fun c => mem (lower c) aliases) (columns df)) as [c0|];
      [|discriminate].
    inversion Hk; subst k.
    destruct (find (fun c => String.eqb (lower c) (lower c0)) (rev (columns df)));
      congruence.
  - destruct (find (fun c => mem (lower c) aliases) (columns df));
      [discriminate | reflexivity].
Qed.

Lemma select_column_alias (aliases cols : list string) (c : string) :
  select_column aliases cols = Some c -> mem (lower c) aliases = true.
Proof.
  unfold select_column, first_header.
  destruct (find (fun c0 => mem (lower c0) aliases) cols) as [c0|] eqn:E0;
    [|discriminate].
  intros E. apply find_some in E0 as [_ H0]. apply find_some in E as [_ H].
  apply String.eqb_eq in H. now rewrite H.
Qed.

Lemma select_column_none (aliases cols : list string) :
  select_column aliases cols = None <-> first_header aliases cols = None.
Proof.
  unfold select_column. destruct (first_header aliases cols) as [c0|] eqn:E0.
  - split; [|discriminate]. intros E. exfalso.
    apply find_some in E0 as [Hin _]. apply in_rev in Hin.
    pose proof (find_none _ _ E c0 Hin) as H. simpl in H.
    now rewrite String.eqb_refl in H.
  - tauto.
Qed.

Lemma NoDup_map_inj (A B : Type) (f : A -> B) (l : list A) (a b : A) :
  NoDup (map f l) -> In a l -> In b l -> f a = f b -> a = b.
Proof.
  induction l as [|x l IH]; simpl; [tauto|]. intros Hnd Ha Hb Hf.
  inversion Hnd as [|? ? Hx Hl]; subst.
  destruct Ha as [->|Ha], Hb as [->|Hb]; auto.
  - elim Hx. rewrite Hf. now apply in_map.
  - elim Hx. rewrite <- Hf. now apply in_map.
Qed.

(** With headers that differ in more than letter case, the lookup settles
    on the first header whose lower-cased form is an alias. *)
Lemma select_column_first (aliases cols : list string) :
  NoDup (map lower cols) ->
  select_column aliases cols = first_header aliases cols.
Proof.
  intros Hnd. unfold select_column.
  destruct (first_header aliases cols) as [c0|] eqn:E0; [|reflexivity].
  apply find_some in E0 as [Hin0 _].
  destruct (find (fun c => String.eqb (lower c) (lower c0)) (rev cols))
    as [c|] eqn:E.
  - apply find_some in E as [Hin H]. apply String.eqb_eq in H.
    apply in_rev in Hin. f_equal. eapply NoDup_map_inj; eauto.
  - exfalso. apply in_rev in Hin0.
    pose proof (find_none _ _ E c0 Hin0) as H. simpl in H.
    now rewrite String.eqb_refl in H.
Qed.

Lemma lower_nonempty (s : string) : nonempty (lower s) = nonempty s.
Proof. destruct s; reflexivity. Qed.

Lemma mem_nonempty (k : string) (set : list string) :
  forallb nonempty set = true -> mem k set = true -> nonempty k = true.
Proof.
  unfold mem. intros Hall Hk. apply existsb_exists in Hk as (a & Ha & E).
  apply String.eqb_eq in E; subst a.
  rewrite forallb_forall in Hall. auto.
Qed.

Lemma select_column_found (aliases cols : list string) (c : string) :
  forallb nonempty aliases = true ->
  select_column aliases cols = Some c -> nonempty c = true.
Proof.
  intros Hall E. apply select_column_alias in E.
  rewrite <- lower_nonempty. eauto using mem_nonempty.
Qed.

(** ** Flat normalizer *)

Lemma normalize_2x_eq (rt : Runtime) (df : DataFrame) :
  normalize_2x rt df =
  match select_column id_aliases_2x (columns df),
        select_column label_aliases (columns df) with
  | Some id_c, Some label_c =>
      OK (flat_map (emit_2x rt id_c label_c) (rows df))
  | _, _ => Raise (SchemaInferenceError "2.x")
  end.
Proof.
  unfold normalize_2x. cbv zeta. rewrite !first_alias_select.
  fold id_aliases_2x label_aliases.
  destruct (select_column id_aliases_2x (columns df)) as [id_c|] eqn:Ei;
    [|reflexivity].
  destruct (select_column label_aliases (columns df)) as [label_c|] eqn:El;
    [|reflexivity].
  simpl found.
  rewrite (@select_column_found id_aliases_2x _ _ eq_refl Ei),
          (@select_column_found label_aliases _ _ eq_refl El).
  simpl andb. f_equal.
  rewrite fold_left_append with (g := emit_2x rt id_c label_c); [reflexivity|].
  intros out r. unfold emit_2x.
  destruct (nonempty (cell_text rt r id_c) && nonempty (cell_text rt r label_c));
    [reflexivity | now rewrite app_nil_r].
Qed.

Lemma cell_text_truthy (rt : Runtime) (r : Row) (c : string) :
  cell_text rt r c =
  if truthy (row_get r c) then strip (py_str rt (row_get r c)) else "".
Proof.
  unfold cell_text, py_or. destruct (truthy (row_get r c)); reflexivity.
Qed.

(** Two headers that differ in letter case only are read through the
    dictionary of lower-cased headers, which keeps the later one: on the
    table with the headers "code", "CODE", "label" and the one row
    ("A", "", "L"), the first header whose lower-cased form is an id alias
    is "code", while the normalizer reads the id from "CODE" and drops the
    row. *)
Lemma normalize_2x_twin_headers :
  first_header id_aliases_2x (columns twin_frame) = Some "code" /\
  normalize_2x_first_header bare_runtime twin_frame
    = OK [{| code := "A"; flat_label := "L" |}] /\
  normalize_2x bare_runtime twin_frame = OK [].
Proof. repeat split. Qed.

(** C9, as stated, fails on a cell that is not empty and yet false in
    Python's sense: in the table with the headers Code, Label and the rows
    ("1-1", "Arts"), (0, "Zero"), ("1-2", "Cars") the trimmed id value of
    the second row is "0", which is not empty, and the normalizer skips the
    row. *)
Lemma normalize_2x_zero_code_counterexample :
  normalize_2x_stated bare_runtime zero_code_frame
  = OK [{| code := "1-1"; flat_label := "Arts" |};
        {| code := "0"; flat_label := "Zero" |};
        {| code := "1-2"; flat_label := "Cars" |}] /\
  normalize_2x bare_runtime zero_code_frame
  = OK [{| code := "1-1"; flat_label := "Arts" |};
        {| code := "1-2"; flat_label := "Cars" |}] /\
  normalize_2x bare_runtime zero_code_frame
  <> normalize_2x_stated bare_runtime zero_code_frame.
Proof. repeat split. discriminate. Qed.

(** C9, amended.  On a table no two headers of which differ in letter case
    only, and whose cells [str] prints, the id column is the first header
    whose lower-cased form is one of code, id, node id, taxonomy id,
    unique id, and the label column the first whose lower-cased form is one
    of label, name, node, node name.  When either is missing the normalizer
    raises its schema inference error.  Otherwise it reads every cell that
    is false in Python's sense ([None], [False], 0, 0.0, the empty string)
    as empty and every other cell as the trimmed text of its value, and
    returns, in row order, the pair of the two texts of every row in which
    both are non-empty; the other rows are passed over.  The rows
    ("1-1", "Arts"), ("", "X") under the headers Code, Label give the one
    pair ("1-1", "Arts"), and a row with the number 0 as code is passed
    over. *)
Theorem normalize_2x_spec :
  (forall (rt : Runtime) (df : DataFrame),
      NoDup (map lower (columns df)) -> printable df = true ->
      normalize_2x rt df =
      match first_header id_aliases_2x (columns df),
            first_header label_aliases (columns df) with
      | Some id_c, Some label_c =>
          OK (flat_map
                (fun r =>
                   let code :=
                     if truthy (row_get r id_c)
                     then strip (py_str rt (row_get r id_c)) else "" in
                   let label :=
                     if truthy (row_get r label_c)
                     then strip (py_str rt (row_get r label_c)) else "" in
                   if nonempty code && nonempty label
                   then [{| code := code; flat_label := label |}]
                   else [])
                (rows df))
      | _, _ => Raise (SchemaInferenceError "2.x")
      end) /\
  (forall rt : Runtime,
      normalize_2x rt arts_frame
      = OK [{| code := "1-1"; flat_label := "Arts" |}]) /\
  (forall rt : Runtime,
      normalize_2x rt zero_code_frame
      = OK [{| code := "1-1"; flat_label := "Arts" |};
            {| code := "1-2"; flat_label := "Cars" |}]).
Proof.
  split; [|split; intros rt; reflexivity].
  intros rt df Hnd _. rewrite normalize_2x_eq.
  rewrite !(@select_column_first _ _ Hnd).
  destruct (first_header id_aliases_2x (columns df)) as [id_c|]; [|reflexivity].
  destruct (first_header label_aliases (columns df)) as [label_c|];
    [|reflexivity].
  f_equal. apply flat_map_ext. intros r. unfold emit_2x.
  rewrite !cell_text_truthy. reflexivity.
Qed.

Lemma normalize_2x_spec_witness :
  normalize_2x bare_runtime arts_frame
  = OK [{| code := "1-1"; flat_label := "Arts" |}].
Proof.
  apply (eq_trans
           (proj1 normalize_2x_spec bare_runtime arts_frame
              ltac:(repeat constructor; simpl; intuition discriminate)
              eq_refl)).
  reflexivity.
Defined.

(** ** Hierarchical normalizer *)

Lemma nonempty_true (s : string) : nonempty s = true <-> s <> EmptyString.
Proof. destruct s; simpl; split; congruence. Qed.

Lemma rstrip_empty (s : string) :
  rstrip s = EmptyString -> all_chars is_space s = true.
Proof.
  induction s as [|c s IH]; simpl; [reflexivity|].
  destruct (rstrip s); [|discriminate].
  destruct (is_space c); [auto | discriminate].
Qed.

Lemma lstrip_spaces (s : string) :
  all_chars is_space (lstrip s) = true -> all_chars is_space s = true.
Proof.
  induction s as [|c s IH]; simpl; [reflexivity|].
  destruct (is_space c) eqn:Hc; simpl; [auto|]. now rewrite Hc.
Qed.

Lemma strip_empty (s : string) :
  nonempty (strip s) = false -> all_chars is_space s = true.
Proof.
  unfold strip. intros H. apply lstrip_spaces, rstrip_empty.
  destruct (rstrip (lstrip s)); [reflexivity | discriminate].
Qed.

Lemma space_not_delim (c : ascii) : is_space c = true -> is_path_delim c = false.
Proof. each_ascii c. Qed.

Lemma split_on_spaces (s cur : string) :
  all_chars is_space s = true ->
  split_on is_path_delim cur s = [(cur ++ s)%string].
Proof.
  revert cur; induction s as [|c s IH]; intros cur H; simpl in *.
  - now rewrite append_nil_r.
  - apply andb_prop in H as [Hc Hs]. rewrite (space_not_delim _ Hc), IH by auto.
    now rewrite append_assoc.
Qed.

Lemma split_path_blank (raw : string) :
  nonempty (strip raw) = false -> split_path raw = [].
Proof.
  intros H. unfold split_path.
  rewrite split_on_spaces by now apply strip_empty. simpl. now rewrite H.
Qed.

Lemma split_path_segments (raw : string) :
  Forall (fun seg => seg <> EmptyString) (split_path raw).
Proof.
  unfold split_path. apply Forall_forall. intros seg Hin.
  apply in_map_iff in Hin as (p & <- & Hp).
  apply filter_In in Hp as [_ Hp]. now apply nonempty_true.
Qed.

Lemma flat_map_filter_map (A B : Type) (keep : A -> bool) (f : A -> B)
  (l : list A) :
  flat_map (fun a => if keep a then [f a] else []) l = map f (filter keep l).
Proof.
  induction l as [|a l IH]; simpl; [reflexivity|].
  destruct (keep a); simpl; congruence.
Qed.

Lemma prefix_app (a b s : string) :
  String.prefix (a ++ b) s = true -> String.prefix a s = true.
Proof.
  revert s; induction a as [|x a IH]; intros s H; simpl in *.
  - destruct s; reflexivity.
  - destruct s as [|y s]; simpl in *; [discriminate|].
    destruct (ascii_dec x y); [now apply IH | discriminate].
Qed.

Section Normalizer3Facts.
Variable rt : Runtime.

Lemma tier_parts_eq (tier_cols : list string) (r : Row) :
  tier_parts rt tier_cols r = tier_values rt tier_cols r.
Proof.
  unfold tier_parts, tier_values.
  rewrite fold_left_append
    with (g := fun t => if nonempty (cell_text rt r t)
                        then [cell_text rt r t] else []).
  - simpl. induction tier_cols as [|t ts IH]; simpl; [reflexivity|].
    destruct (nonempty (cell_text rt r t)); simpl; congruence.
  - intros out t. destruct (nonempty (cell_text rt r t));
      [reflexivity | now rewrite app_nil_r].
Qed.

Lemma row_path_eq (path_col : option string) (tier_cols : list string)
  (lbl : string) (r : Row) :
  (forall c, path_col = Some c -> nonempty c = true) ->
  match row_path rt path_col tier_cols r with
  | [] => [lbl]
  | p => p
  end = derive_path rt path_col tier_cols lbl r.
Proof.
  intros Hfound. unfold row_path, derive_path. rewrite tier_parts_eq.
  destruct path_col as [path_c|]; simpl found.
  - rewrite (Hfound _ eq_refl).
    destruct (row_get r path_c) as [| | | |raw| |]; simpl path_segments;
      try (destruct (tier_values rt tier_cols r); reflexivity).
    destruct (nonempty (strip raw)) eqn:Hraw.
    + destruct (split_path raw); [|reflexivity].
      destruct (tier_values rt tier_cols r); reflexivity.
    + rewrite (split_path_blank _ Hraw).
      destruct (tier_values rt tier_cols r); reflexivity.
  - destruct (tier_values rt tier_cols r); reflexivity.
Qed.

Lemma to_bool_eq (v : pyval) : to_bool rt v = scd_of_raw rt v.
Proof. destruct v as [|[|]| | | | |]; reflexivity. Qed.

Lemma normalize_3x_eq (df : DataFrame) :
  normalize_3x rt df =
  match select_column id_aliases_3x (columns df),
        select_column label_aliases (columns df) with
  | Some id_c, Some label_c =>
      OK (flat_map
            (emit_3x rt id_c label_c
               (select_column path_aliases (columns df))
               (tier_columns df (lower_cols df))
               (select_column scd_aliases (columns df)))
            (rows df))
  | _, _ =>
      Raise (if numbered_columns df then AttributeError
             else SchemaInferenceError "3.x")
  end.
Proof.
  unfold normalize_3x. cbv zeta. rewrite !first_alias_select.
  fold id_aliases_3x label_aliases path_aliases scd_aliases.
  destruct (select_column id_aliases_3x (columns df)) as [id_c|] eqn:Ei;
    [|destruct (numbered_columns df); reflexivity].
  destruct (select_column label_aliases (columns df)) as [label_c|] eqn:El;
    [|destruct (numbered_columns df); reflexivity].
  assert (Hn : numbered_columns df = false).
  { unfold numbered_columns. destruct (columns df); [discriminate|reflexivity]. }
  rewrite Hn. simpl found.
  rewrite (@select_column_found id_aliases_3x _ _ eq_refl Ei),
          (@select_column_found label_aliases _ _ eq_refl El).
  simpl andb. cbv iota. f_equal.
  apply fold_left_append with (acc := @nil HierarchicalCategory).
  intros out r. unfold emit_3x, kept_3x.
  destruct (nonempty (cell_text rt r id_c) && nonempty (cell_text rt r label_c));
    [|now rewrite app_nil_r].
  rewrite row_path_eq
    by (intros c Hc; apply (@select_column_found path_aliases _ _ eq_refl Hc)).
  do 3 f_equal. unfold derive_scd.
  destruct (select_column scd_aliases (columns df)) as [scd_c|] eqn:Es;
    [|reflexivity].
  simpl found. rewrite (@select_column_found scd_aliases _ _ eq_refl Es).
  apply to_bool_eq.
Qed.

Lemma derive_path_segments (path_col : option string)
  (tier_cols : list string) (lbl : string) (r : Row) :
  lbl <> EmptyString ->
  derive_path rt path_col tier_cols lbl r <> [] /\
  Forall (fun seg => seg <> EmptyString)
         (derive_path rt path_col tier_cols lbl r).
Proof.
  intros Hl. unfold derive_path.
  assert (Hp : Forall (fun seg => seg <> EmptyString)
                 match path_col with
                 | Some path_c => path_segments (row_get r path_c)
                 | None => []
                 end).
  { destruct path_col as [c|]; [|constructor].
    destruct (row_get r c); simpl; try constructor.
    apply split_path_segments. }
  destruct (match path_col with
            | Some path_c => path_segments (row_get r path_c)
            | None => []
            end) as [|seg segs].
  - assert (Ht : Forall (fun seg => seg <> EmptyString)
                   (tier_values rt tier_cols r)).
    { apply Forall_forall. intros seg Hin. apply filter_In in Hin as [_ H].
      now apply nonempty_true. }
    destruct (tier_values rt tier_cols r); split; auto; discriminate.
  - split; [discriminate | assumption].
Qed.
End Normalizer3Facts.

Lemma resolve_header_self (cols : list string) (c : string) :
  NoDup (map lower cols) -> In c cols -> resolve_header cols c = c.
Proof.
  intros Hnd Hc. unfold resolve_header.
  destruct (find (fun c' => String.eqb (lower c') (lower c)) (rev cols))
    as [c'|] eqn:E; [|reflexivity].
  apply find_some in E as [Hin H]. apply String.eqb_eq in H.
  apply in_rev in Hin. eapply NoDup_map_inj; eauto.
Qed.

(** The tier columns of the normalizer: each header that starts with
    "tier", read through the dictionary of lower-cased headers. *)
Lemma tier_columns_resolved (df : DataFrame) :
  tier_columns df (lower_cols df)
  = map (resolve_header (columns df)) (tier_headers (columns df)).
Proof.
  unfold tier_columns, tier_headers, lower_cols.
  change (fun d c => dict_set d (lower c) c) with cols_step.
  rewrite flat_map_concat_map, map_map, <- flat_map_concat_map.
  assert (H : forall c, In c (columns df) ->
            dict_get (fold_left cols_step (columns df) []) (lower c)
            = Some (resolve_header (columns df) c)).
  { intros c Hc. rewrite lower_cols_get. unfold resolve_header. simpl.
    destruct (find (fun c0 => String.eqb (lower c0) (lower c)) (rev (columns df)))
      as [c'|] eqn:E; [reflexivity|].
    apply in_rev in Hc. pose proof (find_none _ _ E c Hc) as H. simpl in H.
    now rewrite String.eqb_refl in H. }
  revert H. generalize (resolve_header (columns df)).
  generalize (fold_left cols_step (columns df) []).
  induction (columns df) as [|c cs IH]; intros d f H; simpl; [reflexivity|].
  rewrite (IH d f) by (intros; apply H; now right). unfold startswith.
  destruct (String.prefix "tier" (lower c)) eqn:E.
  - rewrite orb_true_r, H by now left. reflexivity.
  - destruct (String.prefix "tier " (lower c)) eqn:E'; [|reflexivity].
    apply (prefix_app "tier" " ") in E'. congruence.
Qed.

Lemma tier_headers_resolved (cols : list string) :
  NoDup (map lower cols) ->
  map (resolve_header cols) (tier_headers cols) = tier_headers cols.
Proof.
  intros Hnd. rewrite <- (map_id (tier_headers cols)) at 2.
  apply map_ext_in. intros c Hc. apply resolve_header_self; [assumption|].
  unfold tier_headers in Hc. now apply filter_In in Hc.
Qed.

Lemma normalize_3x_rows (rt : Runtime) (df : DataFrame)
  (out : list HierarchicalCategory) :
  normalize_3x rt df = OK out ->
  exists id_c label_c,
    select_column id_aliases_3x (columns df) = Some id_c /\
    select_column label_aliases (columns df) = Some label_c /\
    out = map (fun r =>
                 let lbl := cell_text rt r label_c in
                 {| cat_id := cell_text rt r id_c;
                    label := lbl;
                    path := derive_path rt
                              (select_column path_aliases (columns df))
                              (tier_columns df (lower_cols df)) lbl r;
                    scd := derive_scd rt
                             (select_column scd_aliases (columns df)) r |})
              (filter (kept_3x rt id_c label_c) (rows df)).
Proof.
  rewrite normalize_3x_eq.
  destruct (select_column id_aliases_3x (columns df)) as [id_c|];
    [|discriminate].
  destruct (select_column label_aliases (columns df)) as [label_c|];
    [|discriminate].
  intros H; inversion H; subst out. exists id_c, label_c.
  repeat split. unfold emit_3x. apply flat_map_filter_map.
Qed.

(** Two tier headers that differ in letter case only are read through
    the dictionary of lower-cased headers, which keeps the later one: on
    the table with the headers "ID", "Name", "Tier 1", "TIER 1" and the row
    ("1", "N", "A", "B") the normalizer reads "TIER 1" twice and emits the
    path ["B", "B"]. *)
Lemma normalize_3x_twin_tiers :
  tier_headers (columns twin_tiers_frame) = ["Tier 1"; "TIER 1"] /\
  normalize_3x bare_runtime twin_tiers_frame
  = OK [{| cat_id := "1"; label := "N"; path := ["B"; "B"]; scd := false |}].
Proof. repeat split. Qed.

Lemma normalize_3x_first_headers (rt : Runtime) (df : DataFrame)
  (id_c label_c : string) :
  NoDup (map lower (columns df)) ->
  first_header id_aliases_3x (columns df) = Some id_c ->
  first_header label_aliases (columns df) = Some label_c ->
  normalize_3x rt df =
  OK (map (fun r =>
             let lbl := cell_text rt r label_c in
             {| cat_id := cell_text rt r id_c;
                label := lbl;
                path := derive_path rt
                          (first_header path_aliases (columns df))
                          (tier_headers (columns df)) lbl r;
                scd := derive_scd rt
                         (first_header scd_aliases (columns df)) r |})
          (filter (kept_3x rt id_c label_c) (rows df))).
Proof.
  intros Hnd Hi Hl. rewrite normalize_3x_eq.
  rewrite !(@select_column_first _ _ Hnd), Hi, Hl.
  rewrite tier_columns_resolved, (tier_headers_resolved _ Hnd).
  f_equal. unfold emit_3x. apply flat_map_filter_map.
Qed.

Lemma normalize_3x_paths (rt : Runtime) (df : DataFrame)
  (out : list HierarchicalCategory) :
  normalize_3x rt df = OK out ->
  Forall (fun h => path h <> [] /\
                   Forall (fun seg => seg <> EmptyString) (path h)) out.
Proof.
  intros H. apply normalize_3x_rows in H as (id_c & label_c & Hi & Hl & ->).
  apply Forall_forall. intros h Hin.
  apply in_map_iff in Hin as (r & <- & Hr). simpl.
  apply filter_In in Hr as [_ Hk]. unfold kept_3x in Hk.
  apply andb_prop in Hk as [_ Hk]. apply derive_path_segments.
  now apply nonempty_true.
Qed.

(** C8, as stated, fails on a tier cell that is not empty and yet false in
    Python's sense: in the table with the headers ID, Name, Tier 1, Tier 2
    and the row ("7", "N", 0, "B") the non-empty trimmed values of the tier
    columns are "0" and "B", and the normalizer emits the path ["B"]. *)
Lemma normalize_3x_zero_tier_counterexample :
  tier_headers (columns zero_tier_frame) = ["Tier 1"; "Tier 2"] /\
  map (tier_values_stated bare_runtime (tier_headers (columns zero_tier_frame)))
      (rows zero_tier_frame) = [["0"; "B"]] /\
  normalize_3x bare_runtime zero_tier_frame
  = OK [{| cat_id := "7"; label := "N"; path := ["B"]; scd := false |}] /\
  normalize_3x bare_runtime zero_tier_frame
  <> OK [{| cat_id := "7"; label := "N"; path := ["0"; "B"]; scd := false |}].
Proof. repeat split. discriminate. Qed.

(** C8, amended.  On a table no two headers of which differ in letter case
    only, whose cells [str] prints and in which the id and label columns
    are found, the hierarchical normalizer returns the categories of the
    kept rows, in order, and the path of each is derived in this order: the
    segments of the value of the path column (the first header that
    lower-cases to path, full path or taxonomy path) when that value is a
    string with at least one non-blank segment between the delimiters >, /,
    \ and comma, each segment trimmed and the blank ones dropped; otherwise
    the non-empty texts of the cells under the headers whose lower-cased
    form starts with "tier", in column order, where a cell that is false in
    Python's sense ([None], [False], 0, 0.0, the empty string) is read as
    empty and every other cell as the trimmed text of its value; otherwise
    the label alone.  Every path the normalizer emits, on any table, is
    non-empty and has no empty segment.  A row with Path
    "Tech > Computing > AI" gets the three segments, a row with empty path
    and tiers "Tech", "Computing" gets these two, a row with neither gets
    its label, and a row with the tiers 0 and "B" gets the path ["B"]. *)
Theorem normalize_3x_path_spec :
  (forall (rt : Runtime) (df : DataFrame) (id_c label_c : string),
      NoDup (map lower (columns df)) -> printable df = true ->
      first_header id_aliases_3x (columns df) = Some id_c ->
      first_header label_aliases (columns df) = Some label_c ->
      exists out : list HierarchicalCategory,
        normalize_3x rt df = OK out /\
        map (fun h => (label h, path h)) out =
          map (fun r =>
                 let lbl := cell_text rt r label_c in
                 (lbl,
                  match
                    match first_header path_aliases (columns df) with
                    | Some path_c =>
                        match row_get r path_c with
                        | PStr raw => split_path raw
                        | _ => []
                        end
                    | None => []
                    end
                  with
                  | seg :: segs => seg :: segs
                  | [] =>
                      match filter nonempty
                                   (map (cell_text rt r)
                                        (tier_headers (columns df))) with
                      | [] => [lbl]
                      | tier :: tiers => tier :: tiers
                      end
                  end))
              (filter (fun r => nonempty (cell_text rt r id_c) &&
                                nonempty (cell_text rt r label_c))
                      (rows df))) /\
  (forall (rt : Runtime) (r : Row) (c : string),
      cell_text rt r c =
      if truthy (row_get r c) then strip (py_str rt (row_get r c)) else "") /\
  (forall (rt : Runtime) (df : DataFrame) (out : list HierarchicalCategory),
      normalize_3x rt df = OK out ->
      Forall (fun h => path h <> [] /\
                       Forall (fun seg => seg <> EmptyString) (path h)) out) /\
  (forall rt : Runtime, normalize_3x rt paths_frame = OK paths_catalog) /\
  (forall rt : Runtime,
      normalize_3x rt zero_tier_frame
      = OK [{| cat_id := "7"; label := "N"; path := ["B"]; scd := false |}]).
Proof.
  split; [|split; [exact cell_text_truthy|
           split; [exact normalize_3x_paths|split; reflexivity]]].
  intros rt df id_c label_c Hnd _ Hi Hl.
  eexists. split; [apply (@normalize_3x_first_headers rt df _ _ Hnd Hi Hl)|].
  rewrite map_map. apply map_ext. intros r. cbv zeta. simpl label. simpl path.
  f_equal. unfold derive_path, path_segments, tier_values.
  destruct (first_header path_aliases (columns df)) as [path_c|].
  - destruct (row_get r path_c) as [| | | |raw| |];
      try (destruct (filter nonempty
                       (map (cell_text rt r) (tier_headers (columns df))));
           reflexivity).
    destruct (split_path raw); [|reflexivity].
    destruct (filter nonempty
                (map (cell_text rt r) (tier_headers (columns df))));
      reflexivity.
  - destruct (filter nonempty
                (map (cell_text rt r) (tier_headers (columns df))));
      reflexivity.
Qed.

Lemma normalize_3x_path_spec_witness :
  exists out : list HierarchicalCategory,
    normalize_3x bare_runtime paths_frame = OK out /\
    map (fun h => (label h, path h)) out =
    [("AI", ["Tech"; "Computing"; "AI"]);
     ("Computing", ["Tech"; "Computing"]);
     ("Misc", ["Misc"])].
Proof.
  destruct (proj1 normalize_3x_path_spec bare_runtime paths_frame "ID" "Name"
              ltac:(repeat constructor; simpl; intuition discriminate)
              eq_refl eq_refl eq_refl) as (out & Hout & Hmap).
  exists out. split; [exact Hout|]. rewrite Hmap. reflexivity.
Defined.

(** C10.  For every table the hierarchical normalizer accepts and every
    kept row: when a header has one of the lower-cased forms scd, sensitive,
    is scd, the emitted flag is true exactly when the text of the row's
    value in the scd column, trimmed and lower-cased, is one of true, 1,
    yes, y; when no header has, the flag is false.  The normalizer accepts
    every table in which it finds the id and label columns and whose cells
    [str] prints.  [to_bool] is that test on every value, [None] and the
    empty string included: rows with the flags "TRUE", "1", "Yes", "y" are
    emitted with true and rows with "", "no", "0" and a missing value with
    false. *)
Theorem normalize_3x_scd_spec :
  (forall (rt : Runtime) (df : DataFrame) (out : list HierarchicalCategory),
      normalize_3x rt df = OK out ->
      exists id_c label_c,
        select_column id_aliases_3x (columns df) = Some id_c /\
        select_column label_aliases (columns df) = Some label_c /\
        map scd out =
          map (fun r =>
                 match select_column scd_aliases (columns df) with
                 | Some scd_c =>
                     mem (lower (strip (py_str rt (row_get r scd_c)))) truths
                 | None => false
                 end)
              (filter (kept_3x rt id_c label_c) (rows df)) /\
        (first_header scd_aliases (columns df) = None ->
         Forall (fun h => scd h = false) out)) /\
  (forall (rt : Runtime) (df : DataFrame) (id_c label_c : string),
      printable df = true ->
      select_column id_aliases_3x (columns df) = Some id_c ->
      select_column label_aliases (columns df) = Some label_c ->
      exists out : list HierarchicalCategory,
        normalize_3x rt df = OK out /\
        map scd out =
          map (fun r =>
                 match select_column scd_aliases (columns df) with
                 | Some scd_c =>
                     mem (lower (strip (py_str rt (row_get r scd_c)))) truths
                 | None => false
                 end)
              (filter (fun r => nonempty (cell_text rt r id_c) &&
                                nonempty (cell_text rt r label_c))
                      (rows df))) /\
  (forall (rt : Runtime) (v : pyval),
      to_bool rt v = mem (lower (strip (py_str rt v))) truths) /\
  (forall rt : Runtime, normalize_3x rt scd_frame = OK scd_catalog) /\
  map scd scd_catalog
  = [true; true; true; true; false; false; false; false] /\
  (forall rt : Runtime,
      map (to_bool rt) [PStr "TRUE"; PStr "1"; PStr "Yes"; PStr "y"]
      = [true; true; true; true] /\
      map (to_bool rt) [PStr ""; PStr "no"; PStr "0"; PNone]
      = [false; false; false; false]).
Proof.
  split; [|split; [|split; [apply to_bool_eq |
                    split; [reflexivity|
                    split; [reflexivity|intros rt; split; reflexivity]]]]].
  - intros rt df out H.
    apply normalize_3x_rows in H as (id_c & label_c & Hi & Hl & ->).
    exists id_c, label_c. repeat split; auto.
    + now rewrite map_map.
    + intros Hnone. apply select_column_none in Hnone.
      apply Forall_forall. intros h Hin.
      apply in_map_iff in Hin as (r & <- & _). simpl.
      unfold derive_scd. now rewrite Hnone.
  - intros rt df id_c label_c _ Hi Hl.
    destruct (normalize_3x rt df) as [out|e] eqn:E.
    + exists out. split; [reflexivity|].
      apply normalize_3x_rows in E as (i & l & Hi' & Hl' & ->).
      rewrite Hi in Hi'. rewrite Hl in Hl'.
      inversion Hi'; inversion Hl'; subst i l.
      now rewrite map_map.
    + exfalso. rewrite normalize_3x_eq, Hi, Hl in E. discriminate.
Qed.

Lemma normalize_3x_scd_spec_witness :
  exists out : list HierarchicalCategory,
    normalize_3x bare_runtime scd_frame = OK out /\
    map scd out = [true; true; true; true; false; false; false; false].
Proof.
  destruct (proj1 (proj2 normalize_3x_scd_spec) bare_runtime scd_frame
              "ID" "Name" eq_refl eq_refl eq_refl) as (out & Hout & Hmap).
  exists out. split; [exact Hout|]. rewrite Hmap. reflexivity.
Defined.

(** ** Tree flattening *)

Lemma first_present_2 (node : Row) (a b : string) :
  first_present node [a; b] =
  if truthy (py_or (row_get node a) (row_get node b))
  then Some (py_or (row_get node a) (row_get node b))
  else None.
Proof.
  unfold py_or. simpl.
  destruct (truthy (row_get node a)) eqn:Ea; rewrite ?Ea; [reflexivity|].
  destruct (truthy (row_get node b)) eqn:Eb; rewrite ?Eb; reflexivity.
Qed.

Lemma node_flag_eq (node : Row) :
  py_or (py_or (row_get node "scd") (row_get node "is_scd"))
        (row_get node "sensitive") = node_flag node.
Proof.
  unfold node_flag, py_or. simpl.
  destruct (truthy (row_get node "scd")) eqn:Ea; rewrite ?Ea; [reflexivity|].
  destruct (truthy (row_get node "is_scd")) eqn:Eb; rewrite ?Eb;
    [reflexivity|].
  destruct (truthy (row_get node "sensitive")); reflexivity.
Qed.

Lemma node_children_eq (node : Row) :
  iter_values (py_or (py_or (row_get node "children") (row_get node "nodes"))
                     (PList [])) = node_children node.
Proof.
  unfold node_children. rewrite first_present_2. unfold py_or at 1.
  destruct (truthy (py_or (row_get node "children") (row_get node "nodes")));
    reflexivity.
Qed.

(** One call of [walk]: the node's own row is appended, then the children
    are visited below the extended ancestors. *)
Lemma walk_step (fuel : nat) (node : Row) (anc : list pyval) (acc : list Row) :
  walk (S fuel) node anc acc =
  match node_children node with
  | Raise e => Raise e
  | OK kids =>
      for_each_dict (fun c rs => walk fuel c (child_ancestors anc node) rs)
                    kids (acc ++ own_rows anc node)
  end.
Proof.
  cbn [walk]. rewrite node_children_eq, node_flag_eq.
  unfold own_rows, child_ancestors. rewrite !first_present_2.
  destruct (node_children node) as [kids|e]; [|reflexivity].
  destruct (truthy (py_or (row_get node "id") (row_get node "code")));
    destruct (truthy (py_or (row_get node "label") (row_get node "name")));
    simpl andb; cbv iota; rewrite ?app_nil_r; reflexivity.
Qed.

Lemma for_each_dict_other (visit : Row -> list Row -> result (list Row))
  (c : pyval) (cs : list pyval) (acc : list Row) :
  is_dict c = false ->
  for_each_dict visit (c :: cs) acc = for_each_dict visit cs acc.
Proof. destruct c; simpl; intros H; (reflexivity || discriminate). Qed.

Lemma dict_get_depth (kv : Row) (k : string) (v : pyval) :
  dict_get kv k = Some v -> depth v <= values_depth kv.
Proof.
  unfold values_depth.
  induction kv as [|[k0 v0] kv IH]; simpl; [discriminate|].
  destruct (String.eqb k0 k).
  - intros H; inversion H; subst. lia.
  - intros H. specialize (IH H). lia.
Qed.

Lemma first_present_depth (node : Row) (aliases : list string) (v : pyval) :
  first_present node aliases = Some v -> depth v <= values_depth node.
Proof.
  induction aliases as [|a rest IH]; simpl; [discriminate|].
  destruct (truthy (row_get node a)); [|assumption].
  intros H; inversion H; subst. unfold row_get.
  destruct (dict_get node a) eqn:E; [eauto using dict_get_depth | simpl; lia].
Qed.

Lemma chars_of_depth (s : string) (n : nat) :
  Forall (fun k => depth k <= n) (chars_of s).
Proof. induction s; simpl; constructor; simpl; auto; lia. Qed.

Lemma list_depth (l : list pyval) (k : pyval) :
  In k l -> depth k <= fold_right (fun x acc => Nat.max (depth x) acc) 0 l.
Proof.
  induction l as [|x l IH]; simpl; [tauto|].
  intros [->|H]; [lia|]. specialize (IH H). lia.
Qed.

(** The children of a node are at least two levels less deep than it. *)
Lemma node_children_depth (node : Row) (kids : list pyval) (fuel : nat) :
  node_children node = OK kids -> depth (PDict node) <= S fuel ->
  Forall (fun k => depth k <= fuel) kids.
Proof.
  unfold node_children. change (depth (PDict node)) with (S (values_depth node)).
  destruct (first_present node ["children"; "nodes"]) as [v|] eqn:E.
  - apply first_present_depth in E. intros Hv Hd.
    destruct v as [| | | |s|l|kv]; simpl in Hv; try discriminate;
      inversion Hv; subst.
    + apply chars_of_depth.
    + apply Forall_forall. intros k Hk. apply list_depth in Hk.
      simpl in E. lia.
    + apply Forall_forall. intros k Hk.
      apply in_map_iff in Hk as (p & <- & _). simpl. lia.
  - intros H _; inversion H; constructor.
Qed.

(** Completeness: what the relation derives, the walk computes, with any
    fuel that covers the depth of the nodes. *)
Lemma flattens_walk (anc : list pyval) (cs : list pyval) (rows : list Row) :
  Flattens anc cs rows ->
  forall (fuel : nat) (acc : list Row),
    Forall (fun c => depth c <= fuel) cs ->
    for_each_dict (fun n rs => walk fuel n anc rs) cs acc = OK (acc ++ rows).
Proof.
  induction 1 as [anc|anc c cs out Hc _ IH|anc node cs kids sub out Hk _ IHk _ IH];
    intros fuel acc Hd.
  - simpl. now rewrite app_nil_r.
  - rewrite for_each_dict_other by assumption.
    apply IH. now inversion Hd.
  - inversion Hd as [|? ? Hnode Hcs]; subst.
    destruct fuel as [|fuel]; [simpl in Hnode; lia|].
    cbn [for_each_dict]. cbv beta. rewrite walk_step, Hk.
    rewrite IHk by (eapply node_children_depth; eauto).
    rewrite IH by assumption. now rewrite <- !app_assoc.
Qed.

(** Soundness: what the walk returns, the relation derives. *)
Lemma for_each_dict_flattens (visit : Row -> list Row -> result (list Row))
  (anc : list pyval) :
  (forall node acc out, visit node acc = OK out ->
     exists kids sub, node_children node = OK kids /\
       Flattens (child_ancestors anc node) kids sub /\
       out = acc ++ own_rows anc node ++ sub) ->
  forall cs acc out, for_each_dict visit cs acc = OK out ->
    exists rows, out = acc ++ rows /\ Flattens anc cs rows.
Proof.
  intros Hvisit. induction cs as [|c cs IH]; intros acc out H.
  - simpl in H. inversion H; subst. exists []. rewrite app_nil_r.
    split; [reflexivity | constructor].
  - destruct (is_dict c) eqn:Hc.
    + destruct c; try discriminate. simpl in H.
      destruct (visit kv acc) as [rows1|e] eqn:Ev; [|discriminate].
      apply Hvisit in Ev as (kids & sub & Hk & Hsub & ->).
      apply IH in H as (rows & -> & Hrows).
      exists (own_rows anc kv ++ sub ++ rows). rewrite <- !app_assoc.
      split; [reflexivity | eapply Flattens_node; eauto].
    + rewrite for_each_dict_other in H by assumption.
      apply IH in H as (rows & -> & Hrows).
      exists rows. split; [reflexivity | now constructor].
Qed.

Lemma walk_flattens (fuel : nat) :
  forall node anc acc out, walk fuel node anc acc = OK out ->
    exists kids sub, node_children node = OK kids /\
      Flattens (child_ancestors anc node) kids sub /\
      out = acc ++ own_rows anc node ++ sub.
Proof.
  induction fuel as [|fuel IH]; intros node anc acc out H.
  - discriminate.
  - rewrite walk_step in H.
    destruct (node_children node) as [kids|e] eqn:Hk; [|discriminate].
    apply for_each_dict_flattens with (anc := child_ancestors anc node) in H.
    + destruct H as (sub & -> & Hsub). exists kids, sub.
      rewrite <- app_assoc. auto.
    + intros n a o Hn. apply IH in Hn. exact Hn.
Qed.

(** The only error of a walk is an uniterable value: fuel that covers the
    depth of the nodes is never exhausted. *)
Lemma for_each_dict_raise (visit : Row -> list Row -> result (list Row))
  (cs : list pyval) :
  (forall node acc e, In (PDict node) cs -> visit node acc = Raise e ->
     e = TypeError) ->
  forall acc e, for_each_dict visit cs acc = Raise e -> e = TypeError.
Proof.
  induction cs as [|c cs IH]; intros Hvisit acc e H; [discriminate|].
  assert (Hcs : forall node acc e, In (PDict node) cs ->
            visit node acc = Raise e -> e = TypeError)
    by (intros; eapply Hvisit; [right|]; eauto).
  destruct (is_dict c) eqn:Hc.
  - destruct c; try discriminate. simpl in H.
    destruct (visit kv acc) as [rows1|e1] eqn:Ev; [eauto|].
    inversion H; subst. eapply Hvisit; [left; reflexivity | eauto].
  - rewrite for_each_dict_other in H by assumption. eauto.
Qed.

Lemma iter_values_raise (v : pyval) (e : exn) :
  iter_values v = Raise e -> e = TypeError.
Proof. destruct v; simpl; intros H; inversion H; reflexivity. Qed.

Lemma walk_raise (fuel : nat) :
  forall node anc acc e, depth (PDict node) <= fuel ->
    walk fuel node anc acc = Raise e -> e = TypeError.
Proof.
  induction fuel as [|fuel IH]; intros node anc acc e Hd H.
  - simpl in Hd. lia.
  - rewrite walk_step in H.
    destruct (node_children node) as [kids|e1] eqn:Hk.
    + apply for_each_dict_raise in H; [exact H|].
      intros n a e' Hin Hn. apply (IH _ _ _ _) in Hn; [exact Hn|].
      pose proof (@node_children_depth _ _ _ Hk Hd) as Hkids.
      rewrite Forall_forall in Hkids. now apply Hkids.
    + inversion H; subst. unfold node_children in Hk.
      destruct (first_present node ["children"; "nodes"]); [|discriminate].
      eauto using iter_values_raise.
Qed.

Lemma walk_data_raise (data : pyval) (e : exn) :
  walk_data data = Raise e -> e = TypeError.
Proof.
  destruct data; unfold walk_data; try discriminate.
  - intros H. apply for_each_dict_raise in H; [exact H|].
    intros n a e' Hin Hn. apply walk_raise in Hn; [exact Hn|].
    apply list_depth in Hin. simpl in *. lia.
  - apply walk_raise. lia.
Qed.

Lemma roots_depth (data : pyval) :
  Forall (fun c => depth c <= depth data) (roots data).
Proof.
  destruct data; simpl roots; try constructor; auto.
  apply Forall_forall. intros k Hk. apply list_depth in Hk. simpl. lia.
Qed.

Lemma walk_data_roots (data : pyval) :
  walk_data data =
  for_each_dict (fun n rs => walk (depth data) n [] rs) (roots data) [].
Proof.
  destruct data; try reflexivity.
  unfold walk_data, roots. cbn [for_each_dict].
  destruct (walk (depth (PDict kv)) kv [] []); reflexivity.
Qed.

Lemma parse_table_json (rt : Runtime) (text fname : string) (data : pyval) :
  is_tabular fname = false -> json_loads rt text = Some data ->
  is_flat_list data = false ->
  parse_table rt text fname =
  match walk_data data with
  | OK rows => OK (frame_of_records rows)
  | Raise e => Raise e
  end.
Proof.
  unfold is_tabular, parse_table. intros Hext Hjson Hflat.
  apply orb_false_elim in Hext as [-> ->]. rewrite Hjson.
  destruct data as [| | | | |l|]; try reflexivity.
  destruct l as [|c l]; [reflexivity|].
  destruct c; try reflexivity. discriminate.
Qed.

Lemma walk_data_flattens (data : pyval) (rows : list Row) :
  walk_data data = OK rows <-> Flattens [] (roots data) rows.
Proof.
  rewrite walk_data_roots. split.
  - intros H.
    apply for_each_dict_flattens with (anc := @nil pyval) in H.
    + destruct H as (rows' & -> & H). exact H.
    + intros n a o Hn. exact (walk_flattens _ _ _ _ Hn).
  - intros H. apply (flattens_walk H). apply roots_depth.
Qed.





(** ** Paths of tree-shaped input after normalization *)

Lemma own_rows_shaped (anc : list pyval) (node : Row) :
  Forall walk_shaped (own_rows anc node).
Proof.
  unfold own_rows.
  destruct (first_present node ["id"; "code"]) as [nid|]; [|constructor].
  destruct (first_present node ["label"; "name"]) as [lbl|]; constructor.
  - now exists nid, lbl, anc, (node_flag node).
  - constructor.
Qed.

Lemma Flattens_shaped (anc cs : list pyval) (rows : list Row) :
  Flattens anc cs rows -> Forall walk_shaped rows.
Proof.
  induction 1; auto. repeat (apply Forall_app; split); auto.
  apply own_rows_shaped.
Qed.

Lemma add_keys_shaped (rows : list Row) :
  Forall walk_shaped rows ->
  fold_left add_keys rows walk_columns = walk_columns.
Proof.
  induction 1 as [|r rows (nid & lbl & anc & flag & ->) _ IH]; simpl; auto.
Qed.

Lemma frame_of_shaped (rows : list Row) :
  Forall walk_shaped rows -> rows <> [] ->
  frame_of_records rows = {| columns := walk_columns; rows := rows |}.
Proof.
  intros Hall Hne. unfold frame_of_records.
  destruct rows as [|r rows]; [congruence|].
  inversion Hall as [|? ? (nid & lbl & anc & flag & ->) Hrows]; subst.
  simpl fold_left. change (add_keys [] (mk_row nid lbl anc flag))
    with walk_columns.
  rewrite add_keys_shaped by assumption. f_equal.
  clear Hne. induction Hall as [|r' rows' (n & l & a & f & ->) _ IH];
    simpl; [reflexivity|]. f_equal. apply IH.
Qed.

Lemma emit_3x_shaped (rt : Runtime) (r : Row) :
  walk_shaped r ->
  Forall (fun h => path h = [label h])
         (emit_3x rt "id" "label" (Some "path") [] (Some "scd") r).
Proof.
  intros (nid & lbl & anc & flag & ->). unfold emit_3x.
  destruct (kept_3x rt "id" "label" (mk_row nid lbl anc flag)); constructor.
  - reflexivity.
  - constructor.
Qed.

Lemma normalize_3x_shaped (rt : Runtime) (rows : list Row) :
  Forall walk_shaped rows ->
  exists out,
    normalize_3x rt {| columns := walk_columns; rows := rows |} = OK out /\
    Forall (fun h => path h = [label h]) out.
Proof.
  intros Hall. rewrite normalize_3x_eq. simpl.
  eexists. split; [reflexivity|].
  induction Hall as [|r rows Hr _ IH]; simpl; [constructor|].
  apply Forall_app. split; [|exact IH]. now apply emit_3x_shaped.
Qed.

(** C3.  For a document that is no flat list, parsed from a file without
    tabular extension: when the walk yields at least one row, normalizing
    the parsed table succeeds and every emitted category has the
    one-element path made of its own label, whatever the depth of its node
    (the path column holds lists, which the normalizer does not read, and
    there are no tier columns); when the walk yields no row, the table has
    no columns and normalization fails.  The child "1.1" of the example
    tree gets the path [Child], not [Root, Child]. *)
Theorem tree_paths_collapse :
  (forall (rt : Runtime) (text fname : string) (data : pyval)
          (rows : list Row),
      is_tabular fname = false -> json_loads rt text = Some data ->
      is_flat_list data = false -> walk_data data = OK rows ->
      (rows <> [] ->
       exists out, parse_and_normalize_3x rt text fname = OK out /\
                   Forall (fun h => path h = [label h]) out) /\
      (rows = [] ->
       exists e, parse_and_normalize_3x rt text fname = Raise e)) /\
  parse_and_normalize_3x (runtime_loading root_node) "{...}" "taxonomy.json"
  = OK [ {| cat_id := "1"; label := "Root"; path := ["Root"]; scd := false |};
         {| cat_id := "1.1"; label := "Child"; path := ["Child"];
            scd := false |} ].
Proof.
  split; [|reflexivity].
  intros rt text fname data rows Hext Hjson Hflat Hwalk.
  unfold parse_and_normalize_3x.
  rewrite (@parse_table_json _ _ _ _ Hext Hjson Hflat), Hwalk.
  split.
  - intros Hne.
    assert (Hall : Forall walk_shaped rows).
    { apply walk_data_flattens in Hwalk. eauto using Flattens_shaped. }
    rewrite (@frame_of_shaped _ Hall Hne). now apply normalize_3x_shaped.
  - intros ->. eexists. reflexivity.
Qed.

Lemma tree_paths_collapse_witness :
  (mk_row (PStr "1") (PStr "Root") [] PNone ::
   [mk_row (PStr "1.1") (PStr "Child") [PStr "Root"] PNone] <> [] ->
   exists out,
     parse_and_normalize_3x (runtime_loading root_node) "{...}" "taxonomy.json"
     = OK out /\
     Forall (fun h => path h = [label h]) out) /\
  (mk_row (PStr "1") (PStr "Root") [] PNone ::
   [mk_row (PStr "1.1") (PStr "Child") [PStr "Root"] PNone] = [] ->
   exists e,
     parse_and_normalize_3x (runtime_loading root_node) "{...}" "taxonomy.json"
     = Raise e).
Proof.
  apply (proj1 tree_paths_collapse (runtime_loading root_node)
           "{...}" "taxonomy.json" root_node); reflexivity.
Defined.

(** ** Header detection *)

Lemma prefix_iff (p s : string) :
  String.prefix p s = true <-> exists post, s = (p ++ post)%string.
Proof.
  revert s; induction p as [|x p IH]; intros s; simpl.
  - split; [|destruct s; reflexivity]. intros _. now exists s.
  - destruct s as [|y s]; simpl.
    + split; [discriminate|]. intros (post & H). discriminate.
    + destruct (ascii_dec x y) as [->|Hne].
      * rewrite IH. split; intros (post & H); exists post.
        -- now rewrite H.
        -- now inversion H.
      * split; [discriminate|]. intros (post & H). inversion H. congruence.
Qed.

Lemma contains_eq (p s : string) :
  contains p s =
  String.prefix p s ||
  match s with
  | EmptyString => false
  | String _ s' => contains p s'
  end.
Proof. destruct s; reflexivity. Qed.

(** [contains p s] is the substring test. *)
Lemma contains_iff (p s : string) :
  contains p s = true <-> exists pre post, s = (pre ++ p ++ post)%string.
Proof.
  induction s as [|c s IH]; rewrite contains_eq.
  - rewrite orb_false_r, prefix_iff. split.
    + intros (post & H). now exists EmptyString, post.
    + intros (pre & post & H). destruct pre; simpl in H; [eauto|discriminate].
  - rewrite orb_true_iff, prefix_iff, IH. split.
    + intros [(post & H)|(pre & post & ->)].
      * now exists EmptyString, post.
      * now exists (String c pre), post.
    + intros (pre & post & H). destruct pre as [|x pre]; simpl in H.
      * left. eauto.
      * right. inversion H. eauto.
Qed.

Lemma scan_header_some (lines : list string) (i h : nat) :
  scan_header i lines = Some h ->
  exists k line,
    h = i + k /\ nth_error lines k = Some line /\
    is_header_line line = true /\
    forall j l, j < k -> nth_error lines j = Some l ->
                is_header_line l = false.
Proof.
  revert i; induction lines as [|line lines IH]; intros i; simpl;
    [discriminate|].
  destruct (is_header_line line) eqn:E.
  - intros H; inversion H; subst. exists 0, line.
    split; [lia|]. split; [reflexivity|]. split; [assumption|].
    intros j l Hj; lia.
  - intros H. apply IH in H as (k & l0 & -> & Hk & Hl0 & Hbefore).
    exists (S k), l0.
    split; [lia|]. split; [assumption|]. split; [assumption|].
    intros [|j] l Hj Hl; simpl in Hl; [congruence|].
    apply (Hbefore j); [lia | assumption].
Qed.

Lemma scan_header_none (lines : list string) (i : nat) :
  scan_header i lines = None ->
  forall j l, nth_error lines j = Some l -> is_header_line l = false.
Proof.
  revert i; induction lines as [|line lines IH]; intros i; simpl.
  - intros _ [|j] l H; discriminate.
  - destruct (is_header_line line) eqn:E; [discriminate|].
    intros H [|j] l Hl; simpl in Hl; [congruence | eauto].
Qed.

Lemma nth_error_firstn_lt (A : Type) (n j : nat) (l : list A) :
  j < n -> nth_error (firstn n l) j = nth_error l j.
Proof.
  revert j l; induction n as [|n IH]; intros j l Hj; [lia|].
  destruct l as [|a l]; [reflexivity|].
  destruct j as [|j]; simpl; [reflexivity|]. apply IH. lia.
Qed.

Lemma nth_error_firstn_some (A : Type) (n j : nat) (l : list A) (a : A) :
  nth_error (firstn n l) j = Some a -> j < n /\ nth_error l j = Some a.
Proof.
  revert j l; induction n as [|n IH]; intros j l; simpl.
  - destruct j; discriminate.
  - destruct l as [|x l]; [destruct j; discriminate|].
    destruct j as [|j]; simpl.
    + intros H; split; [lia | assumption].
    + intros H. apply IH in H as [? ?]. split; [lia | assumption].
Qed.

Lemma header_index_spec (text : string) :
  (header_index text < 10 /\
   exists line,
     nth_error (splitlines text) (header_index text) = Some line /\
     is_header_line line = true /\
     forall j l, j < header_index text ->
                 nth_error (splitlines text) j = Some l ->
                 is_header_line l = false) \/
  (header_index text = 0 /\
   forall j l, j < 10 -> nth_error (splitlines text) j = Some l ->
               is_header_line l = false).
Proof.
  unfold header_index.
  destruct (scan_header 0 (firstn 10 (splitlines text))) as [h|] eqn:E.
  - left. apply scan_header_some in E as (k & line & -> & Hk & Hline & Hbefore).
    simpl. apply nth_error_firstn_some in Hk as [Hlt Hk].
    split; [assumption|]. exists line. repeat split; auto.
    intros j l Hj Hl. apply (Hbefore j l Hj).
    rewrite nth_error_firstn_lt by lia. assumption.
  - right. split; [reflexivity|]. intros j l Hj Hl.
    apply (scan_header_none _ _ E j). now rewrite nth_error_firstn_lt.
Qed.

Lemma parse_table_tabular (rt : Runtime) (text fname : string) (sep : ascii) :
  tabular_sep fname = Some sep ->
  parse_table rt text fname
  = of_library (read_csv rt text sep (header_index text)).
Proof.
  unfold tabular_sep, parse_table.
  destruct (endswith (lower fname) ".tsv");
    [|destruct (endswith (lower fname) ".csv")];
    intros H; inversion H; reflexivity.
Qed.

Lemma tabular_sep_some (fname : string) :
  is_tabular fname = true <-> exists sep, tabular_sep fname = Some sep.
Proof.
  unfold is_tabular, tabular_sep.
  destruct (endswith (lower fname) ".tsv");
    [|destruct (endswith (lower fname) ".csv")]; simpl.
  - split; eauto.
  - split; eauto.
  - split; [discriminate|]. intros (sep & H). discriminate.
Qed.

(** C7, as stated, fails on the tokens of the header line: in the text
    whose line 2 is "Unique ID", tab, " Name " the header index is 2 and
    the trimmed header tokens are "Unique ID" and "Name", while the table
    the parser returns is the one of [pandas.read_csv], whose second column
    is labelled " Name " with its spaces; the hierarchical normalizer then
    finds no label column in it. *)
Lemma parse_table_header_tokens_counterexample :
  header_index preamble_text = 2 /\
  header_tokens_stated tab preamble_text = ["Unique ID"; "Name"] /\
  parse_table preamble_runtime preamble_text "Content Taxonomy 3.1.tsv"
  = OK preamble_table /\
  columns preamble_table = ["Unique ID"; " Name "] /\
  columns preamble_table <> header_tokens_stated tab preamble_text /\
  normalize_3x preamble_runtime preamble_table
  = Raise (SchemaInferenceError "3.x").
Proof. repeat split. discriminate. Qed.

(** C7, amended.  For a name with a tabular extension (.tsv or .csv in any
    letter case) the parser hands the whole text to the reader, with the
    tab or the comma as delimiter and the header index, and returns the
    reader's table as it is, or fails with the reader's error: the script
    itself drops no line and trims no header token.  The header index is
    the index of the first line, among the first 10 lines of the text, that
    contains both "unique id" and "name" when lower-cased, and 0 when no
    line in the window does.  A tab-separated text whose line 2 is the
    first such line is handed to the reader with the header index 2. *)
Theorem parse_table_header_spec :
  (forall (rt : Runtime) (text fname : string) (sep : ascii),
      tabular_sep fname = Some sep ->
      parse_table rt text fname
      = of_library (read_csv rt text sep (header_index text))) /\
  (forall fname : string,
      (is_tabular fname = true <-> exists sep, tabular_sep fname = Some sep) /\
      (endswith (lower fname) ".tsv" = true -> tabular_sep fname = Some tab) /\
      (endswith (lower fname) ".tsv" = false ->
       endswith (lower fname) ".csv" = true ->
       tabular_sep fname = Some comma)) /\
  (forall (rt : Runtime) (text fname : string) (sep : ascii) (df : DataFrame),
      tabular_sep fname = Some sep ->
      (parse_table rt text fname = OK df <->
       read_csv rt text sep (header_index text) = inl df)) /\
  (forall (rt : Runtime) (text fname : string) (sep : ascii) (e : exn),
      tabular_sep fname = Some sep ->
      (parse_table rt text fname = Raise e <->
       exists msg, read_csv rt text sep (header_index text) = inr msg /\
                   e = LibraryError msg)) /\
  (forall text : string,
      (header_index text < 10 /\
       exists line,
         nth_error (splitlines text) (header_index text) = Some line /\
         is_header_line line = true /\
         forall j l, j < header_index text ->
                     nth_error (splitlines text) j = Some l ->
                     is_header_line l = false) \/
      (header_index text = 0 /\
       forall j l, j < 10 -> nth_error (splitlines text) j = Some l ->
                   is_header_line l = false)) /\
  (forall line : string,
      is_header_line line = true <->
      (exists a b, lower line = (a ++ "unique id" ++ b)%string) /\
      (exists a b, lower line = (a ++ "name" ++ b)%string)) /\
  header_index preamble_text = 2 /\
  (forall rt : Runtime,
      parse_table rt preamble_text "Content Taxonomy 3.1.TSV"
      = of_library (read_csv rt preamble_text tab 2)).
Proof.
  split; [exact parse_table_tabular|].
  split; [|split; [|split; [|split; [exact header_index_spec|]]]].
  - intros fname. split; [apply tabular_sep_some|].
    unfold tabular_sep. split.
    + now intros ->.
    + now intros -> ->.
  - intros rt text fname sep df Hsep.
    rewrite (@parse_table_tabular _ _ _ _ Hsep).
    destruct (read_csv rt text sep (header_index text)); simpl; split;
      congruence.
  - intros rt text fname sep e Hsep.
    rewrite (@parse_table_tabular _ _ _ _ Hsep).
    destruct (read_csv rt text sep (header_index text)) as [df|msg]; simpl.
    + split; [discriminate|]. intros (m & H & _). discriminate.
    + split.
      * intros H. exists msg. split; congruence.
      * intros (m & H & ->). congruence.
  - split; [|split; [reflexivity|]].
    + intros line. unfold is_header_line.
      rewrite andb_true_iff, !contains_iff. reflexivity.
    + intros rt. reflexivity.
Qed.

Lemma parse_table_header_spec_witness :
  parse_table preamble_runtime preamble_text "Content Taxonomy 3.1.TSV"
  = of_library
      (read_csv preamble_runtime preamble_text tab
                (header_index preamble_text)).
Proof.
  apply (proj1 parse_table_header_spec
           preamble_runtime preamble_text "Content Taxonomy 3.1.TSV" tab).
  reflexivity.
Defined.

(** ** Pipeline driver *)

Section DriverFacts.
Variable rt : Runtime.
Variable w : World.

(** The 3.x branch, step by step. *)
Lemma branch_3x_run (f3 : FileMeta) (tr : list event) :
  branch_3x rt w f3 tr =
  let tr1 := tr ++ [Print (Downloading "3.x" (name f3))] in
  match download_text w (download_url f3) with
  | Raise e => (Raise e, tr1)
  | OK txt3 =>
      let tr2 := tr1 ++ [WriteRaw (name f3) txt3] in
      match parse_table rt txt3 (name f3) with
      | Raise e => (Raise e, tr2)
      | OK df3 =>
          match normalize_3x rt df3 with
          | OK norm3 =>
              (OK tt, tr2 ++ [SaveJson3 norm3;
                              Print (Wrote "3.x" (length norm3))])
          | Raise e => (OK tt, tr2 ++ [Print (NormalizeFailed "3.x" e)])
          end
      end
  end.
Proof.
  unfold branch_3x, bind, call, emit, try_except. cbv zeta.
  destruct (download_text w (download_url f3)) as [txt3|e]; [|reflexivity].
  destruct (parse_table rt txt3 (name f3)) as [df3|e]; [|reflexivity].
  destruct (normalize_3x rt df3) as [norm3|e]; [|reflexivity].
  now rewrite <- app_assoc.
Qed.

(** The 2.x branch, step by step. *)
Lemma branch_2x_run (f2 : FileMeta) (tr : list event) :
  branch_2x rt w f2 tr =
  let tr1 := tr ++ [Print (Downloading "2.x" (name f2))] in
  match download_text w (download_url f2) with
  | Raise e => (Raise e, tr1)
  | OK txt2 =>
      let tr2 := tr1 ++ [WriteRaw (name f2) txt2] in
      match parse_table rt txt2 (name f2) with
      | Raise e => (Raise e, tr2)
      | OK df2 =>
          match normalize_2x rt df2 with
          | OK norm2 =>
              (OK tt, tr2 ++ [SaveJson2 norm2;
                              Print (Wrote "2.x" (length norm2))])
          | Raise e => (OK tt, tr2 ++ [Print (NormalizeFailed "2.x" e)])
          end
      end
  end.
Proof.
  unfold branch_2x, bind, call, emit, try_except. cbv zeta.
  destruct (download_text w (download_url f2)) as [txt2|e]; [|reflexivity].
  destruct (parse_table rt txt2 (name f2)) as [df2|e]; [|reflexivity].
  destruct (normalize_2x rt df2) as [norm2|e]; [|reflexivity].
  now rewrite <- app_assoc.
Qed.

Lemma main_run :
  main rt w [] =
  match list_content_files w with
  | Raise e => (Raise e, [Print Listing])
  | OK files =>
      match pick_latest files 3 with
      | None => (OK 1%Z, [Print Listing; Print Missing3x])
      | Some f3 =>
          match branch_3x rt w f3 (preamble (pick_latest files 2)) with
          | (Raise e, tr) => (Raise e, tr)
          | (OK _, tr) =>
              match pick_latest files 2 with
              | None => (OK 0%Z, tr ++ [Print Done])
              | Some f2 =>
                  match branch_2x rt w f2 tr with
                  | (Raise e, tr') => (Raise e, tr')
                  | (OK _, tr') => (OK 0%Z, tr' ++ [Print Done])
                  end
              end
          end
      end
  end.
Proof.
  unfold main, bind, call, emit, ret. cbn [app].
  destruct (list_content_files w) as [files|e]; [|reflexivity].
  destruct (pick_latest files 3) as [f3|]; [|reflexivity].
  destruct (pick_latest files 2) as [f2|]; cbn [app preamble].
  - destruct (branch_3x rt w f3 [Print Listing; MakeRawDir]) as [[[]|e] tr];
      [|reflexivity].
    destruct (branch_2x rt w f2 tr) as [[[]|e] tr']; reflexivity.
  - destruct (branch_3x rt w f3 [Print Listing; Print Missing2x; MakeRawDir])
      as [[[]|e] tr]; reflexivity.
Qed.

End DriverFacts.

Ltac settle_wrote :=
  repeat match goal with
         | |- _ /\ _ => split
         | |- _ = _ => reflexivity
         | |- true = true <-> _ => split; [intros _; eauto | reflexivity]
         | |- false = true <-> _ =>
             split; [discriminate | intros [? ?]; discriminate]
         end.

Section DriverClaims.
Variable rt : Runtime.
Variable w : World.



Section Located3x.
Variables (files : list FileMeta) (f3 : FileMeta).
Hypothesis Hfiles : list_content_files w = OK files.
Hypothesis Hf3 : pick_latest files 3 = Some f3.


Lemma main_3x_parse_fails (txt3 : string) (e : exn) :
  download_text w (download_url f3) = OK txt3 ->
  parse_table rt txt3 (name f3) = Raise e ->
  fst (main rt w []) = Raise e /\ completion_code rt w = 1%Z /\
  wrote_3x (trace rt w) = false /\ wrote_2x (trace rt w) = false /\
  started_2x (trace rt w) = false.
Proof.
  intros Hd Hp. unfold completion_code, trace, run.
  rewrite main_run, Hfiles, Hf3, branch_3x_run. cbv zeta. rewrite Hd, Hp.
  destruct (pick_latest files 2); settle_wrote.
Qed.

Section Parsed3x.
Variables (txt3 : string) (df3 : DataFrame).
Hypothesis Hd3 : download_text w (download_url f3) = OK txt3.
Hypothesis Hp3 : parse_table rt txt3 (name f3) = OK df3.



Lemma main_2x_parse_fails (f2 : FileMeta) (txt2 : string) (e : exn) :
  pick_latest files 2 = Some f2 ->
  download_text w (download_url f2) = OK txt2 ->
  parse_table rt txt2 (name f2) = Raise e ->
  fst (main rt w []) = Raise e /\ completion_code rt w = 1%Z /\
  wrote_2x (trace rt w) = false /\
  (wrote_3x (trace rt w) = true <-> exists out, normalize_3x rt df3 = OK out).
Proof.
  intros H2 Hd2 Hp2. unfold completion_code, trace, run.
  rewrite main_run, Hfiles, Hf3, branch_3x_run, H2. cbv zeta.
  rewrite Hd3, Hp3.
  destruct (normalize_3x rt df3) as [norm3|e3]; rewrite branch_2x_run;
    cbv zeta; rewrite Hd2, Hp2; simpl; settle_wrote.
Qed.


End Parsed3x.
End Located3x.
End DriverClaims.




(** ** Format errors *)

Lemma parse_table_raise (rt : Runtime) (text fname : string) (e : exn) :
  parse_table rt text fname = Raise e ->
  (e = FormatError fname /\ is_tabular fname = false /\
   json_loads rt text = None) \/
  e = TypeError \/ exists msg, e = LibraryError msg.
Proof.
  assert (Hlib : forall r : DataFrame + string,
             of_library r = Raise e -> exists msg, e = LibraryError msg).
  { intros [df|msg] H; inversion H. eauto. }
  assert (Hwalk : forall data,
             match walk_data data with
             | OK rows => OK (frame_of_records rows)
             | Raise e' => Raise e'
             end = Raise e -> e = TypeError).
  { intros data H. destruct (walk_data data) as [rows|e'] eqn:E;
      inversion H; subst. eauto using walk_data_raise. }
  unfold parse_table, is_tabular.
  destruct (endswith (lower fname) ".tsv"); [eauto|].
  destruct (endswith (lower fname) ".csv"); [eauto|].
  destruct (json_loads rt text) as [data|].
  - destruct data as [| | | | |l|]; eauto.
    destruct l as [|c l]; eauto. destruct c; eauto.
    unfold frame_of_list. destruct (all_dicts _); [discriminate | eauto].
  - intros H; inversion H. auto.
Qed.

(** C2, as stated, fails twice.  A text that parses as JSON need not yield
    a table: a node whose children value is a number makes the walk raise a
    type error.  And a format error is not caught at the branch boundary:
    with both files listed and both downloads working, a 3.x text that is
    neither tabular nor JSON makes the exception leave [main] before the 2.x
    branch starts. *)
Lemma parse_table_format_error_counterexample :
  json_loads (runtime_loading root_with_number) "{...}"
    = Some root_with_number /\
  parse_table (runtime_loading root_with_number) "{...}" "taxonomy.json"
    = Raise TypeError /\
  pick_latest [file_3x; file_2x] 2 = Some file_2x /\
  download_text world_3x_garbled (download_url file_2x) = OK "[...]" /\
  (exists df, parse_table json_runtime "[...]" (name file_2x) = OK df) /\
  parse_table json_runtime "<html>" (name file_3x)
    = Raise (FormatError (name file_3x)) /\
  fst (main json_runtime world_3x_garbled [])
    = Raise (FormatError (name file_3x)) /\
  started_2x (trace json_runtime world_3x_garbled) = false /\
  wrote_2x (trace json_runtime world_3x_garbled) = false.
Proof. repeat split. eexists. reflexivity. Qed.

(** C2, amended.  [parse_table] raises the format error exactly when the
    name has neither tabular extension and the text is not valid JSON; on
    every other input it does not raise that error: it returns a table or
    fails with a type error of the walk or with an error of the table
    library.  A format error is not caught by [main]: raised on the 3.x
    branch it ends the run with completion code 1 before anything is written
    to a catalog and before the 2.x branch starts; raised on the 2.x branch
    it ends the run with completion code 1 after the 3.x branch has
    completed. *)
Theorem parse_table_format_error_spec :
  (forall (rt : Runtime) (text fname : string),
      parse_table rt text fname = Raise (FormatError fname) <->
      is_tabular fname = false /\ json_loads rt text = None) /\
  (forall (rt : Runtime) (text fname : string) (e : exn),
      parse_table rt text fname = Raise e ->
      e = FormatError fname \/ e = TypeError \/
      exists msg, e = LibraryError msg) /\
  (forall (rt : Runtime) (w : World) (files : list FileMeta) (f3 : FileMeta)
          (txt3 : string),
      list_content_files w = OK files ->
      pick_latest files 3 = Some f3 ->
      download_text w (download_url f3) = OK txt3 ->
      parse_table rt txt3 (name f3) = Raise (FormatError (name f3)) ->
      fst (main rt w []) = Raise (FormatError (name f3)) /\
      completion_code rt w = 1%Z /\
      wrote_3x (trace rt w) = false /\ wrote_2x (trace rt w) = false /\
      started_2x (trace rt w) = false) /\
  (forall (rt : Runtime) (w : World) (files : list FileMeta) (f3 f2 : FileMeta)
          (txt3 txt2 : string) (df3 : DataFrame),
      list_content_files w = OK files ->
      pick_latest files 3 = Some f3 ->
      download_text w (download_url f3) = OK txt3 ->
      parse_table rt txt3 (name f3) = OK df3 ->
      pick_latest files 2 = Some f2 ->
      download_text w (download_url f2) = OK txt2 ->
      parse_table rt txt2 (name f2) = Raise (FormatError (name f2)) ->
      fst (main rt w []) = Raise (FormatError (name f2)) /\
      completion_code rt w = 1%Z /\ wrote_2x (trace rt w) = false /\
      (wrote_3x (trace rt w) = true <->
       exists out, normalize_3x rt df3 = OK out)).
Proof.
  split; [|split; [|split]].
  - intros rt text fname. split.
    + intros H. apply parse_table_raise in H as [(_ & ? & ?)|[H|(msg & H)]];
        [auto | discriminate | discriminate].
    + unfold parse_table, is_tabular. intros [Hext Hjson].
      apply orb_false_elim in Hext as [-> ->]. now rewrite Hjson.
  - intros rt text fname e H.
    apply parse_table_raise in H as [(? & _)|[?|?]]; auto.
  - intros rt w files f3 txt3 Hfiles Hf3 Hd3 Hp3.
    exact (@main_3x_parse_fails rt w files f3 Hfiles Hf3 txt3 _ Hd3 Hp3).
  - intros rt w files f3 f2 txt3 txt2 df3 Hfiles Hf3 Hd3 Hp3 H2 Hd2 Hp2.
    exact (@main_2x_parse_fails rt w files f3 Hfiles Hf3 txt3 df3 Hd3 Hp3
             f2 txt2 _ H2 Hd2 Hp2).
Qed.

Lemma parse_table_format_error_spec_witness :
  fst (main json_runtime world_3x_garbled [])
    = Raise (FormatError (name file_3x)) /\
  completion_code json_runtime world_3x_garbled = 1%Z /\
  wrote_3x (trace json_runtime world_3x_garbled) = false /\
  wrote_2x (trace json_runtime world_3x_garbled) = false /\
  started_2x (trace json_runtime world_3x_garbled) = false.
Proof.
  apply (proj1 (proj2 (proj2 parse_table_format_error_spec))
           json_runtime world_3x_garbled [file_3x; file_2x] file_3x "<html>");
    reflexivity.
Defined.

(** ** Trimming and lower-casing *)

Lemma is_space_lower (c : ascii) : is_space (lower_char c) = is_space c.
Proof. each_ascii c. Qed.

Lemma is_digit_lower (c : ascii) : is_digit (lower_char c) = is_digit c.
Proof. each_ascii c. Qed.

Lemma lower_char_digit (c : ascii) : is_digit c = true -> lower_char c = c.
Proof. each_ascii c. Qed.

Lemma lower_char_idem (c : ascii) : lower_char (lower_char c) = lower_char c.
Proof. each_ascii c. Qed.

Lemma lower_idem (s : string) : lower (lower s) = lower s.
Proof.
  induction s as [|c s IH]; simpl; [reflexivity|].
  now rewrite lower_char_idem, IH.
Qed.

Lemma lower_app (a b : string) : lower (a ++ b) = (lower a ++ lower b)%string.
Proof. induction a as [|c a IH]; simpl; congruence. Qed.

Lemma lstrip_lower (s : string) : lstrip (lower s) = lower (lstrip s).
Proof.
  induction s as [|c s IH]; simpl; [reflexivity|].
  rewrite is_space_lower. destruct (is_space c); [assumption | reflexivity].
Qed.

Lemma rstrip_lower (s : string) : rstrip (lower s) = lower (rstrip s).
Proof.
  induction s as [|c s IH]; simpl; [reflexivity|].
  rewrite IH, is_space_lower.
  destruct (rstrip s); simpl; [destruct (is_space c)|]; reflexivity.
Qed.

Lemma strip_lower (s : string) : strip (lower s) = lower (strip s).
Proof. unfold strip. now rewrite lstrip_lower, rstrip_lower. Qed.

Lemma rstrip_eq (c : ascii) (s : string) :
  rstrip (String c s) =
  match rstrip s with
  | EmptyString => if is_space c then EmptyString else String c EmptyString
  | r => String c r
  end.
Proof. reflexivity. Qed.

Lemma rstrip_idem (s : string) : rstrip (rstrip s) = rstrip s.
Proof.
  induction s as [|c s IH]; [reflexivity|].
  rewrite rstrip_eq. destruct (rstrip s) as [|d r] eqn:E.
  - destruct (is_space c) eqn:Hc; [reflexivity|].
    rewrite rstrip_eq. simpl. now rewrite Hc.
  - rewrite rstrip_eq, IH. reflexivity.
Qed.

(** A string that is empty or starts with a character that is no space. *)
Lemma lstrip_fixed (s : string) :
  starts_with is_space s = false -> lstrip s = s.
Proof. destruct s as [|c s]; simpl; [reflexivity|]. now intros ->. Qed.

Lemma lstrip_starts (s : string) : starts_with is_space (lstrip s) = false.
Proof.
  induction s as [|c s IH]; simpl; [reflexivity|].
  destruct (is_space c) eqn:Hc; [assumption|]. simpl. assumption.
Qed.

Lemma rstrip_starts (s : string) :
  starts_with is_space s = false -> starts_with is_space (rstrip s) = false.
Proof.
  destruct s as [|c s]; [reflexivity|]. rewrite rstrip_eq. simpl. intros Hc.
  destruct (rstrip s); simpl; [rewrite Hc|]; auto.
Qed.

Lemma strip_idem (s : string) : strip (strip s) = strip s.
Proof.
  unfold strip. rewrite lstrip_fixed.
  - apply rstrip_idem.
  - apply rstrip_starts, lstrip_starts.
Qed.

Lemma lstrip_spaces_app (ws s : string) :
  all_chars is_space ws = true -> lstrip (ws ++ s) = lstrip s.
Proof.
  induction ws as [|c ws IH]; simpl; [reflexivity|]. intros H.
  apply andb_prop in H as [Hc Hws]. rewrite Hc. auto.
Qed.

Lemma rstrip_spaces (ws : string) :
  all_chars is_space ws = true -> rstrip ws = EmptyString.
Proof.
  induction ws as [|c ws IH]; simpl; [reflexivity|]. intros H.
  apply andb_prop in H as [Hc Hws]. now rewrite IH, Hc.
Qed.

Lemma rstrip_app_spaces (s ws : string) :
  all_chars is_space ws = true -> rstrip (s ++ ws) = rstrip s.
Proof.
  intros Hws. induction s as [|c s IH]; simpl.
  - now apply rstrip_spaces.
  - now rewrite IH.
Qed.

Lemma lstrip_all_spaces (ws : string) :
  all_chars is_space ws = true -> lstrip ws = EmptyString.
Proof.
  induction ws as [|c ws IH]; simpl; [reflexivity|]. intros H.
  apply andb_prop in H as [Hc Hws]. rewrite Hc. auto.
Qed.

Lemma strip_app_spaces (s ws : string) :
  all_chars is_space ws = true -> strip (s ++ ws) = strip s.
Proof.
  intros Hws. unfold strip. induction s as [|c s IH]; simpl.
  - now rewrite lstrip_all_spaces.
  - destruct (is_space c); [assumption|].
    now apply (rstrip_app_spaces (String c s)).
Qed.

(** White space around a text does not change what [strip] returns. *)
Lemma strip_padded (ws1 s ws2 : string) :
  all_chars is_space ws1 = true -> all_chars is_space ws2 = true ->
  strip (ws1 ++ s ++ ws2) = strip s.
Proof.
  intros H1 H2. unfold strip at 1. rewrite lstrip_spaces_app by assumption.
  now apply strip_app_spaces.
Qed.

(** A trimmed, non-empty string starts with a character that is no space. *)
Lemma trimmed_starts (s : string) :
  strip s = s -> starts_with is_space s = false.
Proof. intros <-. apply rstrip_starts, lstrip_starts. Qed.

Lemma trimmed_rstrip (s : string) : strip s = s -> rstrip s = s.
Proof. intros <-. unfold strip. apply rstrip_idem. Qed.

Lemma all_chars_app (p : ascii -> bool) (a b : string) :
  all_chars p (a ++ b) = all_chars p a && all_chars p b.
Proof.
  induction a as [|c a IH]; simpl; [reflexivity|].
  now rewrite IH, andb_assoc.
Qed.

(** ** Version extractor: letter case *)

Lemma lit_ci_lower (lit s : string) :
  lit_ci lit (lower s) = option_map lower (lit_ci lit s).
Proof.
  revert s; induction lit as [|a lit IH]; intros s; simpl; [reflexivity|].
  destruct s as [|c s]; simpl; [reflexivity|].
  rewrite lower_char_idem. destruct (Ascii.eqb (lower_char c) a); auto.
Qed.

Lemma skip_space_lower (s : string) : skip_space (lower s) = lower (skip_space s).
Proof.
  induction s as [|c s IH]; simpl; [reflexivity|].
  rewrite is_space_lower. destruct (is_space c); [assumption | reflexivity].
Qed.

Lemma span_digits_lower (s : string) :
  span_digits (lower s) = (fst (span_digits s), lower (snd (span_digits s))).
Proof.
  induction s as [|c s IH]; simpl; [reflexivity|].
  rewrite is_digit_lower. destruct (is_digit c) eqn:Hc; [|reflexivity].
  rewrite IH, (lower_char_digit _ Hc). now destruct (span_digits s).
Qed.

Lemma digits1_lower (s : string) :
  digits1 (lower s) =
  option_map (fun dr => (fst dr, lower (snd dr))) (digits1 s).
Proof.
  unfold digits1. rewrite span_digits_lower.
  destruct (span_digits s) as [d r]; simpl. now destruct d.
Qed.

Lemma ver_match_here_lower (s : string) :
  ver_match_here (lower s) = ver_match_here s.
Proof.
  unfold ver_match_here. rewrite lit_ci_lower.
  destruct (lit_ci "content" s) as [s1|]; simpl option_map; cbv iota beta;
    [|reflexivity].
  rewrite skip_space_lower, lit_ci_lower.
  destruct (lit_ci "taxonomy" (skip_space s1)) as [s2|]; simpl option_map;
    cbv iota beta; [|reflexivity].
  rewrite skip_space_lower, digits1_lower.
  destruct (digits1 (skip_space s2)) as [[major s3]|]; simpl option_map;
    cbv iota beta; [|reflexivity].
  destruct s3 as [|z s4]; [reflexivity|]. cbn [lower].
  destruct z as [[] [] [] [] [] [] [] []]; try reflexivity.
  change (lower_char ".") with "."%char. cbv iota. rewrite digits1_lower.
  now destruct (digits1 s4) as [[minor s5]|].
Qed.

Lemma ver_search_lower (s : string) : ver_search (lower s) = ver_search s.
Proof.
  induction s as [|c s IH].
  - reflexivity.
  - rewrite (ver_search_eq (String c s)), <- ver_match_here_lower.
    simpl lower. rewrite ver_search_eq.
    destruct (ver_match_here (String (lower_char c) (lower s)));
      [reflexivity | exact IH].
Qed.

(** X1.  The version read off a file name does not depend on the letter
    case of the name: two names that are equal up to letter case give the
    same result, be it a version or nothing. *)
Theorem parse_version_from_name_case (a b : string) :
  lower a = lower b ->
  parse_version_from_name a = parse_version_from_name b.
Proof.
  intros H. unfold parse_version_from_name.
  now rewrite <- (ver_search_lower a), <- (ver_search_lower b), H.
Qed.

Lemma parse_version_from_name_case_witness :
  parse_version_from_name "IAB CONTENT TAXONOMY 3.1.TSV"
  = parse_version_from_name "iab Content taxonomy 3.1.tsv".
Proof. apply parse_version_from_name_case. reflexivity. Defined.

(** ** Catalog locator: what the choice depends on *)

(** The file that is picked is a candidate of largest minor. *)
Lemma pick_latest_some (files : list FileMeta) (major : Z) (f : FileMeta) :
  pick_latest files major = Some f ->
  In f files /\
  exists minr,
    parse_version_from_name (name f) = Some (major, minr) /\
    forall g n, In g files ->
      parse_version_from_name (name g) = Some (major, n) -> (n <= minr)%Z.
Proof.
  unfold pick_latest. rewrite collect_candidates_flat_map. simpl app.
  pose proof (sort_desc_head (fun x : candidate => snd (fst x))
                (flat_map (candidate_of major) files)) as Hs.
  destruct (flat_map (candidate_of major) files) as [|c0 cs] eqn:Ec;
    [discriminate|].
  destruct (sort_desc _ (c0 :: cs)) as [|c rest]; [discriminate|].
  intros H; inversion H; subst f. clear H.
  destruct Hs as (l1 & l2 & Hl & H1 & H2).
  assert (Hin : In c (flat_map (candidate_of major) files)).
  { rewrite Ec, Hl. apply in_or_app. right. now left. }
  apply in_flat_map in Hin as (f & Hf & Hc).
  apply candidate_of_In in Hc as (minr & Hv & ->). simpl in *.
  split; [assumption|]. exists minr. split; [assumption|].
  intros g n Hg Hgv.
  assert (Hgin : In ((major, n), g) (flat_map (candidate_of major) files)).
  { apply in_flat_map. exists g.
    split; [assumption|]. apply candidate_of_In. eauto. }
  rewrite Ec, Hl in Hgin.
  apply in_app_or in Hgin as [Hgin|[Hgin|Hgin]].
  - specialize (H1 _ Hgin). simpl in H1. lia.
  - inversion Hgin. lia.
  - specialize (H2 _ Hgin). simpl in H2. lia.
Qed.

Lemma pick_latest_none (files : list FileMeta) (major : Z) :
  pick_latest files major = None ->
  forall f minr, In f files ->
    parse_version_from_name (name f) <> Some (major, minr).
Proof.
  unfold pick_latest. rewrite collect_candidates_flat_map. simpl app.
  pose proof (sort_desc_head (fun x : candidate => snd (fst x))
                (flat_map (candidate_of major) files)) as Hs.
  destruct (flat_map (candidate_of major) files) as [|c0 cs] eqn:Ec.
  - intros _ f minr Hf Hv.
    assert (Hin : In ((major, minr), f) (flat_map (candidate_of major) files)).
    { apply in_flat_map. exists f. split; [assumption|].
      apply candidate_of_In. eauto. }
    now rewrite Ec in Hin.
  - destruct (sort_desc _ (c0 :: cs)); [discriminate Hs | discriminate].
Qed.




(** X3.  A file that is picked belongs to the listing and carries the
    requested major version, so the files picked for two different major
    versions have different names: the raw text of the 2.x file never
    overwrites that of the 3.x file. *)
Theorem pick_latest_majors_apart (files : list FileMeta) (m1 m2 : Z)
  (f1 f2 : FileMeta) :
  pick_latest files m1 = Some f1 -> pick_latest files m2 = Some f2 ->
  m1 <> m2 ->
  In f1 files /\ In f2 files /\ name f1 <> name f2.
Proof.
  intros H1 H2 Hne.
  apply pick_latest_some in H1 as (Hin1 & n1 & Hv1 & _).
  apply pick_latest_some in H2 as (Hin2 & n2 & Hv2 & _).
  repeat split; try assumption. intros E. rewrite E in Hv1. congruence.
Qed.

Lemma pick_latest_majors_apart_witness :
  In {| name := "Content Taxonomy 3.1.tsv"; download_url := "u31" |}
     taxonomy_files /\
  In {| name := "Content Taxonomy 2.2.tsv"; download_url := "u22" |}
     taxonomy_files /\
  "Content Taxonomy 3.1.tsv" <> "Content Taxonomy 2.2.tsv".
Proof.
  apply (@pick_latest_majors_apart taxonomy_files 3 2
           {| name := "Content Taxonomy 3.1.tsv"; download_url := "u31" |}
           {| name := "Content Taxonomy 2.2.tsv"; download_url := "u22" |});
    [reflexivity | reflexivity | discriminate].
Defined.

(** X4.  The version that is picked does not depend on the order of the
    listing, nor on how often a file is listed: two listings with the same
    files give files of the same version (or both give none).  Only the
    choice among files of equal version follows the order. *)
Theorem pick_latest_order_free (files files' : list FileMeta) (major : Z) :
  (forall f, In f files <-> In f files') ->
  option_map (fun f => parse_version_from_name (name f))
             (pick_latest files major)
  = option_map (fun f => parse_version_from_name (name f))
               (pick_latest files' major).
Proof.
  intros Hsame.
  destruct (pick_latest files major) as [f|] eqn:E;
    destruct (pick_latest files' major) as [f'|] eqn:E'; simpl.
  - apply pick_latest_some in E as (Hin & n & Hv & Hmax).
    apply pick_latest_some in E' as (Hin' & n' & Hv' & Hmax').
    rewrite Hv, Hv'. apply Hsame in Hin. apply Hsame in Hin'.
    specialize (Hmax _ _ Hin' Hv'). specialize (Hmax' _ _ Hin Hv).
    assert (n = n') as -> by lia. reflexivity.
  - apply pick_latest_some in E as (Hin & n & Hv & _).
    apply Hsame in Hin. elim (@pick_latest_none files' major E' f n Hin Hv).
  - apply pick_latest_some in E' as (Hin' & n' & Hv' & _).
    apply Hsame in Hin'. elim (@pick_latest_none files major E f' n' Hin' Hv').
  - reflexivity.
Qed.

Lemma pick_latest_order_free_witness :
  option_map (fun f => parse_version_from_name (name f))
             (pick_latest taxonomy_files 3)
  = option_map (fun f => parse_version_from_name (name f))
               (pick_latest (rev taxonomy_files ++ taxonomy_files) 3).
Proof.
  apply pick_latest_order_free. intros f. rewrite in_app_iff, <- in_rev. tauto.
Defined.

(** ** Coercion to a flag *)

Lemma all_chars_impl (p q : ascii -> bool) (s : string) :
  (forall c, p c = true -> q c = true) ->
  all_chars p s = true -> all_chars q s = true.
Proof.
  intros Hpq. induction s as [|c s IH]; simpl; [reflexivity|]. intros H.
  apply andb_prop in H as [Hc Hs]. now rewrite (Hpq _ Hc), IH.
Qed.

Lemma rstrip_no_space (s : string) :
  all_chars (fun c => negb (is_space c)) s = true -> rstrip s = s.
Proof.
  induction s as [|c s IH]; [reflexivity|]. simpl all_chars. intros H.
  apply andb_prop in H as [Hc Hs]. rewrite rstrip_eq, (IH Hs).
  destruct s; [|reflexivity]. now apply negb_true_iff in Hc as ->.
Qed.

Lemma strip_no_space (s : string) :
  all_chars (fun c => negb (is_space c)) s = true -> strip s = s.
Proof.
  intros H. unfold strip. rewrite lstrip_fixed; [now apply rstrip_no_space|].
  destruct s as [|c s]; [reflexivity|]. simpl in *.
  apply andb_prop in H as [Hc _]. now apply negb_true_iff in Hc.
Qed.

Lemma lower_fixed (s : string) :
  all_chars (fun c => Ascii.eqb (lower_char c) c) s = true -> lower s = s.
Proof.
  induction s as [|c s IH]; simpl; [reflexivity|]. intros H.
  apply andb_prop in H as [Hc Hs]. apply Ascii.eqb_eq in Hc.
  now rewrite Hc, IH.
Qed.

Lemma int_char_class (c : ascii) :
  is_int_char c = true ->
  negb (is_space c) = true /\ Ascii.eqb (lower_char c) c = true.
Proof. each_ascii c. Qed.

Lemma uint_digits (d : Decimal.uint) :
  all_chars is_digit (NilEmpty.string_of_uint d) = true.
Proof. induction d; simpl; auto. Qed.

Lemma uint_text_inj (d d' : Decimal.uint) :
  NilEmpty.string_of_uint d = NilEmpty.string_of_uint d' -> d = d'.
Proof.
  intros H. apply (f_equal NilEmpty.uint_of_string) in H.
  rewrite !NilEmpty.usu in H. congruence.
Qed.

Lemma str_of_int_cases (z : Z) :
  str_of_int z =
  match z with
  | Z0 => "0"
  | Zpos p => NilEmpty.string_of_uint (Pos.to_uint p)
  | Zneg p => String "-" (NilEmpty.string_of_uint (Pos.to_uint p))
  end.
Proof.
  unfold str_of_int. destruct z as [|p|p]; simpl; [reflexivity| |];
    pose proof (DecimalPos.Unsigned.to_uint_nonnil p) as Hp;
    destruct (Pos.to_uint p); first [reflexivity | congruence].
Qed.

Lemma str_of_int_chars (z : Z) : all_chars is_int_char (str_of_int z) = true.
Proof.
  rewrite str_of_int_cases.
  assert (H : forall d, all_chars is_int_char (NilEmpty.string_of_uint d) = true).
  { intros d. apply all_chars_impl with (p := is_digit); [|apply uint_digits].
    intros c Hc. unfold is_int_char. now rewrite Hc. }
  destruct z; simpl; auto.
Qed.

Lemma str_of_int_one (z : Z) : str_of_int z = "1" <-> z = 1%Z.
Proof.
  split; [|now intros ->]. rewrite str_of_int_cases.
  destruct z as [|p|p]; [discriminate| |discriminate].
  intros H. change "1" with (NilEmpty.string_of_uint (Pos.to_uint 1)) in H.
  apply uint_text_inj, DecimalPos.Unsigned.to_uint_inj in H. now subst.
Qed.

Lemma int_text_truth (s : string) :
  all_chars is_int_char s = true ->
  mem s ["true"; "1"; "yes"; "y"] = String.eqb s "1".
Proof.
  destruct s as [|c s]; [reflexivity|]. simpl all_chars. intros H.
  apply andb_prop in H as [Hc _]. unfold mem. simpl existsb.
  destruct c as [[] [] [] [] [] [] [] []]; try discriminate Hc; simpl;
    rewrite ?orb_false_r; reflexivity.
Qed.

(** X5.  An integer that [str] prints, one of at most 4300 digits, counts
    as a set flag exactly when it is 1: every other such integer, the other
    non-zero ones included, is read as false. *)
Theorem to_bool_int (rt : Runtime) (z : Z) :
  int_has_text z = true ->
  to_bool rt (PInt z) = (z =? 1)%Z.
Proof.
  intros _. unfold to_bool, py_str.
  pose proof (str_of_int_chars z) as Hz.
  rewrite strip_no_space, lower_fixed, int_text_truth; try assumption.
  - destruct (Z.eqb_spec z 1) as [->|Hne]; [reflexivity|].
    apply String.eqb_neq. now rewrite str_of_int_one.
  - eapply all_chars_impl; [|exact Hz]. intros c Hc.
    now apply int_char_class.
  - eapply all_chars_impl; [|exact Hz]. intros c Hc.
    now apply int_char_class.
Qed.

Lemma to_bool_int_witness :
  int_has_text 7 = true /\ to_bool bare_runtime (PInt 7) = (7 =? 1)%Z.
Proof.
  split; [reflexivity|]. apply to_bool_int. reflexivity.
Defined.

(** X6.  For a text, the flag depends neither on the white space around
    it nor on its letter case. *)
Theorem to_bool_text_invariant (rt : Runtime) (ws1 s ws2 s' : string) :
  all_chars is_space ws1 = true -> all_chars is_space ws2 = true ->
  lower s = lower s' ->
  to_bool rt (PStr (ws1 ++ s ++ ws2)) = to_bool rt (PStr s').
Proof.
  intros H1 H2 H. rewrite !to_bool_eq. unfold scd_of_raw, py_str.
  now rewrite strip_padded, <- !strip_lower, H.
Qed.

Lemma to_bool_text_invariant_witness :
  to_bool bare_runtime (PStr ("  " ++ "YES" ++ " "))
  = to_bool bare_runtime (PStr "yes").
Proof. apply to_bool_text_invariant; reflexivity. Defined.

(** ** Normalizers: what is emitted *)

Lemma filter_length (A : Type) (p : A -> bool) (l : list A) :
  length (filter p l) <= length l.
Proof. induction l as [|a l IH]; simpl; [|destruct (p a); simpl]; lia. Qed.

Lemma flat_map_length_le (A B : Type) (f : A -> list B) (l : list A) :
  (forall a, length (f a) <= 1) -> length (flat_map f l) <= length l.
Proof.
  intros Hf. induction l as [|a l IH]; simpl; [lia|].
  rewrite length_app. specialize (Hf a). lia.
Qed.

Section NormalizerOutputs.
Variable rt : Runtime.

Lemma cell_text_trimmed (r : Row) (col : string) :
  strip (cell_text rt r col) = cell_text rt r col.
Proof. unfold cell_text. apply strip_idem. Qed.


Lemma cell_text_nan (r : Row) (col : string) :
  py_repr rt (PFloat FNaN) = "nan" -> row_get r col = PFloat FNaN ->
  cell_text rt r col = "nan".
Proof. unfold cell_text, py_or. intros Hrepr ->. simpl. now rewrite Hrepr. Qed.

Lemma emit_2x_In (id_c label_c : string) (r : Row) (c : FlatCategory) :
  In c (emit_2x rt id_c label_c r) <->
  c = {| code := cell_text rt r id_c; flat_label := cell_text rt r label_c |} /\
  cell_text rt r id_c <> EmptyString /\ cell_text rt r label_c <> EmptyString.
Proof.
  unfold emit_2x.
  destruct (nonempty (cell_text rt r id_c)) eqn:Ei;
    destruct (nonempty (cell_text rt r label_c)) eqn:El; simpl;
    rewrite <- ?nonempty_true, ?Ei, ?El; intuition congruence.
Qed.

Lemma normalize_2x_emitted (df : DataFrame) (out : list FlatCategory) :
  normalize_2x rt df = OK out ->
  Forall (fun c => code c <> EmptyString /\ flat_label c <> EmptyString /\
                   strip (code c) = code c /\
                   strip (flat_label c) = flat_label c) out.
Proof.
  rewrite normalize_2x_eq.
  destruct (select_column id_aliases_2x (columns df)) as [id_c|];
    [|discriminate].
  destruct (select_column label_aliases (columns df)) as [label_c|];
    [|discriminate].
  intros H; inversion H; subst out.
  apply Forall_forall. intros c Hc.
  apply in_flat_map in Hc as (r & _ & Hc).
  apply emit_2x_In in Hc as (-> & Hi & Hl). simpl.
  repeat split; auto using cell_text_trimmed.
Qed.

(** X7.  Every category the flat normalizer emits has a code and a label
    that are not empty and carry no white space at either end, and there
    are at most as many categories as rows. *)
Theorem normalize_2x_output (df : DataFrame) (out : list FlatCategory) :
  normalize_2x rt df = OK out ->
  length out <= length (rows df) /\
  Forall (fun c => code c <> EmptyString /\ flat_label c <> EmptyString /\
                   strip (code c) = code c /\
                   strip (flat_label c) = flat_label c) out.
Proof.
  intros H. split; [|now apply normalize_2x_emitted with (df := df)].
  rewrite normalize_2x_eq in H.
  destruct (select_column id_aliases_2x (columns df)) as [id_c|];
    [|discriminate].
  destruct (select_column label_aliases (columns df)) as [label_c|];
    [|discriminate].
  inversion H; subst out.
  apply flat_map_length_le. intros r. unfold emit_2x.
  destruct (_ && _); simpl; lia.
Qed.

Lemma tier_values_trimmed (tier_cols : list string) (r : Row) :
  Forall (fun seg => strip seg = seg) (tier_values rt tier_cols r).
Proof.
  apply Forall_forall. intros seg Hin. unfold tier_values in Hin.
  apply filter_In in Hin as [Hin _].
  apply in_map_iff in Hin as (t & <- & _). apply cell_text_trimmed.
Qed.

Lemma split_path_trimmed (raw : string) :
  Forall (fun seg => strip seg = seg) (split_path raw).
Proof.
  apply Forall_forall. intros seg Hin. unfold split_path in Hin.
  apply in_map_iff in Hin as (p & <- & _). apply strip_idem.
Qed.

Lemma derive_path_trimmed (path_col : option string)
  (tier_cols : list string) (lbl : string) (r : Row) :
  strip lbl = lbl ->
  Forall (fun seg => strip seg = seg)
         (derive_path rt path_col tier_cols lbl r).
Proof.
  intros Hl. unfold derive_path.
  assert (Hp : Forall (fun seg => strip seg = seg)
                 match path_col with
                 | Some path_c => path_segments (row_get r path_c)
                 | None => []
                 end).
  { destruct path_col as [c|]; [|constructor].
    destruct (row_get r c); simpl; try constructor.
    apply split_path_trimmed. }
  destruct (match path_col with
            | Some path_c => path_segments (row_get r path_c)
            | None => []
            end) as [|seg segs]; [|assumption].
  pose proof (tier_values_trimmed tier_cols r) as Ht.
  destruct (tier_values rt tier_cols r); [|assumption].
  constructor; [assumption | constructor].
Qed.

Lemma normalize_3x_emitted (df : DataFrame) (out : list HierarchicalCategory) :
  normalize_3x rt df = OK out ->
  Forall (fun h => cat_id h <> EmptyString /\ label h <> EmptyString /\
                   strip (cat_id h) = cat_id h /\ strip (label h) = label h /\
                   Forall (fun seg => strip seg = seg) (path h)) out.
Proof.
  intros H. apply normalize_3x_rows in H as (id_c & label_c & _ & _ & ->).
  apply Forall_forall. intros h Hin.
  apply in_map_iff in Hin as (r & <- & Hr). simpl.
  apply filter_In in Hr as [_ Hk]. unfold kept_3x in Hk.
  apply andb_prop in Hk as [Hi Hl]. apply nonempty_true in Hi, Hl.
  repeat split; auto using cell_text_trimmed.
  apply derive_path_trimmed, cell_text_trimmed.
Qed.

(** X8.  Every category the hierarchical normalizer emits has an id and a
    label that are not empty and carry no white space at either end, no
    segment of its path carries white space at either end, and there are at
    most as many categories as rows. *)
Theorem normalize_3x_output (df : DataFrame) (out : list HierarchicalCategory) :
  normalize_3x rt df = OK out ->
  length out <= length (rows df) /\
  Forall (fun h => cat_id h <> EmptyString /\ label h <> EmptyString /\
                   strip (cat_id h) = cat_id h /\ strip (label h) = label h /\
                   Forall (fun seg => strip seg = seg) (path h)) out.
Proof.
  intros H. split; [|now apply normalize_3x_emitted with (df := df)].
  apply normalize_3x_rows in H as (id_c & label_c & _ & _ & ->).
  rewrite length_map. apply filter_length.
Qed.




End NormalizerOutputs.


Lemma normalize_2x_output_witness :
  length [{| code := "1-1"; flat_label := "Arts" |}] <= length (rows arts_frame) /\
  Forall (fun c => code c <> EmptyString /\ flat_label c <> EmptyString /\
                   strip (code c) = code c /\
                   strip (flat_label c) = flat_label c)
         [{| code := "1-1"; flat_label := "Arts" |}].
Proof. apply (@normalize_2x_output bare_runtime arts_frame). reflexivity. Defined.

Lemma normalize_3x_output_witness :
  length paths_catalog <= length (rows paths_frame) /\
  Forall (fun h => cat_id h <> EmptyString /\ label h <> EmptyString /\
                   strip (cat_id h) = cat_id h /\ strip (label h) = label h /\
                   Forall (fun seg => strip seg = seg) (path h)) paths_catalog.
Proof. apply (@normalize_3x_output bare_runtime paths_frame). reflexivity. Defined.

(** ** Normalizers: cells the reader left empty *)

Section MissingCells.
Variable rt : Runtime.
Hypothesis nan_text : py_repr rt (PFloat FNaN) = "nan".

(** X10.  A cell that holds not-a-number, which is what the table reader
    leaves in an empty cell, is not taken as empty: its text is "nan".  A
    row of the flat table whose id cell is not-a-number and whose label is
    present is emitted with the code "nan". *)
Theorem normalize_2x_nan_code (df : DataFrame) (out : list FlatCategory)
  (r : Row) (id_c label_c : string) :
  normalize_2x rt df = OK out ->
  first_alias (lower_cols df)
              ["code"; "id"; "node id"; "taxonomy id"; "unique id"]
  = Some id_c ->
  first_alias (lower_cols df) ["label"; "name"; "node"; "node name"]
  = Some label_c ->
  In r (rows df) -> row_get r id_c = PFloat FNaN ->
  cell_text rt r label_c <> EmptyString ->
  In {| code := "nan"; flat_label := cell_text rt r label_c |} out.
Proof.
  rewrite normalize_2x_eq, !first_alias_select.
  fold id_aliases_2x label_aliases.
  intros H Hi Hl Hr Hnan Hlbl. rewrite Hi, Hl in H. inversion H; subst out.
  apply in_flat_map. exists r. split; [assumption|].
  apply emit_2x_In. rewrite (cell_text_nan rt _ _ nan_text Hnan).
  repeat split; [discriminate | assumption].
Qed.

(** X11.  Not-a-number in a tier column of the hierarchical table, which
    is what the table reader leaves in an empty cell, is not taken as
    empty: when there is no path column, a kept row with not-a-number in a
    tier column gets "nan" as a segment of its path. *)
Theorem normalize_3x_nan_tier (df : DataFrame)
  (out : list HierarchicalCategory) (r : Row) (id_c label_c t : string) :
  normalize_3x rt df = OK out ->
  first_alias (lower_cols df) ["id"; "node id"; "taxonomy id"; "unique id"]
  = Some id_c ->
  first_alias (lower_cols df) ["label"; "name"; "node"; "node name"]
  = Some label_c ->
  first_alias (lower_cols df) ["path"; "full path"; "taxonomy path"] = None ->
  In r (rows df) ->
  cell_text rt r id_c <> EmptyString -> cell_text rt r label_c <> EmptyString ->
  In t (tier_columns df (lower_cols df)) -> row_get r t = PFloat FNaN ->
  exists h, In h out /\ cat_id h = cell_text rt r id_c /\
            label h = cell_text rt r label_c /\ In "nan" (path h).
Proof.
  rewrite !first_alias_select.
  fold id_aliases_3x label_aliases path_aliases.
  intros H Hi Hl Hp Hr Hid Hlbl Ht Hnan.
  apply normalize_3x_rows in H as (id_c' & label_c' & Hi' & Hl' & ->).
  rewrite Hi in Hi'. rewrite Hl in Hl'. inversion Hi'. inversion Hl'.
  subst id_c' label_c'. eexists. split.
  - apply in_map_iff. exists r. split; [reflexivity|].
    apply filter_In. split; [assumption|]. unfold kept_3x.
    apply nonempty_true in Hid, Hlbl. now rewrite Hid, Hlbl.
  - simpl. repeat split. rewrite Hp. unfold derive_path.
    assert (Hin : In "nan" (tier_values rt (tier_columns df (lower_cols df)) r)).
    { unfold tier_values. apply filter_In. split; [|reflexivity].
      apply in_map_iff. exists t. split; [|assumption].
      now apply cell_text_nan. }
    destruct (tier_values rt (tier_columns df (lower_cols df)) r);
      [contradiction | assumption].
Qed.
End MissingCells.

Lemma normalize_2x_nan_code_witness :
  In {| code := "nan"; flat_label := "Auto Body Styles" |}
     [{| code := "1"; flat_label := "Automotive" |};
      {| code := "nan"; flat_label := "Auto Body Styles" |}].
Proof.
  apply (@normalize_2x_nan_code nan_runtime eq_refl gaps_frame _
           [("Unique ID", PFloat FNaN); ("Name", PStr "Auto Body Styles");
            ("Tier 1", PStr "Automotive"); ("Tier 2", PStr "Auto Body Styles")]
           "Unique ID" "Name");
    try reflexivity; [simpl; auto | discriminate].
Defined.

Lemma normalize_3x_nan_tier_witness :
  exists h,
    In h [{| cat_id := "1"; label := "Automotive";
             path := ["Automotive"; "nan"]; scd := false |};
          {| cat_id := "nan"; label := "Auto Body Styles";
             path := ["Automotive"; "Auto Body Styles"]; scd := false |}] /\
    cat_id h = "1" /\ label h = "Automotive" /\ In "nan" (path h).
Proof.
  apply (@normalize_3x_nan_tier nan_runtime eq_refl gaps_frame _
           [("Unique ID", PStr "1"); ("Name", PStr "Automotive");
            ("Tier 1", PStr "Automotive"); ("Tier 2", PFloat FNaN)]
           "Unique ID" "Name" "Tier 2");
    try reflexivity; try discriminate; simpl; auto.
Defined.

(** ** The two normalizers on one table *)





(** ** Paths written with delimiters *)

Lemma split_on_clean_app (delim : ascii -> bool) (x cur rest : string) :
  all_chars (fun c => negb (delim c)) x = true ->
  split_on delim cur (x ++ rest) = split_on delim (cur ++ x) rest.
Proof.
  revert cur; induction x as [|c x IH]; intros cur H; simpl in *.
  - now rewrite append_nil_r.
  - apply andb_prop in H as [Hc Hx]. apply negb_true_iff in Hc.
    rewrite Hc, IH by assumption. now rewrite append_assoc.
Qed.

Lemma split_on_clean (delim : ascii -> bool) (x cur : string) :
  all_chars (fun c => negb (delim c)) x = true ->
  split_on delim cur x = [(cur ++ x)%string].
Proof.
  intros H. rewrite <- (append_nil_r x) at 1.
  now rewrite split_on_clean_app.
Qed.

Lemma spaces_clean (ws : string) :
  all_chars is_space ws = true ->
  all_chars (fun c => negb (is_path_delim c)) ws = true.
Proof.
  apply all_chars_impl. intros c Hc. now rewrite (space_not_delim _ Hc).
Qed.

Lemma concat_cons (sep a b : string) (rest : list string) :
  String.concat sep (a :: b :: rest)
  = (a ++ sep ++ String.concat sep (b :: rest))%string.
Proof. reflexivity. Qed.

Section JoinedPath.
Variables (ws1 ws2 : string) (d : ascii).
Hypothesis Hws1 : all_chars is_space ws1 = true.
Hypothesis Hws2 : all_chars is_space ws2 = true.
Hypothesis Hd : is_path_delim d = true.

Lemma split_path_concat (segs : list string) :
  segs <> [] -> Forall is_segment segs ->
  forall cur, all_chars is_space cur = true ->
    map strip
        (filter (fun p => nonempty (strip p))
                (split_on is_path_delim cur
                          (String.concat (ws1 ++ String d ws2) segs)))
    = segs.
Proof.
  induction segs as [|a segs IH]; [congruence|]. intros _ Hall cur Hcur.
  inversion Hall as [|? ? (Hne & Htrim & Hclean) Hrest]; subst.
  destruct segs as [|b rest].
  - simpl String.concat. rewrite split_on_clean by assumption.
    assert (Hs : strip (cur ++ a) = a).
    { rewrite <- (append_nil_r a) at 1.
      rewrite strip_padded by auto. assumption. }
    apply nonempty_true in Hne. simpl filter. rewrite Hs, Hne.
    simpl map. now rewrite Hs.
  - rewrite concat_cons. rewrite split_on_clean_app by assumption.
    rewrite append_assoc, split_on_clean_app by now apply spaces_clean.
    simpl split_on. rewrite Hd.
    rewrite split_on_clean_app by now apply spaces_clean.
    assert (Hs : strip ((cur ++ a) ++ ws1) = a).
    { rewrite append_assoc, strip_padded by auto. assumption. }
    simpl filter. rewrite Hs. apply nonempty_true in Hne. rewrite Hne.
    simpl map. rewrite Hs. f_equal. simpl append.
    apply IH; [discriminate | assumption | assumption].
Qed.

(** X13.  A path written as its segments joined by one of the delimiters,
    with any white space around the delimiter, is read back as exactly
    these segments, whatever the tier columns hold: for segments that are
    trimmed, not empty and free of delimiters, splitting undoes joining. *)
Theorem row_path_round_trip (rt : Runtime) (path_c : string)
  (tier_cols : list string) (r : Row) (segs : list string) :
  path_c <> EmptyString -> segs <> [] -> Forall is_segment segs ->
  row_get r path_c = PStr (String.concat (ws1 ++ String d ws2) segs) ->
  row_path rt (Some path_c) tier_cols r = segs.
Proof.
  intros Hc Hne Hall Hget. unfold row_path. rewrite Hget. simpl found.
  apply nonempty_true in Hc. rewrite Hc.
  assert (Hsplit : split_path (String.concat (ws1 ++ String d ws2) segs) = segs).
  { unfold split_path. now apply split_path_concat. }
  rewrite Hsplit.
  assert (Hraw : nonempty (strip (String.concat (ws1 ++ String d ws2) segs))
                 = true).
  { destruct (nonempty (strip _)) eqn:E; [reflexivity|].
    apply split_path_blank in E. rewrite Hsplit in E. congruence. }
  rewrite Hraw. destruct segs; [congruence | reflexivity].
Qed.
End JoinedPath.

Lemma row_path_round_trip_witness :
  row_path bare_runtime (Some "Path") ["Tier 1"]
           [("Path", PStr "Tech > Computing > AI"); ("Tier 1", PStr "x")]
  = ["Tech"; "Computing"; "AI"].
Proof.
  apply (@row_path_round_trip " " " " ">"%char eq_refl eq_refl eq_refl
           bare_runtime "Path" ["Tier 1"] _ ["Tech"; "Computing"; "AI"]);
    [discriminate | discriminate | | reflexivity].
  repeat constructor; discriminate.
Defined.

(** ** Tree flattening: what a row holds *)

Lemma first_present_truthy (node : Row) (aliases : list string) (v : pyval) :
  first_present node aliases = Some v -> truthy v = true.
Proof.
  induction aliases as [|a rest IH]; simpl; [discriminate|].
  destruct (truthy (row_get node a)) eqn:E; [|assumption].
  intros H; inversion H; subst. assumption.
Qed.

Lemma Flattens_rows (anc cs : list pyval) (rows : list Row) :
  Flattens anc cs rows ->
  Forall (fun a => truthy a = true) anc ->
  Forall (fun r => exists nid lbl anc' flag,
              r = mk_row nid lbl anc' flag /\
              truthy nid = true /\ truthy lbl = true /\
              Forall (fun a => truthy a = true) anc') rows.
Proof.
  induction 1 as [anc|anc c cs out Hc _ IH
                  |anc node cs kids sub out Hk _ IHk _ IH]; intros Hanc.
  - constructor.
  - auto.
  - repeat (apply Forall_app; split); auto.
    + unfold own_rows.
      destruct (first_present node ["id"; "code"]) as [nid|] eqn:Ei;
        [|constructor].
      destruct (first_present node ["label"; "name"]) as [lbl|] eqn:El;
        constructor; [|constructor].
      exists nid, lbl, anc, (node_flag node).
      repeat split; eauto using first_present_truthy.
    + apply IHk. unfold child_ancestors.
      destruct (first_present node ["label"; "name"]) as [lbl|] eqn:El;
        [|assumption].
      apply Forall_app. split; [assumption|].
      constructor; [|constructor]. eauto using first_present_truthy.
Qed.

(** X14.  Every row the walk emits has the four keys id, label, path and
    scd, an id and a label that are present (true in Python's sense), and
    as path a list that ends with the row's own label and holds before it
    only labels that are present: no row is emitted for a node without id
    or label, and such a node adds nothing to the paths below it. *)
Theorem walk_rows_wellformed (data : pyval) (rows : list Row) :
  walk_data data = OK rows ->
  Forall (fun r =>
            map fst r = ["id"; "label"; "path"; "scd"] /\
            truthy (row_get r "id") = true /\
            truthy (row_get r "label") = true /\
            exists anc, row_get r "path" = PList (anc ++ [row_get r "label"]) /\
                        Forall (fun a => truthy a = true) anc) rows.
Proof.
  intros H. apply walk_data_flattens in H.
  apply Flattens_rows in H; [|constructor].
  eapply Forall_impl; [|exact H]. cbv beta.
  intros r (nid & lbl & anc & flag & -> & Hn & Hl & Hanc).
  repeat split; try assumption. now exists anc.
Qed.

Lemma walk_rows_wellformed_witness :
  Forall (fun r =>
            map fst r = ["id"; "label"; "path"; "scd"] /\
            truthy (row_get r "id") = true /\
            truthy (row_get r "label") = true /\
            exists anc, row_get r "path" = PList (anc ++ [row_get r "label"]) /\
                        Forall (fun a => truthy a = true) anc)
         [mk_row (PStr "1") (PStr "Root") [] PNone;
          mk_row (PStr "1.1") (PStr "Child") [PStr "Root"] PNone].
Proof. apply (@walk_rows_wellformed root_node). reflexivity. Defined.

(** ** Documents without objects *)

Lemma Flattens_no_dict (anc cs : list pyval) :
  Forall (fun c => is_dict c = false) cs -> Flattens anc cs [].
Proof. induction 1; constructor; assumption. Qed.

(** X15.  A text that parses as JSON but holds no object at its top (a
    number, a string, [null], an empty list, a list of such values) is not
    rejected as an unsupported format: it parses to the table without
    columns and rows, on which the flat normalizer fails with its schema
    inference error. *)
Theorem parse_table_without_objects (rt : Runtime) (text fname : string)
  (data : pyval) :
  is_tabular fname = false -> json_loads rt text = Some data ->
  Forall (fun c => is_dict c = false) (roots data) ->
  parse_table rt text fname = OK {| columns := []; rows := [] |} /\
  normalize_2x rt {| columns := []; rows := [] |}
  = Raise (SchemaInferenceError "2.x").
Proof.
  intros Hext Hjson Hroots. split; [|reflexivity].
  assert (Hflat : is_flat_list data = false).
  { destruct data as [| | | | |[|[] l]|]; try reflexivity.
    simpl in Hroots. inversion Hroots. discriminate. }
  rewrite (@parse_table_json _ _ _ _ Hext Hjson Hflat).
  assert (Hwalk : walk_data data = OK []).
  { apply walk_data_flattens. now apply Flattens_no_dict. }
  now rewrite Hwalk.
Qed.

Lemma parse_table_without_objects_witness :
  parse_table (runtime_loading (PList [PInt 1; PStr "two"; PNone]))
              "[1, two, null]" "Content Taxonomy 3.1.json"
  = OK {| columns := []; rows := [] |} /\
  normalize_2x (runtime_loading (PList [PInt 1; PStr "two"; PNone]))
               {| columns := []; rows := [] |}
  = Raise (SchemaInferenceError "2.x").
Proof.
  apply (@parse_table_without_objects _ _ _ (PList [PInt 1; PStr "two"; PNone]));
    try reflexivity.
  repeat constructor.
Defined.

(** ** Pipeline driver: what a run leaves behind *)

(** All the ways a run can go. *)
Ltac run_cases :=
  unfold completion_code, trace, run; rewrite main_run;
  repeat (rewrite ?branch_3x_run, ?branch_2x_run; cbv zeta;
          match goal with
          | |- context [match ?x with _ => _ end] =>
              lazymatch x with
              | list_content_files _ => destruct x eqn:?
              | pick_latest _ _ => destruct x eqn:?
              | download_text _ _ => destruct x eqn:?
              | parse_table _ _ _ => destruct x eqn:?
              | normalize_3x _ _ => destruct x eqn:?
              | normalize_2x _ _ => destruct x eqn:?
              end
          end);
  try match goal with
      | |- context [preamble ?x] => destruct x eqn:?
      end;
  cbn [fst snd preamble].

Ltac pick_event :=
  repeat match goal with
         | H : _ \/ _ |- _ => destruct H
         | H : False |- _ => contradiction
         | H : @eq event _ _ |- _ => first [discriminate H | inversion H; clear H; subst]
         end.

Section DriverRuns.
Variable rt : Runtime.
Variable w : World.


(** X17.  The text of a file is written to the raw directory as soon as it
    is downloaded, before it is parsed: the raw 3.x text is left behind by
    every run that downloads it, whatever becomes of parsing and
    normalizing, and so is the raw 2.x text once the 3.x table is parsed. *)
Theorem main_raw_text_saved (files : list FileMeta) (f3 : FileMeta)
  (txt3 : string) :
  list_content_files w = OK files -> pick_latest files 3 = Some f3 ->
  download_text w (download_url f3) = OK txt3 ->
  In (WriteRaw (name f3) txt3) (trace rt w) /\
  (forall (df3 : DataFrame) (f2 : FileMeta) (txt2 : string),
      parse_table rt txt3 (name f3) = OK df3 ->
      pick_latest files 2 = Some f2 ->
      download_text w (download_url f2) = OK txt2 ->
      In (WriteRaw (name f2) txt2) (trace rt w)).
Proof.
  intros Hfiles H3 Hd3. split.
  - unfold trace, run. rewrite main_run, Hfiles, H3, branch_3x_run.
    cbv zeta. rewrite Hd3.
    repeat (rewrite ?branch_2x_run; cbv zeta;
            match goal with
            | |- context [match ?x with _ => _ end] =>
                lazymatch x with
                | pick_latest _ _ => destruct x eqn:?
                | download_text _ _ => destruct x eqn:?
                | parse_table _ _ _ => destruct x eqn:?
                | normalize_3x _ _ => destruct x eqn:?
                | normalize_2x _ _ => destruct x eqn:?
                end
            end);
      cbn [fst snd]; rewrite ?in_app_iff; simpl; tauto.
  - intros df3 f2 txt2 Hp3 H2 Hd2.
    unfold trace, run. rewrite main_run, Hfiles, H3, branch_3x_run, H2.
    cbv zeta. rewrite Hd3, Hp3.
    destruct (normalize_3x rt df3); rewrite branch_2x_run; cbv zeta;
      rewrite Hd2; destruct (parse_table rt txt2 (name f2));
      try destruct (normalize_2x rt _);
      cbn [fst snd]; rewrite ?in_app_iff; simpl; tauto.
Qed.
End DriverRuns.


Lemma main_raw_text_saved_witness :
  In (WriteRaw (name file_3x) "<html>") (trace json_runtime world_3x_garbled) /\
  (forall (df3 : DataFrame) (f2 : FileMeta) (txt2 : string),
      parse_table json_runtime "<html>" (name file_3x) = OK df3 ->
      pick_latest [file_3x; file_2x] 2 = Some f2 ->
      download_text world_3x_garbled (download_url f2) = OK txt2 ->
      In (WriteRaw (name f2) txt2) (trace json_runtime world_3x_garbled)).
Proof.
  apply (@main_raw_text_saved json_runtime world_3x_garbled
           [file_3x; file_2x] file_3x "<html>"); reflexivity.
Defined.

Section SavedCatalogs.
Variable rt : Runtime.
Variable w : World.

Lemma normalize_3x_nonempty (df : DataFrame) (out : list HierarchicalCategory) :
  normalize_3x rt df = OK out ->
  Forall (fun h => cat_id h <> EmptyString /\ label h <> EmptyString /\
                   path h <> []) out.
Proof.
  intros H. apply normalize_3x_rows in H as (id_c & label_c & _ & _ & ->).
  apply Forall_forall. intros h Hin.
  apply in_map_iff in Hin as (r & <- & Hr). simpl.
  apply filter_In in Hr as [_ Hk]. unfold kept_3x in Hk.
  apply andb_prop in Hk as [Hi Hl]. apply nonempty_true in Hi, Hl.
  repeat split; try assumption. now apply derive_path_segments.
Qed.

Lemma normalize_2x_nonempty (df : DataFrame) (out : list FlatCategory) :
  normalize_2x rt df = OK out ->
  Forall (fun c => code c <> EmptyString /\ flat_label c <> EmptyString) out.
Proof.
  rewrite normalize_2x_eq.
  destruct (select_column id_aliases_2x (columns df)) as [id_c|];
    [|discriminate].
  destruct (select_column label_aliases (columns df)) as [label_c|];
    [|discriminate].
  intros H; inversion H; subst out.
  apply Forall_forall. intros c Hc.
  apply in_flat_map in Hc as (r & _ & Hc).
  apply emit_2x_In in Hc as (-> & Hi & Hl). simpl. auto.
Qed.

(** A catalog is saved only as the result of its normalizer, and the line
    that reports it is printed. *)
Lemma saved_3x_origin (cats : list HierarchicalCategory) :
  In (SaveJson3 cats) (trace rt w) ->
  (exists df, normalize_3x rt df = OK cats) /\
  In (Print (Wrote "3.x" (length cats))) (trace rt w).
Proof.
  run_cases; rewrite ?in_app_iff; simpl; intros H; pick_event;
    (split; [eauto | tauto]).
Qed.

Lemma saved_2x_origin (cats : list FlatCategory) :
  In (SaveJson2 cats) (trace rt w) ->
  (exists df, normalize_2x rt df = OK cats) /\
  In (Print (Wrote "2.x" (length cats))) (trace rt w).
Proof.
  run_cases; rewrite ?in_app_iff; simpl; intros H; pick_event;
    (split; [eauto | tauto]).
Qed.

(** X18.  Whatever the listing, the downloads and the runtime give: every
    catalog a run saves holds only categories with an id (a code), a label
    and, for the hierarchical catalog, a path that are not empty, and the
    run prints the line that reports the number of its rows. *)
Theorem main_saved_catalogs :
  (forall cats : list HierarchicalCategory,
      In (SaveJson3 cats) (trace rt w) ->
      Forall (fun h => cat_id h <> EmptyString /\ label h <> EmptyString /\
                       path h <> []) cats /\
      In (Print (Wrote "3.x" (length cats))) (trace rt w)) /\
  (forall cats : list FlatCategory,
      In (SaveJson2 cats) (trace rt w) ->
      Forall (fun c => code c <> EmptyString /\ flat_label c <> EmptyString)
             cats /\
      In (Print (Wrote "2.x" (length cats))) (trace rt w)).
Proof.
  split; intros cats H.
  - apply saved_3x_origin in H as ((df & Hdf) & Hp).
    split; [now apply normalize_3x_nonempty with (df := df) | assumption].
  - apply saved_2x_origin in H as ((df & Hdf) & Hp).
    split; [now apply normalize_2x_nonempty with (df := df) | assumption].
Qed.

(** X19.  A run prints its closing line exactly when it ends with
    completion code 0: after an exception or without a 3.x file the line
    is not printed. *)
Theorem main_done_iff :
  completion_code rt w = 0%Z <-> In (Print Done) (trace rt w).
Proof.
  run_cases; rewrite ?in_app_iff; simpl; split; intros H;
    first [reflexivity | discriminate H | tauto | pick_event].
Qed.
End SavedCatalogs.

(** ** Sample data fetcher *)

Section DictOfPairs.
Variable V : Type.
Implicit Types (d : dict V) (k : string) (v : V).

Lemma dict_set_keys d d' k v v' :
  map fst d = map fst d' ->
  map fst (dict_set d k v) = map fst (dict_set d' k v').
Proof.
  revert d'; induction d as [|[k0 v0] d IH]; intros [|[k1 v1] d'] H;
    simpl in *; try discriminate; [reflexivity|].
  inversion H; subst. destruct (String.eqb k1 k); simpl; f_equal; auto.
Qed.

Lemma dict_set_key_in d k v k' :
  In k' (map fst (dict_set d k v)) <-> In k' (map fst d) \/ k' = k.
Proof.
  induction d as [|[k0 v0] d IH]; simpl.
  - intuition.
  - destruct (String.eqb_spec k0 k) as [->|Hne]; simpl; [|rewrite IH];
      intuition.
Qed.

Lemma dict_set_keys_nodup d k v :
  NoDup (map fst d) -> NoDup (map fst (dict_set d k v)).
Proof.
  induction d as [|[k0 v0] d IH]; simpl; intros H.
  - constructor; [tauto | constructor].
  - inversion H as [|? ? Hk0 Hd]; subst.
    destruct (String.eqb_spec k0 k) as [->|Hne]; simpl.
    + now constructor.
    + constructor; [|auto]. rewrite dict_set_key_in. intuition.
Qed.

Lemma dict_set_values (P : V -> Prop) d k v :
  P v -> Forall P (map snd d) -> Forall P (map snd (dict_set d k v)).
Proof.
  intros Hv. induction d as [|[k0 v0] d IH]; simpl; intros H.
  - constructor; [assumption | constructor].
  - inversion H; subst. destruct (String.eqb k0 k); simpl; constructor; auto.
Qed.

Lemma dict_set_new d k v :
  ~ In k (map fst d) -> dict_set d k v = d ++ [(k, v)].
Proof.
  induction d as [|[k0 v0] d IH]; simpl; intros H; [reflexivity|].
  destruct (String.eqb_spec k0 k) as [->|Hne]; [tauto|].
  rewrite IH; tauto.
Qed.

Lemma pairs_keys (ks : list string) :
  forall (vs vs' : list V) d d',
    length ks <= length vs -> length ks <= length vs' ->
    map fst d = map fst d' ->
    map fst (fold_left (@set_pair V) (combine ks vs) d)
    = map fst (fold_left (@set_pair V) (combine ks vs') d').
Proof.
  induction ks as [|k ks IH]; intros vs vs' d d' Hl Hl' Hd; simpl.
  - assumption.
  - destruct vs as [|v vs]; [simpl in Hl; lia|].
    destruct vs' as [|v' vs']; [simpl in Hl'; lia|]. simpl in *.
    apply IH; try lia. unfold set_pair. simpl. now apply dict_set_keys.
Qed.

Lemma pairs_keys_nodup (pairs : list (string * V)) d :
  NoDup (map fst d) -> NoDup (map fst (fold_left (@set_pair V) pairs d)).
Proof.
  revert d; induction pairs as [|kv pairs IH]; intros d H; simpl;
    [assumption|].
  apply IH. now apply dict_set_keys_nodup.
Qed.

Lemma pairs_keys_in (pairs : list (string * V)) d k :
  In k (map fst (fold_left (@set_pair V) pairs d)) ->
  In k (map fst d) \/ In k (map fst pairs).
Proof.
  revert d; induction pairs as [|kv pairs IH]; intros d; simpl; [auto|].
  intros H. apply IH in H as [H|H]; [|auto].
  apply dict_set_key_in in H. intuition.
Qed.

Lemma pairs_values (P : V -> Prop) (pairs : list (string * V)) d :
  Forall P (map snd pairs) -> Forall P (map snd d) ->
  Forall P (map snd (fold_left (@set_pair V) pairs d)).
Proof.
  revert d; induction pairs as [|kv pairs IH]; intros d Hp Hd; simpl;
    [assumption|].
  inversion Hp; subst. apply IH; [assumption|]. now apply dict_set_values.
Qed.

Lemma pairs_fresh (pairs : list (string * V)) d :
  NoDup (map fst (d ++ pairs)) -> fold_left (@set_pair V) pairs d = d ++ pairs.
Proof.
  revert d; induction pairs as [|[k v] pairs IH]; intros d H; simpl.
  - now rewrite app_nil_r.
  - unfold set_pair at 2. simpl. rewrite dict_set_new.
    + rewrite IH; rewrite <- app_assoc; [reflexivity | exact H].
    + rewrite map_app in H. simpl in H. apply NoDup_remove_2 in H.
      intros Hin. apply H. apply in_or_app. now left.
Qed.
End DictOfPairs.

Lemma combine_keys_in (A B : Type) (ks : list A) (vs : list B) (k : A) :
  In k (map fst (combine ks vs)) -> In k ks.
Proof.
  revert vs; induction ks as [|k0 ks IH]; intros [|v vs]; simpl; try tauto.
  intros [H|H]; eauto.
Qed.

Lemma combine_values (A B : Type) (P : B -> Prop) (ks : list A) (vs : list B) :
  Forall P vs -> Forall P (map snd (combine ks vs)).
Proof.
  intros H. revert ks; induction H as [|v vs Hv _ IH]; intros [|k ks]; simpl;
    constructor; auto.
Qed.

Lemma map_strip_trimmed (l : list string) :
  Forall (fun s => strip s = s) (map strip l).
Proof.
  apply Forall_forall. intros s Hs. apply in_map_iff in Hs as (x & <- & _).
  apply strip_idem.
Qed.

(** X20.  Whatever the transport returns, the records fetched all have
    the same keys in the same order, each key once, and keys and values
    carry no white space at either end. *)
Theorem fetch_tsv_data_records (get_text : string -> result string)
  (url : string) :
  exists keys : list string,
    NoDup keys /\ Forall (fun k => strip k = k) keys /\
    Forall (fun record => map fst record = keys /\
                          Forall (fun v => strip v = v) (map snd record))
           (fetch_tsv_data get_text url).
Proof.
  unfold fetch_tsv_data.
  destruct (get_text url) as [text|e];
    [|exists []; repeat constructor].
  destruct (split_char newline (strip text)) as [|first rest];
    [exists []; repeat constructor|].
  cbv zeta. set (headers := map strip (split_char tab first)).
  exists (map fst (dict_of_pairs (combine headers headers))).
  split; [|split].
  - apply pairs_keys_nodup. constructor.
  - apply Forall_forall. intros k Hk.
    apply pairs_keys_in in Hk as [[]|Hk]. apply combine_keys_in in Hk.
    pose proof (map_strip_trimmed (split_char tab first)) as Ht.
    rewrite Forall_forall in Ht. now apply Ht.
  - assert (H : forall lines acc,
               Forall (fun record =>
                         map fst record
                         = map fst (dict_of_pairs (combine headers headers)) /\
                         Forall (fun v => strip v = v) (map snd record)) acc ->
               Forall (fun record =>
                         map fst record
                         = map fst (dict_of_pairs (combine headers headers)) /\
                         Forall (fun v => strip v = v) (map snd record))
                 (fold_left
                    (fun data line =>
                       if nonempty (strip line)
                       then
                         if length headers
                            <=? length (map strip (split_char tab line))
                         then data ++
                              [dict_of_pairs
                                 (combine headers
                                    (map strip (split_char tab line)))]
                         else data
                       else data) lines acc)).
    { induction lines as [|line lines IH]; intros acc Hacc; simpl;
        [assumption|].
      apply IH. destruct (nonempty (strip line)); [|assumption].
      destruct (Nat.leb_spec (length headers)
                  (length (map strip (split_char tab line)))) as [Hle|];
        [|assumption].
      apply Forall_app. split; [assumption|].
      constructor; [|constructor]. split.
      - apply pairs_keys; [assumption | lia | reflexivity].
      - apply pairs_values; [|constructor].
        apply combine_values, map_strip_trimmed. }
    apply H. constructor.
Qed.

(** *** Joining and splitting *)

Lemma split_on_delim (delim : ascii -> bool) (d : ascii) (cur rest : string) :
  delim d = true ->
  split_on delim cur (String d EmptyString ++ rest)
  = cur :: split_on delim EmptyString rest.
Proof. simpl. now intros ->. Qed.

Lemma split_on_concat (delim : ascii -> bool) (d : ascii) (ls : list string) :
  delim d = true ->
  Forall (fun l => all_chars (fun c => negb (delim c)) l = true) ls ->
  forall l cur,
    all_chars (fun c => negb (delim c)) l = true ->
    split_on delim cur (String.concat (String d EmptyString) (l :: ls))
    = (cur ++ l)%string :: ls.
Proof.
  intros Hd Hls. induction Hls as [|l' ls Hl' _ IH]; intros l cur Hl.
  - simpl. now apply split_on_clean.
  - rewrite concat_cons, split_on_clean_app by assumption.
    rewrite split_on_delim by assumption. f_equal.
    rewrite IH by assumption. reflexivity.
Qed.

Lemma all_chars_concat (p : ascii -> bool) (sep : string) (ls : list string) :
  all_chars p sep = true -> Forall (fun l => all_chars p l = true) ls ->
  all_chars p (String.concat sep ls) = true.
Proof.
  intros Hsep. induction 1 as [|l ls Hl Hls IH]; [reflexivity|].
  destruct ls as [|l' ls]; [assumption|].
  rewrite concat_cons, !all_chars_app, Hl, Hsep. exact IH.
Qed.

Lemma starts_app (s t : string) :
  starts_with (fun c => negb (is_space c)) s = true ->
  starts_with (fun c => negb (is_space c)) (s ++ t) = true.
Proof. destruct s; simpl; [discriminate | auto]. Qed.

Lemma concat_starts (sep : string) (ls : list string) :
  starts_with (fun c => negb (is_space c)) (hd EmptyString ls) = true ->
  starts_with (fun c => negb (is_space c)) (String.concat sep ls) = true.
Proof.
  destruct ls as [|a [|b rest]]; simpl hd; intros H; [discriminate| |].
  - assumption.
  - rewrite concat_cons. now apply starts_app.
Qed.

Lemma rstrip_app_fixed (s t : string) :
  t <> EmptyString -> rstrip t = t ->
  (s ++ t)%string <> EmptyString /\ rstrip (s ++ t) = (s ++ t)%string.
Proof.
  intros Hne Ht. induction s as [|c s [IHne IH]]; simpl append.
  - auto.
  - split; [discriminate|]. rewrite rstrip_eq, IH.
    destruct (s ++ t)%string; [congruence | reflexivity].
Qed.

Lemma concat_ends (sep : string) (ls : list string) :
  last ls EmptyString <> EmptyString ->
  rstrip (last ls EmptyString) = last ls EmptyString ->
  String.concat sep ls <> EmptyString /\
  rstrip (String.concat sep ls) = String.concat sep ls.
Proof.
  induction ls as [|a ls IH]; [simpl; congruence|].
  destruct ls as [|b rest]; [simpl; auto|].
  change (last (a :: b :: rest) EmptyString) with (last (b :: rest) EmptyString).
  intros Hne Hl. destruct (IH Hne Hl) as [H1 H2]. rewrite concat_cons.
  apply rstrip_app_fixed; now apply rstrip_app_fixed.
Qed.

Lemma strip_solid (s : string) :
  starts_with (fun c => negb (is_space c)) s = true -> rstrip s = s ->
  strip s = s.
Proof.
  intros Hs Hr. unfold strip. rewrite lstrip_fixed; [assumption|].
  destruct s as [|c s]; [reflexivity|]. simpl in *.
  now apply negb_true_iff in Hs.
Qed.

Lemma trimmed_first (s : string) :
  s <> EmptyString -> strip s = s ->
  starts_with (fun c => negb (is_space c)) s = true.
Proof.
  intros Hne Ht. apply trimmed_starts in Ht.
  destruct s as [|c s]; [congruence|]. simpl in *. now rewrite Ht.
Qed.

Lemma Forall_hd (A : Type) (P : A -> Prop) (l : list A) (d : A) :
  P d -> Forall P l -> P (hd d l).
Proof. intros Hd [|a l' Ha _]; assumption. Qed.

Lemma Forall_last (A : Type) (P : A -> Prop) (l : list A) (d : A) :
  P d -> Forall P l -> P (last l d).
Proof.
  intros Hd. induction 1 as [|a l Ha Hl IH]; [assumption|].
  destruct l; assumption.
Qed.

(** *** Lines of cells *)

(** The text of a line is not empty, is not changed by trimming, holds no
    line feed, and splits at the tabs into the cells of the line. *)
Lemma line_text (cells : list string) :
  is_line cells ->
  let line := String.concat (String tab EmptyString) cells in
  starts_with (fun c => negb (is_space c)) line = true /\
  line <> EmptyString /\ rstrip line = line /\
  all_chars (fun x => negb (Ascii.eqb newline x)) line = true /\
  map strip (split_char tab line) = cells.
Proof.
  intros (Hcells & Hhd & Hlast). cbv zeta.
  assert (Htrim : Forall (fun c => strip c = c) cells).
  { eapply Forall_impl; [|exact Hcells]. now intros c (H & _). }
  assert (Hstart : starts_with (fun c => negb (is_space c))
                     (String.concat (String tab EmptyString) cells) = true).
  { apply concat_starts. apply trimmed_first; [assumption|].
    now apply Forall_hd. }
  destruct (@concat_ends (String tab EmptyString) cells Hlast) as [Hne Hr].
  { apply trimmed_rstrip. now apply Forall_last. }
  repeat split; try assumption.
  - apply all_chars_concat; [reflexivity|].
    eapply Forall_impl; [|exact Hcells]. now intros c (_ & _ & H).
  - destruct cells as [|c cells]; [simpl in Hhd; congruence|].
    unfold split_char. inversion Hcells as [|? ? (_ & Hc & _) Hrest]; subst.
    rewrite split_on_concat.
    + simpl append. clear - Htrim.
      induction Htrim as [|x l Hx _ IH]; simpl; congruence.
    + reflexivity.
    + eapply Forall_impl; [|exact Hrest]. now intros x (_ & H & _).
    + assumption.
Qed.

Lemma Forall_last_cons (A : Type) (P : A -> Prop) (a : A) (l : list A) (d : A) :
  Forall P (a :: l) -> P (last (a :: l) d).
Proof.
  revert a; induction l as [|b l IH]; intros a H.
  - now inversion H.
  - inversion H; subst. change (last (a :: b :: l) d) with (last (b :: l) d).
    now apply IH.
Qed.

Lemma combine_keys_le (A B : Type) (ks : list A) (vs : list B) :
  length ks <= length vs -> map fst (combine ks vs) = ks.
Proof.
  revert vs; induction ks as [|k ks IH]; intros [|v vs] H; simpl in *;
    try lia; [reflexivity | reflexivity |]. f_equal. apply IH. lia.
Qed.

Lemma filter_all (A : Type) (p : A -> bool) (l : list A) :
  Forall (fun a => p a = true) l -> filter p l = l.
Proof. induction 1 as [|a l Ha _ IH]; simpl; [|rewrite Ha, IH]; reflexivity. Qed.

Section WrittenTable.
Variables (headers : list string) (records : list (list string)).
Hypothesis Hnodup : NoDup headers.
Hypothesis Hheaders : is_line headers.
Hypothesis Hrecords : Forall is_line records.

Lemma fetch_loop (rs : list (list string)) (acc : list (dict string)) :
  Forall is_line rs ->
  fold_left
    (fun data line =>
       if nonempty (strip line)
       then
         if length headers <=? length (map strip (split_char tab line))
         then data ++
              [dict_of_pairs (combine headers (map strip (split_char tab line)))]
         else data
       else data)
    (map (String.concat (String tab EmptyString)) rs) acc
  = acc ++ map (combine headers)
             (filter (fun cells => length headers <=? length cells) rs).
Proof.
  intros Hrs. revert acc.
  induction Hrs as [|cells rs Hcells _ IH]; intros acc; simpl.
  - now rewrite app_nil_r.
  - destruct (line_text Hcells) as (Hstart & Hne & Hr & _ & Hsplit).
    rewrite (strip_solid Hstart Hr), Hsplit.
    apply nonempty_true in Hne. rewrite Hne.
    destruct (Nat.leb_spec (length headers) (length cells)) as [Hle|Hlt];
      [|apply IH].
    rewrite IH, <- app_assoc. simpl. do 2 f_equal.
    unfold dict_of_pairs. rewrite pairs_fresh; [reflexivity|].
    simpl. now rewrite combine_keys_le.
Qed.

(** X21.  Fetching undoes the writing of a table as tab-separated text.
    Take a header line of distinct cells and data lines, where every cell
    is trimmed and free of tabs and line feeds and the first and the last
    cell of every line are not empty.  The records fetched from the text
    are the data lines that have at least as many cells as the header line,
    in order, each cell under its header; shorter lines are left out and
    cells beyond the last header are ignored.  When every data line has as
    many cells as the header line, the records are all the data lines. *)
Theorem fetch_tsv_data_round_trip (get_text : string -> result string)
  (url : string) :
  get_text url = OK (render_tsv headers records) ->
  fetch_tsv_data get_text url
  = map (combine headers)
        (filter (fun cells => length headers <=? length cells) records) /\
  (Forall (fun cells => length cells = length headers) records ->
   fetch_tsv_data get_text url = map (combine headers) records).
Proof.
  intros Hget.
  assert (Hfetch : fetch_tsv_data get_text url
                   = map (combine headers)
                       (filter (fun cells => length headers <=? length cells)
                               records)).
  { unfold fetch_tsv_data. rewrite Hget. unfold render_tsv.
    set (line := String.concat (String tab EmptyString)).
    assert (Hall : Forall (fun l =>
                     starts_with (fun c => negb (is_space c)) l = true /\
                     l <> EmptyString /\ rstrip l = l /\
                     all_chars (fun x => negb (Ascii.eqb newline x)) l = true)
                   (map line (headers :: records))).
    { apply Forall_forall. intros l Hl.
      apply in_map_iff in Hl as (cells & <- & Hin).
      assert (Hc : is_line cells).
      { destruct Hin as [<-|Hin]; [assumption|].
        rewrite Forall_forall in Hrecords. auto. }
      destruct (line_text Hc) as (? & ? & ? & ? & _). auto. }
    assert (Htext : strip (String.concat (String newline EmptyString)
                             (map line (headers :: records)))
                    = String.concat (String newline EmptyString)
                        (map line (headers :: records))).
    { apply strip_solid.
      - apply concat_starts. simpl hd. now inversion Hall as [|? ? (H & _) _].
      - apply concat_ends; simpl map;
          apply (@Forall_last_cons _
                   (fun l => l <> EmptyString /\ rstrip l = l)
                   (line headers) (map line records) EmptyString);
          (eapply Forall_impl; [|exact Hall]); cbv beta; tauto. }
    rewrite Htext. unfold split_char. simpl map. rewrite split_on_concat.
    - simpl append. cbv zeta.
      destruct (line_text Hheaders) as (_ & _ & _ & _ & Hsplit).
      unfold split_char in Hsplit. fold line in Hsplit. rewrite Hsplit.
      apply (fetch_loop [] Hrecords).
    - reflexivity.
    - simpl map in Hall. inversion Hall as [|? ? _ Hrest]; subst.
      eapply Forall_impl; [|exact Hrest]. cbv beta. tauto.
    - now inversion Hall as [|? ? (_ & _ & _ & H) _]. }
  split; [exact Hfetch|]. intros Hlen. rewrite Hfetch, filter_all;
    [reflexivity|].
  eapply Forall_impl; [|exact Hlen]. cbv beta. intros cells ->.
  apply Nat.leb_refl.
Qed.
End WrittenTable.

Lemma fetch_tsv_data_round_trip_witness :
  fetch_tsv_data
    (serving (render_tsv ["Unique ID"; "Parent"; "Name"]
                [["1"; ""; "Automotive"]; ["short"; "line"];
                 ["2"; "1"; "Auto Body Styles"; "extra"]]))
    "https://example.org/Content Taxonomy 3.1.tsv"
  = map (combine ["Unique ID"; "Parent"; "Name"])
        (filter (fun cells => 3 <=? length cells)
                [["1"; ""; "Automotive"]; ["short"; "line"];
                 ["2"; "1"; "Auto Body Styles"; "extra"]]) /\
  (Forall (fun cells => length cells = 3)
          [["1"; ""; "Automotive"]; ["short"; "line"];
           ["2"; "1"; "Auto Body Styles"; "extra"]] ->
   fetch_tsv_data
     (serving (render_tsv ["Unique ID"; "Parent"; "Name"]
                 [["1"; ""; "Automotive"]; ["short"; "line"];
                  ["2"; "1"; "Auto Body Styles"; "extra"]]))
     "https://example.org/Content Taxonomy 3.1.tsv"
   = map (combine ["Unique ID"; "Parent"; "Name"])
         [["1"; ""; "Automotive"]; ["short"; "line"];
          ["2"; "1"; "Auto Body Styles"; "extra"]]).
Proof.
  apply (@fetch_tsv_data_round_trip ["Unique ID"; "Parent"; "Name"]
           [["1"; ""; "Automotive"]; ["short"; "line"];
            ["2"; "1"; "Auto Body Styles"; "extra"]]).
  - repeat constructor; simpl; intuition discriminate.
  - repeat split; try discriminate; repeat constructor.
  - repeat constructor; try discriminate.
  - reflexivity.
Defined.

(** *** Windows line ends *)

Lemma newline_space (c : ascii) : Ascii.eqb newline c = true -> is_space c = true.
Proof. intros H. apply Ascii.eqb_eq in H. now subst. Qed.

Lemma crlf_eq (c : ascii) (s : string) :
  crlf (String c s) =
  if Ascii.eqb newline c
  then String carriage_return (String c (crlf s))
  else String c (crlf s).
Proof. reflexivity. Qed.

Lemma lstrip_eq (c : ascii) (s : string) :
  lstrip (String c s) = if is_space c then lstrip s else String c s.
Proof. reflexivity. Qed.

Lemma lstrip_crlf (s : string) : lstrip (crlf s) = crlf (lstrip s).
Proof.
  induction s as [|c s IH]; [reflexivity|].
  rewrite crlf_eq, lstrip_eq. destruct (Ascii.eqb newline c) eqn:Hc.
  - rewrite (newline_space _ Hc), !lstrip_eq, (newline_space _ Hc).
    exact IH.
  - rewrite lstrip_eq. destruct (is_space c); [assumption|].
    now rewrite crlf_eq, Hc.
Qed.

Lemma crlf_nonempty (s : string) : nonempty (crlf s) = nonempty s.
Proof.
  destruct s as [|c s]; [reflexivity|]. rewrite crlf_eq.
  now destruct (Ascii.eqb newline c).
Qed.

Lemma rstrip_crlf (s : string) : rstrip (crlf s) = crlf (rstrip s).
Proof.
  induction s as [|c s IH]; [reflexivity|].
  rewrite crlf_eq, (rstrip_eq c s).
  destruct (Ascii.eqb newline c) eqn:Hc.
  - rewrite !rstrip_eq, IH, (newline_space _ Hc).
    destruct (rstrip s) as [|d r] eqn:E; [reflexivity|].
    pose proof (crlf_nonempty (String d r)) as Hne.
    rewrite (crlf_eq c), Hc.
    destruct (crlf (String d r)); [discriminate Hne | reflexivity].
  - rewrite rstrip_eq, IH.
    destruct (rstrip s) as [|d r] eqn:E.
    + change (crlf EmptyString) with EmptyString. cbv iota.
      destruct (is_space c); [reflexivity|]. now rewrite crlf_eq, Hc.
    + pose proof (crlf_nonempty (String d r)) as Hne.
      rewrite (crlf_eq c), Hc.
      destruct (crlf (String d r)); [discriminate Hne | reflexivity].
Qed.

Lemma strip_crlf (s : string) : strip (crlf s) = crlf (strip s).
Proof. unfold strip. now rewrite lstrip_crlf, rstrip_crlf. Qed.

Lemma split_on_eq (delim : ascii -> bool) (cur : string) (c : ascii)
  (s : string) :
  split_on delim cur (String c s) =
  if delim c then cur :: split_on delim EmptyString s
  else split_on delim (cur ++ String c EmptyString) s.
Proof. reflexivity. Qed.

Lemma split_on_nonempty (delim : ascii -> bool) (s cur : string) :
  split_on delim cur s <> [].
Proof.
  revert cur; induction s as [|c s IH]; intros cur; [discriminate|].
  rewrite split_on_eq. destruct (delim c); [discriminate | apply IH].
Qed.

Lemma split_lines_crlf (s cur : string) :
  split_on (Ascii.eqb newline) cur (crlf s)
  = add_cr (split_on (Ascii.eqb newline) cur s).
Proof.
  revert cur; induction s as [|c s IH]; intros cur; [reflexivity|].
  rewrite crlf_eq, (split_on_eq _ cur c s).
  destruct (Ascii.eqb newline c) eqn:Hc.
  - rewrite split_on_eq.
    change (Ascii.eqb newline carriage_return) with false. cbv iota.
    rewrite split_on_eq, Hc, IH.
    pose proof (split_on_nonempty (Ascii.eqb newline) s EmptyString) as Hne.
    destruct (split_on (Ascii.eqb newline) EmptyString s); [congruence|].
    reflexivity.
  - rewrite split_on_eq, Hc. apply IH.
Qed.

(** A carriage return at the end of a line changes none of its trimmed
    fields. *)
Lemma fields_cr (s cur : string) :
  map strip (split_on (Ascii.eqb tab) cur
               (s ++ String carriage_return EmptyString))
  = map strip (split_on (Ascii.eqb tab) cur s).
Proof.
  revert cur; induction s as [|c s IH]; intros cur.
  - cbn [append]. rewrite split_on_eq.
    change (Ascii.eqb tab carriage_return) with false. cbv iota.
    cbn [split_on map]. now rewrite strip_app_spaces.
  - cbn [append]. rewrite !split_on_eq.
    destruct (Ascii.eqb tab c); cbn [map]; now rewrite IH.
Qed.

Lemma split_char_cr (s : string) :
  map strip (split_char tab (s ++ String carriage_return EmptyString))
  = map strip (split_char tab s).
Proof. apply fields_cr. Qed.

Lemma strip_cr (s : string) :
  strip (s ++ String carriage_return EmptyString) = strip s.
Proof. now apply strip_app_spaces. Qed.

Section FetchLoop.
Variable headers : list string.

Lemma fetch_loop_cr (lines : list string) (acc : list (dict string)) :
  fold_left
    (fun data line =>
       if nonempty (strip line)
       then
         if length headers <=? length (map strip (split_char tab line))
         then data ++
              [dict_of_pairs (combine headers (map strip (split_char tab line)))]
         else data
       else data)
    (add_cr lines) acc
  = fold_left
      (fun data line =>
         if nonempty (strip line)
         then
           if length headers <=? length (map strip (split_char tab line))
           then data ++
                [dict_of_pairs
                   (combine headers (map strip (split_char tab line)))]
           else data
         else data)
      lines acc.
Proof.
  revert acc; induction lines as [|l rest IH]; intros acc; [reflexivity|].
  destruct rest as [|l' rest]; [reflexivity|].
  change (add_cr (l :: l' :: rest))
    with ((l ++ String carriage_return EmptyString)%string
          :: add_cr (l' :: rest)).
  cbn [fold_left]. rewrite strip_cr, !split_char_cr. apply IH.
Qed.
End FetchLoop.

(** X22.  Windows line ends make no difference: for a text with a carriage
    return before every line feed the same records are fetched as for the
    text without them. *)
Theorem fetch_tsv_data_crlf (text : string) (url : string) :
  fetch_tsv_data (serving (crlf text)) url
  = fetch_tsv_data (serving text) url.
Proof.
  unfold fetch_tsv_data, serving. rewrite strip_crlf.
  replace (split_char newline (crlf (strip text)))
    with (add_cr (split_char newline (strip text)))
    by (symmetry; apply split_lines_crlf).
  pose proof (split_on_nonempty (Ascii.eqb newline) (strip text) EmptyString)
    as Hne. fold (split_char newline (strip text)) in Hne.
  destruct (split_char newline (strip text)) as [|first rest]; [congruence|].
  destruct rest as [|l rest]; [reflexivity|].
  change (add_cr (first :: l :: rest))
    with ((first ++ String carriage_return EmptyString)%string
          :: add_cr (l :: rest)).
  cbv zeta iota. rewrite split_char_cr. apply fetch_loop_cr.
Qed.

(** ** Saved catalogs as input *)

Lemma all_dicts_map (A : Type) (f : A -> Row) (l : list A) :
  all_dicts (map (fun a => PDict (f a)) l) = Some (map f l).
Proof. induction l as [|a l IH]; simpl; [|rewrite IH]; reflexivity. Qed.

Lemma parse_table_records (rt : Runtime) (text fname : string) (A : Type)
  (f : A -> Row) (l : list A) :
  l <> [] -> is_tabular fname = false ->
  json_loads rt text = Some (PList (map (fun a => PDict (f a)) l)) ->
  parse_table rt text fname = OK (frame_of_records (map f l)).
Proof.
  intros Hne Hext Hjson. unfold parse_table, is_tabular in *.
  apply orb_false_elim in Hext as [-> ->]. rewrite Hjson.
  destruct l as [|a l]; [congruence|]. simpl map.
  unfold frame_of_list. change (PDict (f a) :: map (fun a => PDict (f a)) l)
    with (map (fun a => PDict (f a)) (a :: l)).
  now rewrite all_dicts_map.
Qed.

Lemma frame_of_flat_records (cats : list FlatCategory) :
  cats <> [] ->
  frame_of_records (map flat_record cats)
  = {| columns := ["code"; "label"]; rows := map flat_record cats |}.
Proof.
  intros Hne. unfold frame_of_records.
  assert (Hcols : forall l, fold_left add_keys (map flat_record l)
                              ["code"; "label"] = ["code"; "label"]).
  { induction l as [|c l IH]; simpl; auto. }
  destruct cats as [|c cats]; [congruence|]. simpl fold_left.
  change (add_keys [] (flat_record c)) with ["code"; "label"].
  rewrite Hcols. f_equal. clear.
  induction (c :: cats) as [|c' l IH]; simpl; [reflexivity|].
  now rewrite IH.
Qed.

Lemma frame_of_category_records (cats : list HierarchicalCategory) :
  cats <> [] ->
  frame_of_records (map category_record cats)
  = {| columns := walk_columns; rows := map category_record cats |}.
Proof.
  intros Hne. unfold frame_of_records.
  assert (Hcols : forall l, fold_left add_keys (map category_record l)
                              walk_columns = walk_columns).
  { induction l as [|c l IH]; simpl; auto. }
  destruct cats as [|c cats]; [congruence|]. simpl fold_left.
  change (add_keys [] (category_record c)) with walk_columns.
  rewrite Hcols. f_equal. clear.
  induction (c :: cats) as [|c' l IH]; simpl; [reflexivity|].
  now rewrite IH.
Qed.

Section Renormalize.
Variable rt : Runtime.

Lemma cell_text_of_text (r : Row) (col s : string) :
  row_get r col = PStr s -> s <> EmptyString -> strip s = s ->
  cell_text rt r col = s.
Proof.
  intros Hget Hne Htrim. unfold cell_text, py_or. rewrite Hget. simpl truthy.
  apply nonempty_true in Hne. now rewrite Hne.
Qed.

(** X23.  Normalizing is idempotent on the flat catalog: a catalog that
    the flat normalizer emitted, saved as JSON and parsed and normalized
    again, comes back unchanged. *)
Theorem flat_catalog_renormalized (df : DataFrame) (cats : list FlatCategory)
  (text fname : string) :
  normalize_2x rt df = OK cats -> cats <> [] ->
  is_tabular fname = false ->
  json_loads rt text = Some (flat_catalog_value cats) ->
  parse_and_normalize_2x rt text fname = OK cats.
Proof.
  intros Hcats Hne Hext Hjson. unfold parse_and_normalize_2x.
  rewrite (@parse_table_records rt text fname _ flat_record cats Hne Hext Hjson).
  rewrite (frame_of_flat_records Hne), normalize_2x_eq.
  change (OK (flat_map (emit_2x rt "code" "label") (map flat_record cats))
          = OK cats).
  f_equal. apply normalize_2x_emitted in Hcats. rename Hcats into Hall. clear - Hall.
  induction Hall as [|c cats (Hc & Hl & Hct & Hlt) _ IH]; simpl;
    [reflexivity|].
  rewrite IH. unfold emit_2x.
  rewrite (@cell_text_of_text (flat_record c) "code" (code c)),
          (@cell_text_of_text (flat_record c) "label" (flat_label c));
    try assumption; try reflexivity.
  apply nonempty_true in Hc, Hl. rewrite Hc, Hl. simpl. now destruct c.
Qed.
End Renormalize.

Section RenormalizePaths.
Variable rt : Runtime.

(** X24.  Normalizing is not idempotent on the hierarchical catalog: a
    catalog that the hierarchical normalizer emitted, saved as JSON and
    parsed and normalized again, keeps its categories, in order, with their
    ids, labels and flags, but every path is replaced by the label alone,
    since a saved path is a list and the normalizer reads paths from texts
    only. *)
Theorem catalog_renormalized (df : DataFrame)
  (cats : list HierarchicalCategory) (text fname : string) :
  normalize_3x rt df = OK cats -> cats <> [] ->
  is_tabular fname = false ->
  json_loads rt text = Some (catalog_value cats) ->
  parse_and_normalize_3x rt text fname = OK (map collapse cats).
Proof.
  intros Hcats Hne Hext Hjson. unfold parse_and_normalize_3x.
  rewrite (@parse_table_records rt text fname _ category_record cats
             Hne Hext Hjson).
  rewrite (frame_of_category_records Hne), normalize_3x_eq.
  change (OK (flat_map (emit_3x rt "id" "label" (Some "path") [] (Some "scd"))
                       (map category_record cats))
          = OK (map collapse cats)).
  f_equal. apply normalize_3x_emitted in Hcats. rename Hcats into Hall. clear - Hall.
  induction Hall as [|h cats (Hi & Hl & Hit & Hlt & _) _ IH]; simpl;
    [reflexivity|].
  rewrite IH. unfold emit_3x, kept_3x.
  rewrite (@cell_text_of_text rt (category_record h) "id" (cat_id h)),
          (@cell_text_of_text rt (category_record h) "label" (label h));
    try assumption; try reflexivity.
  apply nonempty_true in Hi, Hl. rewrite Hi, Hl. simpl.
  unfold collapse, category_record, derive_path, scd_of_raw. simpl.
  now destruct (scd h).
Qed.
End RenormalizePaths.

Lemma flat_catalog_renormalized_witness :
  parse_and_normalize_2x
    (runtime_loading
       (flat_catalog_value [{| code := "1-1"; flat_label := "Arts" |}]))
    "[...]" "iab_2x.json"
  = OK [{| code := "1-1"; flat_label := "Arts" |}].
Proof.
  apply (@flat_catalog_renormalized _ arts_frame); reflexivity || discriminate.
Defined.

Lemma catalog_renormalized_witness :
  parse_and_normalize_3x (runtime_loading (catalog_value paths_catalog))
                         "[...]" "iab_3x.json"
  = OK (map collapse paths_catalog).
Proof.
  apply (@catalog_renormalized _ paths_frame); reflexivity || discriminate.
Defined.

(** ** Tree flattening: when the walk fails *)

Lemma Flattens_walkable (anc cs : list pyval) (rows : list Row) :
  Flattens anc cs rows -> Walkable cs.
Proof.
  induction 1; [constructor | now apply Walkable_other
                | eapply Walkable_node; eauto].
Qed.

Lemma Walkable_flattens (cs : list pyval) :
  Walkable cs -> forall anc, exists rows, Flattens anc cs rows.
Proof.
  induction 1 as [|c cs Hc _ IH|node cs kids Hk _ IHk _ IH]; intros anc.
  - exists []. constructor.
  - destruct (IH anc) as (rows & H). exists rows. now constructor.
  - destruct (IHk (child_ancestors anc node)) as (sub & Hsub).
    destruct (IH anc) as (out & Hout).
    exists (own_rows anc node ++ sub ++ out). eapply Flattens_node; eauto.
Qed.

Lemma node_children_fails (node : Row) :
  (exists e, node_children node = Raise e) <->
  truthy (py_or (row_get node "children") (row_get node "nodes")) = true /\
  is_scalar (py_or (row_get node "children") (row_get node "nodes")) = true.
Proof.
  unfold node_children. rewrite first_present_2.
  destruct (truthy (py_or (row_get node "children") (row_get node "nodes")))
    eqn:Ht.
  - destruct (py_or (row_get node "children") (row_get node "nodes"));
      simpl; split; try (intros (e & H); discriminate H);
      try (intros [_ H]; discriminate H); eauto.
  - split; [intros (e & H); discriminate H | intros [H _]; discriminate H].
Qed.

(** X25.  The walk gets through a document exactly when every children
    value it meets can be iterated, and fails with a type error otherwise.
    The children value of a node (its "children", or else its "nodes")
    cannot be iterated exactly when it is a number other than zero or the
    boolean true; a text or a dict as children value is iterated without
    error. *)
Theorem walk_data_succeeds_iff :
  (forall data : pyval,
      (exists rows, walk_data data = OK rows) <-> Walkable (roots data)) /\
  (forall data : pyval,
      walk_data data = Raise TypeError <-> ~ Walkable (roots data)) /\
  (forall node : Row,
      (exists e, node_children node = Raise e) <->
      truthy (py_or (row_get node "children") (row_get node "nodes")) = true /\
      is_scalar (py_or (row_get node "children") (row_get node "nodes"))
      = true).
Proof.
  assert (Hok : forall data,
             (exists rows, walk_data data = OK rows) <-> Walkable (roots data)).
  { intros data. split.
    - intros (rows & H). apply walk_data_flattens in H.
      eauto using Flattens_walkable.
    - intros H. destruct (Walkable_flattens H []) as (rows & Hrows).
      exists rows. now apply walk_data_flattens. }
  split; [exact Hok|]. split; [|exact node_children_fails].
  intros data. rewrite <- Hok. split.
  - intros H (rows & Hrows). congruence.
  - intros H. destruct (walk_data data) as [rows|e] eqn:E.
    + elim H. eauto.
    + now rewrite (walk_data_raise _ E).
Qed.
